(** * libbrillo: BaseMessageLoop and file_utils

    A shallow embedding of
    - [chromeos/message_loops/base_message_loop.cc]: the task scheduler that
      layers task ids, cancellation and safe dispatch over
      [base::MessageLoopForIO];
    - [brillo/file_utils.cc]: [TouchFile], [WriteToFile],
      [SyncFileOrDirectory] and [WriteToFileAtomic].

    The C++ objects become records, the two [std::map] stores become [gmap]s
    keyed by the task id, member functions become functions that pass the
    loop state explicitly, and callbacks ([base::Closure]) become trees of
    calls into the loop's public interface. *)

From Stdlib Require Import ZArith List Bool String Ascii Lia.
From stdpp Require Import gmap strings list fin_maps.

Local Open Scope Z_scope.

(** ** Results of partial computations *)

(** What stops a computation from producing a value. *)
Inductive Fault : Type :=
  | NoFreeTaskId      (* the do-while of NextTaskId never finds a free id *)
  | CheckFailed       (* a DCHECK fails: the entry point is called for an unknown id *)
  | NullClosureRun    (* Run() on a null base::Closure *)
  | BlockedForever.   (* base::MessageLoop::Run() waits with nothing left to deliver *)

Inductive Res (A : Type) : Type :=
  | Ret (a : A)
  | Stuck (f : Fault).
Arguments Ret {A} a.
Arguments Stuck {A} f.

Definition bind {A B : Type} (m : Res A) (k : A -> Res B) : Res B :=
  match m with
  | Ret a => k a
  | Stuck f => Stuck f
  end.

Notation "'do' x <- m ; k" := (bind m (fun x => k))
  (at level 10, x pattern, m at level 100, k at level 200,
   format "'[v' 'do'  x  <-  m ; '/' k ']'").

Module MessageLoop.

(** ** Data model *)

(** [MessageLoop::TaskId].  Modelled from the spec: [message_loop.h] is not
    among the sources; the spec describes the id as an unsigned integer handle
    whose counter wraps on overflow, with [kTaskIdNull = 0] as the value that
    names no task.  The width is that of [uint64_t]. *)
Abbreviation TaskId := Z (only parsing).
Definition kTaskIdNull : TaskId := 0.
Definition TaskId_modulus : Z := 2 ^ 64.

(** [MessageLoop::WatchMode]: the two enumerators, and any other value the
    enum object may hold (the [default:] branch of the switch). *)
Inductive WatchMode : Type :=
  | kWatchRead
  | kWatchWrite
  | kWatchOther (v : Z).

(** [base::MessageLoopForIO::Mode] as used by the switch. *)
Inductive BaseMode : Type := WATCH_READ | WATCH_WRITE.

#[local] Set Warnings "-register-all".

(** [base::Closure].  A callback acts on the loop only through the loop's
    public member functions, so a bound closure is the tree of calls it makes,
    each continuation receiving the value the call returned.  Callbacks
    schedule, watch, cancel and break; they do not drive the loop themselves
    (no nested [Run] or [RunOnce]).  A null [Closure] is [None] in
    [option Closure]. *)
Inductive Closure : Type :=
  | Return
  | DoCancelTask (task_id : TaskId) (k : bool -> Closure)
  | DoPostDelayedTask (task : option Closure) (delay : Z) (k : TaskId -> Closure)
  | DoWatchFileDescriptor (fd : Z) (mode : WatchMode) (persistent : bool)
      (task : option Closure) (k : TaskId -> Closure)
  | DoBreakLoop (k : Closure).

Definition is_null (c : option Closure) : bool :=
  match c with None => true | Some _ => false end.

(** [struct DelayedTask]; the [location] member feeds log lines only and is
    left out. *)
Record DelayedTask : Type := mkDelayedTask {
  dt_task_id : TaskId;
  dt_closure : option Closure
}.

(** [class IOTask].  [fd_watcher_] is the subscription the record owns: the
    descriptor and mode handed to [base_loop_->WatchFileDescriptor]. *)
Record IOTask : Type := mkIOTask {
  task_id_ : TaskId;
  persistent_ : bool;
  closure_ : option Closure;
  fd_watcher_ : Z * BaseMode
}.

(** Modelled from the spec: [base::MessageLoopForIO] is not part of this
    repository.  Section 6 gives its interface: a timer primitive whose
    [arm] answers accepted or rejected, a readiness primitive whose
    [subscribe] may fail, and a stop request.  [accepts_tasks] is the answer
    of [task_runner()->PostDelayedTask], [can_watch fd] the answer of
    [WatchFileDescriptor] for [fd], [quit_called] records [QuitNow()]. *)
Record MessageLoopForIO : Type := mkBase {
  accepts_tasks : bool;
  can_watch : Z -> bool;
  quit_called : bool
}.

(** [class BaseMessageLoop]. *)
Record BaseMessageLoop : Type := mkLoop {
  delayed_tasks_ : gmap Z DelayedTask;
  io_tasks_ : gmap Z IOTask;
  last_id_ : TaskId;
  run_once_ : bool;
  base_loop_ : MessageLoopForIO
}.

Definition set_delayed_tasks (m : gmap Z DelayedTask) (s : BaseMessageLoop) :=
  mkLoop m (io_tasks_ s) (last_id_ s) (run_once_ s) (base_loop_ s).
Definition set_io_tasks (m : gmap Z IOTask) (s : BaseMessageLoop) :=
  mkLoop (delayed_tasks_ s) m (last_id_ s) (run_once_ s) (base_loop_ s).
Definition set_last_id (i : TaskId) (s : BaseMessageLoop) :=
  mkLoop (delayed_tasks_ s) (io_tasks_ s) i (run_once_ s) (base_loop_ s).
Definition set_run_once (b : bool) (s : BaseMessageLoop) :=
  mkLoop (delayed_tasks_ s) (io_tasks_ s) (last_id_ s) b (base_loop_ s).
Definition set_base_loop (b : MessageLoopForIO) (s : BaseMessageLoop) :=
  mkLoop (delayed_tasks_ s) (io_tasks_ s) (last_id_ s) (run_once_ s) b.

(** [base_loop_->QuitNow()]. *)
Definition QuitNow (s : BaseMessageLoop) : BaseMessageLoop :=
  set_base_loop (mkBase (accepts_tasks (base_loop_ s)) (can_watch (base_loop_ s)) true) s.

(** The state a fresh [BaseMessageLoop] has after its constructor. *)
Definition new_loop (base : MessageLoopForIO) : BaseMessageLoop :=
  mkLoop ∅ ∅ 0 false base.

(** [std::map::emplace]: inserts only when the key is absent. *)
Definition emplace {V : Type} (k : Z) (v : V) (m : gmap Z V) : gmap Z V :=
  match m !! k with
  | Some _ => m
  | None => <[k := v]> m
  end.

Definition contains {V : Type} (k : Z) (m : gmap Z V) : bool :=
  match m !! k with Some _ => true | None => false end.

(** ** Member functions *)

(** [BaseMessageLoop::CancelTask]. *)
Definition CancelTask (task_id : TaskId) (s : BaseMessageLoop)
  : bool * BaseMessageLoop :=
  if task_id =? kTaskIdNull then (false, s)
  else
    match delayed_tasks_ s !! task_id with
    | None =>
        (* This might be an IOTask then. *)
        match io_tasks_ s !! task_id with
        | None => (false, s)
        | Some _ => (true, set_io_tasks (delete task_id (io_tasks_ s)) s)
        end
    | Some delayed_task =>
        if is_null (dt_closure delayed_task) then (false, s)
        else
          (true,
           set_delayed_tasks
             (<[task_id := mkDelayedTask (dt_task_id delayed_task) None]>
                (delayed_tasks_ s)) s)
    end.

(** The do-while of [BaseMessageLoop::NextTaskId]: [res = ++last_id_] with
    the wrap-around of the unsigned counter, repeated while [res] is the null
    id or a key of either store.  [fuel] bounds the number of iterations. *)
Fixpoint NextTaskId_loop (fuel : nat) (last_id : TaskId)
    (delayed : gmap Z DelayedTask) (io : gmap Z IOTask) : Res TaskId :=
  match fuel with
  | O => Stuck NoFreeTaskId
  | S fuel' =>
      let res := (last_id + 1) mod TaskId_modulus in
      if (res =? 0) || contains res delayed || contains res io
      then NextTaskId_loop fuel' res delayed io
      else Ret res
  end.

(** The number of iterations after which the loop has either answered or
    will never answer: the candidates it tries are consecutive, so among
    [size + 2] of them one is neither null nor a key, unless the stores fill
    the id space (see [NextTaskId_loop_fuel] and [NextTaskId_loop_full]). *)
Definition NextTaskId_fuel (s : BaseMessageLoop) : nat :=
  (size (delayed_tasks_ s) + size (io_tasks_ s) + 2)%nat.

(** [BaseMessageLoop::NextTaskId]. *)
Definition NextTaskId (s : BaseMessageLoop) : Res (TaskId * BaseMessageLoop) :=
  do res <- NextTaskId_loop (NextTaskId_fuel s) (last_id_ s)
              (delayed_tasks_ s) (io_tasks_ s);
  Ret (res, set_last_id res s).

(** [BaseMessageLoop::PostDelayedTask]. *)
Definition PostDelayedTask (task : option Closure) (delay : Z)
    (s : BaseMessageLoop) : Res (TaskId * BaseMessageLoop) :=
  do (task_id, s1) <- NextTaskId s;
  let base_scheduled := accepts_tasks (base_loop_ s1) in
  if negb base_scheduled then Ret (kTaskIdNull, s1)
  else
    Ret (task_id,
         set_delayed_tasks
           (emplace task_id (mkDelayedTask task_id task) (delayed_tasks_ s1)) s1).

(** The switch on [mode] in [WatchFileDescriptor]; [None] is its
    [default:] branch. *)
Definition base_mode_of (mode : WatchMode) : option BaseMode :=
  match mode with
  | kWatchRead => Some WATCH_READ
  | kWatchWrite => Some WATCH_WRITE
  | kWatchOther _ => None
  end.

(** [BaseMessageLoop::WatchFileDescriptor]. *)
Definition WatchFileDescriptor (fd : Z) (mode : WatchMode) (persistent : bool)
    (task : option Closure) (s : BaseMessageLoop)
  : Res (TaskId * BaseMessageLoop) :=
  if fd <? 0 then Ret (kTaskIdNull, s)
  else
    match base_mode_of mode with
    | None => Ret (kTaskIdNull, s)
    | Some base_mode =>
        do (task_id, s1) <- NextTaskId s;
        let s2 :=
          set_io_tasks
            (emplace task_id (mkIOTask task_id persistent task (fd, base_mode))
               (io_tasks_ s1)) s1 in
        let scheduled := can_watch (base_loop_ s2) fd in
        if negb scheduled
        then Ret (kTaskIdNull, set_io_tasks (delete task_id (io_tasks_ s2)) s2)
        else Ret (task_id, s2)
    end.

(** [BaseMessageLoop::BreakLoop]. *)
Definition BreakLoop (s : BaseMessageLoop) : BaseMessageLoop := QuitNow s.

(** ** Callbacks and the entry points the underlying loop calls *)

(** What an observer of a run sees: which record's callback was started, and
    what each call made by a callback returned. *)
Inductive Event : Type :=
  | EvRun (task_id : TaskId)                    (* closure.Run() for this record *)
  | EvCancel (task_id : TaskId) (result : bool) (* a callback's CancelTask(task_id) *)
  | EvPost (task_id : TaskId)                   (* a callback's PostDelayedTask returned task_id *)
  | EvWatch (task_id : TaskId)                  (* a callback's WatchFileDescriptor returned task_id *)
  | EvBreak.                                    (* a callback's BreakLoop() *)

(** Running a bound closure: every call it makes goes through the member
    functions above. *)
Fixpoint run_closure (c : Closure) (s : BaseMessageLoop)
  : Res (BaseMessageLoop * list Event) :=
  match c with
  | Return => Ret (s, [])
  | DoCancelTask task_id k =>
      let (result, s1) := CancelTask task_id s in
      do (s2, t) <- run_closure (k result) s1;
      Ret (s2, EvCancel task_id result :: t)
  | DoPostDelayedTask task delay k =>
      do (task_id, s1) <- PostDelayedTask task delay s;
      do (s2, t) <- run_closure (k task_id) s1;
      Ret (s2, EvPost task_id :: t)
  | DoWatchFileDescriptor fd mode persistent task k =>
      do (task_id, s1) <- WatchFileDescriptor fd mode persistent task s;
      do (s2, t) <- run_closure (k task_id) s1;
      Ret (s2, EvWatch task_id :: t)
  | DoBreakLoop k =>
      do (s2, t) <- run_closure k (BreakLoop s);
      Ret (s2, EvBreak :: t)
  end.

(** [Closure::Run()]. *)
Definition Closure_Run (closure : option Closure) (s : BaseMessageLoop)
  : Res (BaseMessageLoop * list Event) :=
  match closure with
  | None => Stuck NullClosureRun
  | Some c => run_closure c s
  end.

(** The tail shared by both fire paths:
    [if (run_once_) { run_once_ = false; base_loop_->QuitNow(); }]. *)
Definition stop_if_run_once (s : BaseMessageLoop) : BaseMessageLoop :=
  if run_once_ s then QuitNow (set_run_once false s) else s.

(** [BaseMessageLoop::OnRanPostedTask]. *)
Definition OnRanPostedTask (task_id : TaskId) (s : BaseMessageLoop)
  : Res (BaseMessageLoop * list Event) :=
  match delayed_tasks_ s !! task_id with
  | None => Stuck CheckFailed
  | Some task =>
      do (s3, t) <-
        (if negb (is_null (dt_closure task)) then
           (* Mark the task as canceled while we are running it. *)
           let closure := dt_closure task in
           let s1 :=
             set_delayed_tasks
               (<[task_id := mkDelayedTask (dt_task_id task) None]>
                  (delayed_tasks_ s)) s in
           do (s2, t) <- Closure_Run closure s1;
           Ret (stop_if_run_once s2, EvRun task_id :: t)
         else Ret (s, []));
      Ret (set_delayed_tasks (delete task_id (delayed_tasks_ s3)) s3, t)
  end.

(** [BaseMessageLoop::IOTask::OnFileReady], called on the [IOTask] stored
    under the key [this]. *)
Definition OnFileReady (this : TaskId) (fd : Z) (s : BaseMessageLoop)
  : Res (BaseMessageLoop * list Event) :=
  match io_tasks_ s !! this with
  | None => Stuck CheckFailed
  | Some self =>
      do (s2, t) <-
        (if persistent_ self then
           (* In the persistent case we just run the callback. *)
           Closure_Run (closure_ self) s
         else
           (* This will destroy |this|, the fd_watcher and therefore stop
              watching this file descriptor. *)
           let closure_copy := closure_ self in
           let s1 := set_io_tasks (delete (task_id_ self) (io_tasks_ s)) s in
           Closure_Run closure_copy s1);
      Ret (stop_if_run_once s2, EvRun (task_id_ self) :: t)
  end.

Definition OnFileCanReadWithoutBlocking (this : TaskId) (fd : Z) :=
  OnFileReady this fd.
Definition OnFileCanWriteWithoutBlocking (this : TaskId) (fd : Z) :=
  OnFileReady this fd.

(** ** The underlying loop driving the entry points *)

(** Modelled from the spec: what the two primitives of
    [base::MessageLoopForIO] deliver.  An armed timer calls the bound
    [OnRanPostedTask(task_id)]; a readiness subscription calls the delegate
    it was given, the [IOTask] stored under [task_id]. *)
Inductive Notification : Type :=
  | TimerFired (task_id : TaskId)
  | FileReady (task_id : TaskId).

(** Modelled from the spec: a readiness subscription lives in the
    [fd_watcher_] of its record, and destroying the record unsubscribes
    (section 4.3), so readiness for a record that is gone reaches nobody. *)
Definition deliver (n : Notification) (s : BaseMessageLoop)
  : Res (BaseMessageLoop * list Event) :=
  match n with
  | TimerFired task_id => OnRanPostedTask task_id s
  | FileReady task_id =>
      match io_tasks_ s !! task_id with
      | None => Ret (s, [])
      | Some io_task =>
          match snd (fd_watcher_ io_task) with
          | WATCH_READ =>
              OnFileCanReadWithoutBlocking task_id (fst (fd_watcher_ io_task)) s
          | WATCH_WRITE =>
              OnFileCanWriteWithoutBlocking task_id (fst (fd_watcher_ io_task)) s
          end
      end
  end.

(** Modelled from the spec: one drive call of the underlying loop.
    [pending] is what the primitives have to deliver, in order.  A stop
    request takes effect as soon as control returns to the loop (section
    4.5), so the drive returns after the entry point that asked for it; with
    nothing left to deliver the non-blocking drive returns and the blocking
    one waits for ever.  Only what this class registered is delivered, and
    only its entry points ask for a stop: other users of the same underlying
    loop, who can post to it and quit it as well, are not part of [pending]. *)
Fixpoint drive (blocking : bool) (pending : list Notification)
    (s : BaseMessageLoop) : Res (BaseMessageLoop * list Event) :=
  match pending with
  | [] => if blocking then Stuck BlockedForever else Ret (s, [])
  | n :: rest =>
      do (s1, t1) <- deliver n s;
      if quit_called (base_loop_ s1) then Ret (s1, t1)
      else
        do (s2, t2) <- drive blocking rest s1;
        Ret (s2, t1 ++ t2)
  end.

Definition begin_run (s : BaseMessageLoop) : BaseMessageLoop :=
  set_base_loop
    (mkBase (accepts_tasks (base_loop_ s)) (can_watch (base_loop_ s)) false) s.

(** [base_loop_->RunUntilIdle()] and [base_loop_->Run()]. *)
Definition base_RunUntilIdle (pending : list Notification) (s : BaseMessageLoop) :=
  drive false pending (begin_run s).
Definition base_Run (pending : list Notification) (s : BaseMessageLoop) :=
  drive true pending (begin_run s).

(** [BaseMessageLoop::RunOnce]. *)
Definition RunOnce (may_block : bool) (pending : list Notification)
    (s : BaseMessageLoop) : Res (bool * BaseMessageLoop * list Event) :=
  let s1 := set_run_once true s in
  do (s2, t) <-
    (if negb may_block then base_RunUntilIdle pending s1
     else base_Run pending s1);
  (* If the flag was reset to false, it means a closure was run. *)
  if negb (run_once_ s2) then Ret (true, s2, t)
  else Ret (false, set_run_once false s2, t).

(** [BaseMessageLoop::Run]. *)
Definition Run (pending : list Notification) (s : BaseMessageLoop) :=
  base_Run pending s.

(** ** The notions the properties are stated with *)

(** The ids the loop of [NextTaskId] has to skip. *)
Definition taken (delayed : gmap Z DelayedTask) (io : gmap Z IOTask) (r : Z) : Prop :=
  r = 0 \/ is_Some (delayed !! r) \/ is_Some (io !! r).

(** Room for one more record. *)
Definition has_room (s : BaseMessageLoop) : Prop :=
  Z.of_nat (NextTaskId_fuel s) <= TaskId_modulus.

Definition fresh_in (s : BaseMessageLoop) (id : Z) : Prop :=
  0 < id < TaskId_modulus /\
  delayed_tasks_ s !! id = None /\ io_tasks_ s !! id = None.

(** Every key is a non-null id in range and names the record stored under
    it; no id is a key of both stores. *)
Record wf (s : BaseMessageLoop) : Prop := mk_wf {
  wf_delayed : forall k task,
    delayed_tasks_ s !! k = Some task ->
    0 < k < TaskId_modulus /\ dt_task_id task = k;
  wf_io : forall k task,
    io_tasks_ s !! k = Some task ->
    0 < k < TaskId_modulus /\ task_id_ task = k;
  wf_unique : forall k,
    delayed_tasks_ s !! k = None \/ io_tasks_ s !! k = None;
  wf_last_id : 0 <= last_id_ s < TaskId_modulus
}.

(** The events of a run up to and including the first one that [stop]
    selects. *)
Fixpoint upto (stop : Event -> bool) (t : list Event) : list Event :=
  match t with
  | [] => []
  | e :: r => if stop e then [e] else e :: upto stop r
  end.

Definition never (stop : Event -> bool) (t : list Event) : Prop :=
  forallb (fun e => negb (stop e)) t = true.

Definition is_run (e : Event) : bool :=
  match e with EvRun _ => true | _ => false end.

(** [allocs_at_most n c]: along every path [c] registers at most [n]
    tasks. *)
Inductive allocs_at_most : nat -> Closure -> Prop :=
  | aam_Return n : allocs_at_most n Return
  | aam_Cancel n task_id k :
      (forall b, allocs_at_most n (k b)) ->
      allocs_at_most n (DoCancelTask task_id k)
  | aam_Post n task delay k :
      (forall tid, allocs_at_most n (k tid)) ->
      allocs_at_most (S n) (DoPostDelayedTask task delay k)
  | aam_Watch n fd mode persistent task k :
      (forall tid, allocs_at_most n (k tid)) ->
      allocs_at_most (S n) (DoWatchFileDescriptor fd mode persistent task k)
  | aam_Break n k :
      allocs_at_most n k -> allocs_at_most n (DoBreakLoop k).

(** The events by which a callback is handed [task_id] for a new task. *)
Definition registers (task_id : Z) (e : Event) : bool :=
  match e with
  | EvPost i | EvWatch i => i =? task_id
  | _ => false
  end.

(** The event of a callback cancelling [task_id] with success. *)
Definition cancels (task_id : Z) (e : Event) : bool :=
  match e with
  | EvCancel i true => i =? task_id
  | _ => false
  end.

(** The id counter is at or above every id in use and [n] more allocations
    do not make it wrap around. *)
Definition no_wrap (n : nat) (s : BaseMessageLoop) : Prop :=
  (forall k, is_Some (delayed_tasks_ s !! k) \/ is_Some (io_tasks_ s !! k) ->
             k <= last_id_ s) /\
  0 <= last_id_ s /\
  last_id_ s + Z.of_nat n < TaskId_modulus.

(** An event that is neither the start of the callback of [task_id] nor a
    successful cancel of [task_id]. *)
Definition spares (task_id : Z) (e : Event) : Prop :=
  e <> EvRun task_id /\ e <> EvCancel task_id true.

Definition absent (task_id : Z) (s : BaseMessageLoop) : Prop :=
  delayed_tasks_ s !! task_id = None /\ io_tasks_ s !! task_id = None.



(** The calls a user of the loop makes, and the underlying loop changing
    what it accepts. *)
Inductive Call : Type :=
  | CallPostDelayedTask (task : option Closure) (delay : Z)
  | CallWatchFileDescriptor (fd : Z) (mode : WatchMode) (persistent : bool)
      (task : option Closure)
  | CallCancelTask (task_id : Z)
  | CallRunOnce (may_block : bool) (pending : list Notification)
  | CallRun (pending : list Notification)
  | CallBreakLoop
  | BaseChanges (base : MessageLoopForIO).

Definition call (c : Call) (s : BaseMessageLoop) : Res BaseMessageLoop :=
  match c with
  | CallPostDelayedTask task delay =>
      do (_, s1) <- PostDelayedTask task delay s; Ret s1
  | CallWatchFileDescriptor fd mode persistent task =>
      do (_, s1) <- WatchFileDescriptor fd mode persistent task s; Ret s1
  | CallCancelTask task_id => Ret (CancelTask task_id s).2
  | CallRunOnce may_block pending =>
      do (_, s1, _) <- RunOnce may_block pending s; Ret s1
  | CallRun pending => do (s1, _) <- Run pending s; Ret s1
  | CallBreakLoop => Ret (BreakLoop s)
  | BaseChanges base => Ret (set_base_loop base s)
  end.

(** The states a loop can be in: any sequence of calls that return, made on
    a freshly constructed loop. *)
Inductive reachable : BaseMessageLoop -> Prop :=
  | reachable_new base : reachable (new_loop base)
  | reachable_call c s s' : reachable s -> call c s = Ret s' -> reachable s'.

(** The states a loop is in at any instant, between two calls as well as
    in the middle of [RunOnce] or of a callback: a new loop, and what each
    statement of the source that writes a member makes of such a state. *)
Inductive instant : BaseMessageLoop -> Prop :=
  | instant_new base : instant (new_loop base)
  | instant_PostDelayedTask task delay s tid s' :
      instant s -> PostDelayedTask task delay s = Ret (tid, s') -> instant s'
  | instant_WatchFileDescriptor fd mode persistent task s tid s' :
      instant s -> WatchFileDescriptor fd mode persistent task s = Ret (tid, s') ->
      instant s'
  | instant_CancelTask task_id s :
      instant s -> instant (CancelTask task_id s).2
  | instant_run_once b s :                (* run_once_ = b *)
      instant s -> instant (set_run_once b s)
  | instant_base base s :                 (* QuitNow(); the underlying loop itself *)
      instant s -> instant (set_base_loop base s)
  | instant_take task_id task s :         (* task_it->second.closure = Closure() *)
      instant s -> delayed_tasks_ s !! task_id = Some task ->
      instant (set_delayed_tasks
                 (<[task_id := mkDelayedTask (dt_task_id task) None]> (delayed_tasks_ s)) s)
  | instant_erase_delayed task_id s :     (* delayed_tasks_.erase(task_it) *)
      instant s -> instant (set_delayed_tasks (delete task_id (delayed_tasks_ s)) s)
  | instant_erase_io task_id s :          (* io_tasks_.erase(task_id_) *)
      instant s -> instant (set_io_tasks (delete task_id (io_tasks_ s)) s).

(** A callback's [BreakLoop()], and a callback's [CancelTask(task_id)]
    whatever it returned. *)
Definition is_break (e : Event) : bool :=
  match e with EvBreak => true | _ => false end.

Definition cancel_of (task_id : Z) (e : Event) : bool :=
  match e with
  | EvCancel i _ => i =? task_id
  | _ => false
  end.

(** ** Sample loops *)

(** An underlying loop that accepts everything, and one that refuses
    everything. *)
Definition accepting_base : MessageLoopForIO := mkBase true (fun _ => true) false.
Definition refusing_base : MessageLoopForIO := mkBase false (fun _ => false) false.

(** A callback that cancels task 1 and breaks the loop if that worked. *)
Definition cancel_1 : Closure :=
  DoCancelTask 1 (fun ok => if ok then DoBreakLoop Return else Return).

(** A loop with one delayed task, id 1. *)
Definition loop_with_delayed : BaseMessageLoop :=
  mkLoop (<[1 := mkDelayedTask 1 (Some cancel_1)]> ∅) ∅ 1 false accepting_base.

(** A loop with one one-shot watch, and one with a persistent watch, id 1,
    on descriptor 3. *)
Definition loop_with_one_shot : BaseMessageLoop :=
  mkLoop ∅ (<[1 := mkIOTask 1 false (Some cancel_1) (3, WATCH_READ)]> ∅) 1 false
    accepting_base.
Definition loop_with_persistent : BaseMessageLoop :=
  mkLoop ∅ (<[1 := mkIOTask 1 true (Some Return) (3, WATCH_READ)]> ∅) 1 false
    accepting_base.

(** A loop with a delayed task, id 1, that breaks the loop, and a
    persistent watch, id 2. *)
Definition loop_with_breaker : BaseMessageLoop :=
  mkLoop (<[1 := mkDelayedTask 1 (Some (DoBreakLoop Return))]> ∅)
    (<[2 := mkIOTask 2 true (Some Return) (3, WATCH_READ)]> ∅) 2 false accepting_base.

(** A loop with a cancelled delayed task, id 1, and a pending one, id 2. *)
Definition loop_with_cancelled : BaseMessageLoop :=
  mkLoop (<[2 := mkDelayedTask 2 (Some Return)]> (<[1 := mkDelayedTask 1 None]> ∅))
    ∅ 2 false accepting_base.

(** A callback that schedules another task, and a loop with a delayed task,
    id 1, bound to it. *)
Definition repost : Closure :=
  DoPostDelayedTask (Some Return) 0 (fun _ => Return).

Definition loop_with_reposter : BaseMessageLoop :=
  mkLoop (<[1 := mkDelayedTask 1 (Some repost)]> ∅) ∅ 1 false accepting_base.

(** A callback that cancels task 1 twice, and a loop with a persistent
    watch, id 1, bound to it. *)
Definition cancel_1_twice : Closure :=
  DoCancelTask 1 (fun _ => DoCancelTask 1 (fun _ => Return)).

Definition loop_with_self_cancelling : BaseMessageLoop :=
  mkLoop ∅ (<[1 := mkIOTask 1 true (Some cancel_1_twice) (3, WATCH_READ)]> ∅) 1 false
    accepting_base.

(** A callback that watches a descriptor and then cancels task 1, and a
    loop whose id counter stands at its last value, with a one-shot watch,
    id 1, bound to that callback. *)
Definition watch_then_cancel_1 : Closure :=
  DoWatchFileDescriptor 4 kWatchRead false (Some Return)
    (fun _ => DoCancelTask 1 (fun _ => Return)).

Definition one_shot_1 : IOTask :=
  mkIOTask 1 false (Some watch_then_cancel_1) (3, WATCH_READ).

Definition loop_about_to_wrap : BaseMessageLoop :=
  mkLoop ∅ (<[1 := one_shot_1]> ∅) (TaskId_modulus - 1) false accepting_base.

End MessageLoop.

(** * brillo/file_utils.cc *)

Module FileUtils.

(** ** The file system the functions run against *)

(** The operating system is outside the repository.  It is modelled as far as
    the calls made in [file_utils.cc] go: a name space of paths, each bound
    to at most one inode, the credentials and umask of the calling process,
    and the things only the environment decides -- whether a call fails for
    a reason of its own, how many bytes a [write] takes, what [RandBytes]
    returns. *)

Inductive Errno : Type :=
  | ENOENT | EEXIST | ELOOP | EISDIR | ENOTDIR | ENOTEMPTY
  | EACCES | EIO | ENOSPC | EMFILE.

Inductive FileType : Type := S_IFREG | S_IFDIR | S_IFLNK | S_IFOTHER.

Record Inode : Type := mkInode {
  st_type : FileType;
  st_mode : Z;               (* permission bits *)
  st_uid : Z;
  st_gid : Z;
  i_data : list Byte.byte;        (* contents of a regular file *)
  i_target : string          (* target of a symbolic link *)
}.

(** What the environment decides about the next call. *)
Inductive Fate : Type :=
  | Succeed
  | Fail (e : Errno)
  | Short (n : nat).         (* a write that takes only [n] bytes *)

(** What the calls that succeeded did, most recent first. *)
Inductive SysEvent : Type :=
  | SysCreate (path : string)
  | SysChmod (path : string) (mode : Z)
  | SysWrite (path : string) (bytes : list Byte.byte)
  | SysSync (path : string)
  | SysClose (path : string)
  | SysRename (old new : string)
  | SysUnlink (path : string).

Record Os : Type := mkOs {
  files : gmap string Inode;
  euid : Z;
  egid : Z;
  umask : Z;
  fates : list Fate;
  rand_bytes : list Z;
  history : list SysEvent
}.

Definition set_files (m : gmap string Inode) (os : Os) : Os :=
  mkOs m (euid os) (egid os) (umask os) (fates os) (rand_bytes os) (history os).
Definition set_fates (l : list Fate) (os : Os) : Os :=
  mkOs (files os) (euid os) (egid os) (umask os) l (rand_bytes os) (history os).
Definition set_rand_bytes (l : list Z) (os : Os) : Os :=
  mkOs (files os) (euid os) (egid os) (umask os) (fates os) l (history os).
Definition record (e : SysEvent) (os : Os) : Os :=
  mkOs (files os) (euid os) (egid os) (umask os) (fates os) (rand_bytes os)
    (e :: history os).

(** Every call first learns its fate; with none left it succeeds. *)
Definition next_fate (os : Os) : Fate * Os :=
  match fates os with
  | [] => (Succeed, os)
  | f :: rest => (f, set_fates rest os)
  end.

(** A file descriptor names the inode it was opened on; the name space has
    one path per inode, so the descriptor is that path. *)
Abbreviation Fd := string (only parsing).

Definition is_dir (i : Inode) : bool :=
  match st_type i with S_IFDIR => true | _ => false end.
Definition is_symlink (i : Inode) : bool :=
  match st_type i with S_IFLNK => true | _ => false end.
Definition S_ISREG (i : Inode) : bool :=
  match st_type i with S_IFREG => true | _ => false end.

Definition is_empty (s : string) : bool :=
  match s with EmptyString => true | _ => false end.

(** [openat(AT_FDCWD, path, O_RDONLY | O_CLOEXEC | O_NOFOLLOW)]. *)
Definition open_nofollow (path : string) (os : Os) : (Errno + Fd) * Os :=
  let (fate, os1) := next_fate os in
  match fate with
  | Fail e => (inl e, os1)
  | _ =>
      if is_empty path then (inl ENOENT, os1)
      else
        match files os1 !! path with
        | None => (inl ENOENT, os1)
        | Some i => if is_symlink i then (inl ELOOP, os1) else (inr path, os1)
        end
  end.

(** [open(path, O_CREAT | O_EXCL | ..., mode)], with or without
    [O_NOFOLLOW]: with [O_EXCL] a symbolic link at [path] is not followed
    either way.  Of [mode] the twelve mode bits (07777) count, less the
    umask.  The new file belongs to the effective user of the calling
    process, and to its effective group: directories with the set-group-ID
    bit, in which the system gives a new file the group of the directory
    instead, are outside the model. *)
Definition open_creat_excl (path : string) (mode : Z) (os : Os)
  : (Errno + Fd) * Os :=
  let (fate, os1) := next_fate os in
  match fate with
  | Fail e => (inl e, os1)
  | _ =>
      if is_empty path then (inl ENOENT, os1)
      else
        match files os1 !! path with
        | Some _ => (inl EEXIST, os1)
        | None =>
            let i := mkInode S_IFREG
                       (Z.land (Z.land mode 4095) (Z.lnot (umask os1)))
                       (euid os1) (egid os1) [] "" in
            (inr path, record (SysCreate path) (set_files (<[path := i]> (files os1)) os1))
        end
  end.

(** [fstat(fd, &file_stat)]. *)
Definition fstat (fd : Fd) (os : Os) : option Inode * Os :=
  let (fate, os1) := next_fate os in
  match fate with
  | Fail _ => (None, os1)
  | _ => (files os1 !! fd, os1)
  end.

(** [fchmod(fd, mode)]; [0] or [-1]. *)
Definition fchmod (fd : Fd) (mode : Z) (os : Os) : Z * Os :=
  let (fate, os1) := next_fate os in
  match fate with
  | Fail _ => (-1, os1)
  | _ =>
      match files os1 !! fd with
      | None => (0, record (SysChmod fd mode) os1)
      | Some i =>
          (0, record (SysChmod fd mode)
                (set_files
                   (<[fd := mkInode (st_type i) mode (st_uid i) (st_gid i)
                              (i_data i) (i_target i)]> (files os1)) os1))
      end
  end.

(** [write(fd, buf, count)] on a descriptor opened for appending to a new
    file: the number of bytes taken, or [-1]. *)
Definition write (fd : Fd) (buf : list Byte.byte) (os : Os) : Z * Os :=
  let (fate, os1) := next_fate os in
  match fate with
  | Fail _ => (-1, os1)
  | _ =>
      let taken :=
        match fate with
        | Short n => take n buf
        | _ => buf
        end in
      let os2 :=
        match files os1 !! fd with
        | None => os1
        | Some i =>
            set_files
              (<[fd := mkInode (st_type i) (st_mode i) (st_uid i) (st_gid i)
                         (i_data i ++ taken) (i_target i)]> (files os1)) os1
        end in
      (Z.of_nat (length taken), record (SysWrite fd taken) os2)
  end.

(** [fdatasync(fd)] and [close(fd)]. *)
Definition fdatasync (fd : Fd) (os : Os) : Z * Os :=
  let (fate, os1) := next_fate os in
  match fate with
  | Fail _ => (-1, os1)
  | _ => (0, record (SysSync fd) os1)
  end.

Definition close (fd : Fd) (os : Os) : Z * Os :=
  let (fate, os1) := next_fate os in
  match fate with
  | Fail _ => (-1, os1)
  | _ => (0, record (SysClose fd) os1)
  end.

(** [unlink(path)]; the empty path names nothing. *)
Definition unlink (path : string) (os : Os) : Z * Os :=
  let (fate, os1) := next_fate os in
  match fate with
  | Fail _ => (-1, os1)
  | _ =>
      if is_empty path then (-1, os1) else
      match files os1 !! path with
      | None => (-1, os1)
      | Some i =>
          if is_dir i then (-1, os1)
          else (0, record (SysUnlink path) (set_files (delete path (files os1)) os1))
      end
  end.

(** [rename(old, new)] of something that is not a directory; renaming a
    directory is refused, the functions here never ask for it. *)
Definition rename (old new : string) (os : Os) : Z * Os :=
  let (fate, os1) := next_fate os in
  match fate with
  | Fail _ => (-1, os1)
  | _ =>
      if is_empty old || is_empty new then (-1, os1) else
      match files os1 !! old with
      | None => (-1, os1)
      | Some i =>
          if is_dir i then (-1, os1)
          else
            match files os1 !! new with
            | Some j =>
                if is_dir j then (-1, os1)
                else (0, record (SysRename old new)
                           (set_files (<[new := i]> (delete old (files os1))) os1))
            | None =>
                (0, record (SysRename old new)
                      (set_files (<[new := i]> (delete old (files os1))) os1))
            end
      end
  end.

(** The paths below a directory. *)
Definition below (dir : string) (p : string) : bool :=
  String.prefix (String.append dir "/") p.

Definition remove_tree (dir : string) (m : gmap string Inode) : gmap string Inode :=
  filter (fun kv => below dir kv.1 = false) (delete dir m).

Definition has_children (dir : string) (m : gmap string Inode) : bool :=
  bool_decide (filter (fun kv : string * Inode => below dir kv.1 = true) m <> ∅).

(** [base::DeleteFile(path, recursive)]: no symbolic link is followed; a
    path that does not exist is a success. *)
Definition DeleteFile (path : string) (recursive : bool) (os : Os) : bool * Os :=
  let (fate, os1) := next_fate os in
  match fate with
  | Fail _ => (false, os1)
  | _ =>
      match files os1 !! path with
      | None => (true, os1)
      | Some i =>
          if is_dir i then
            if recursive then (true, set_files (remove_tree path (files os1)) os1)
            else if has_children path (files os1) then (false, os1)
            else (true, set_files (delete path (files os1)) os1)
          else (true, set_files (delete path (files os1)) os1)
      end
  end.

(** [stat()] follows symbolic links, up to a bound as the kernel does. *)
Fixpoint stat_follow (hops : nat) (path : string) (m : gmap string Inode)
  : option Inode :=
  match m !! path with
  | None => None
  | Some i =>
      if is_symlink i then
        match hops with
        | O => None
        | S hops' => stat_follow hops' (i_target i) m
        end
      else Some i
  end.

(** [base::DirectoryExists(path)]. *)
Definition DirectoryExists (path : string) (os : Os) : bool * Os :=
  let (fate, os1) := next_fate os in
  match fate with
  | Fail _ => (false, os1)
  | _ =>
      (match stat_follow 40 path (files os1) with
       | Some i => is_dir i
       | None => false
       end, os1)
  end.

(** [base::CreateDirectory(path)]: true if the directory is there already,
    else it is made with mode 0700.  The parents of [path] are taken to be
    there: the function makes the missing ones on its way, so that of the
    code a path is known to be left alone only if it is none of the
    directories above [path] (see [ancestor_of]). *)
Definition CreateDirectory (path : string) (os : Os) : bool * Os :=
  let (fate, os1) := next_fate os in
  match fate with
  | Fail _ => (false, os1)
  | _ =>
      match stat_follow 40 path (files os1) with
      | Some i => (is_dir i, os1)
      | None =>
          match files os1 !! path with
          | Some _ => (false, os1)
          | None =>
              let i := mkInode S_IFDIR (Z.land 448 (Z.lnot (umask os1)))
                         (euid os1) (egid os1) [] "" in
              (true, set_files (<[path := i]> (files os1)) os1)
          end
      end
  end.

(** [base::RandBytes(buffer, n)]: [n] values of an [unsigned char]. *)
Fixpoint RandBytes (n : nat) (os : Os) : list Z * Os :=
  match n with
  | O => ([], os)
  | S n' =>
      let '(b, os1) :=
        match rand_bytes os with
        | [] => (0, os)
        | b :: rest => (b mod 256, set_rand_bytes rest os)
        end in
      let '(bs, os2) := RandBytes n' os1 in
      (b :: bs, os2)
  end.

(** ** base::FilePath *)

(** [base::FilePath::DirName] and [BaseName] belong to libchrome and are
    left open; what is proved holds whatever they compute. *)
Class FilePathOps : Type := {
  DirName : string -> string;
  BaseName : string -> string
}.

Definition starts_with_dot (s : string) : bool :=
  match s with String "."%char _ => true | _ => false end.

Fixpoint ends_with_dot (s : string) : bool :=
  match s with
  | EmptyString => false
  | String c EmptyString => Ascii.eqb c "."%char
  | String _ rest => ends_with_dot rest
  end.

Definition IsEmptyOrSpecialCase (base : string) : bool :=
  is_empty base || String.eqb base "." || String.eqb base "..".

(** [base::FilePath::AddExtension], as libchrome documents it: the path
    itself for an empty extension, the empty path when the base name is
    empty, "." or "..", else the extension appended after a separating dot
    unless one is there already. *)
Definition AddExtension `{FilePathOps} (path extension : string) : string :=
  if is_empty extension then path
  else if IsEmptyOrSpecialCase (BaseName path) then ""
  else
    String.append path
      (String.append
         (if starts_with_dot extension || ends_with_dot path then "" else ".")
         extension).

(** ** The functions of file_utils.cc *)

Definition kPermissions600 : Z := 384.     (* S_IRUSR | S_IWUSR *)
Definition kPermissions777 : Z := 511.     (* S_IRWXU | S_IRWXG | S_IRWXO *)

Inductive RegularFileOrDeleteResult : Type :=
  | kFailure        (* Failed to delete whatever was at the path. *)
  | kRegularFile    (* Regular file existed and was unchanged. *)
  | kEmpty.         (* Anything that was at the path has been deleted. *)

(** [RegularFileOrDelete]. *)
Definition RegularFileOrDelete (path : string) (uid gid : Z) (os : Os)
  : RegularFileOrDeleteResult * Os :=
  let (scoped_fd, os1) := open_nofollow path os in
  let path_not_empty :=
    match scoped_fd with
    | inl ELOOP => true
    | inl _ => false
    | inr _ => true
    end in
  let (found, os2) :=
    match scoped_fd with
    | inr fd =>
        let (file_stat, os2) := fstat fd os1 in
        (match file_stat with
         | Some i => S_ISREG i && (st_uid i =? uid) && (st_gid i =? gid)
         | None => false
         end, os2)
    | inl _ => (false, os1)
    end in
  if found then (kRegularFile, os2)
  else if path_not_empty then
    let (deleted, os3) := DeleteFile path true os2 in
    if negb deleted then (kFailure, os3) else (kEmpty, os3)
  else (kEmpty, os2).

(** [TouchFileInternal]; the second component is [fd_out], set only if a new
    file is created. *)
Definition TouchFileInternal `{FilePathOps} (path : string) (uid gid : Z) (os : Os)
  : bool * option Fd * Os :=
  let (result, os1) := RegularFileOrDelete path uid gid os in
  match result with
  | kFailure => (false, None, os1)
  | kRegularFile => (true, None, os1)
  | kEmpty =>
      let (made, os2) := CreateDirectory (DirName path) os1 in
      if negb made then (false, None, os2)
      else
        (* Create the file as owner-only initially. *)
        let (scoped_fd, os3) := open_creat_excl path kPermissions600 os2 in
        match scoped_fd with
        | inl _ => (false, None, os3)
        | inr fd => (true, Some fd, os3)
        end
  end.

(** [TouchFile(path, new_file_permissions, uid, gid)]. *)
Definition TouchFile `{FilePathOps} (path : string) (new_file_permissions : Z)
    (uid gid : Z) (os : Os) : bool * Os :=
  (* Make sure |permissions| doesn't have any out-of-range bits. *)
  if negb (Z.land new_file_permissions (Z.lnot kPermissions777) =? 0)
  then (false, os)
  else
    let '(ok, scoped_fd, os1) := TouchFileInternal path uid gid os in
    if negb ok then (false, os1)
    else
      (* scoped_fd is valid only if a new file was created. *)
      match scoped_fd with
      | None => (true, os1)
      | Some fd =>
          let (r, os2) := fchmod fd new_file_permissions os1 in
          if r =? -1 then
            let (_, os3) := DeleteFile path false os2 in (false, os3)
          else (true, os2)
      end.

(** One character of [GetRandomSuffix]. *)
Definition suffix_char (b : Z) : ascii :=
  let random_value := b mod (2 * 26 + 10) in
  if random_value <? 26 then ascii_of_nat (Z.to_nat (97 + random_value))
  else if random_value <? 2 * 26 then
    ascii_of_nat (Z.to_nat (65 + random_value - 26))
  else ascii_of_nat (Z.to_nat (48 + random_value - 2 * 26)).

(** [GetRandomSuffix]. *)
Definition GetRandomSuffix (os : Os) : string * Os :=
  let (buffer, os1) := RandBytes 6 os in
  (string_of_list_ascii (List.map suffix_char buffer), os1).

(** The [while (position < size)] loop of [WriteToFileAtomic]; the first
    component tells whether every [write] went through.  [fuel] bounds the
    number of iterations. *)
Fixpoint write_loop (fuel : nat) (fd : Fd) (temp_name : string)
    (data : list Byte.byte) (position : nat) (os : Os) : option (bool * Os) :=
  if (position <? length data)%nat then
    match fuel with
    | O => None
    | S fuel' =>
        let (bytes_written, os1) := write fd (drop position data) os in
        if bytes_written <? 0 then
          let (_, os2) := close fd os1 in
          let (_, os3) := unlink temp_name os2 in
          Some (false, os3)
        else
          write_loop fuel' fd temp_name data
            (position + Z.to_nat bytes_written) os1
    end
  else Some (true, os).

(** [WriteToFileAtomic(path, data, size, mode)], [size] being the length of
    [data]; [None] when [fuel] iterations of the write loop are not
    enough. *)
Definition WriteToFileAtomic `{FilePathOps} (fuel : nat) (path : string)
    (data : list Byte.byte) (mode : Z) (os : Os) : option (bool * Os) :=
  let (dir_ok, os1) :=
    let (there, os0) := DirectoryExists (DirName path) os in
    if negb there then CreateDirectory (DirName path) os0 else (true, os0) in
  if negb dir_ok then Some (false, os1)
  else
    let (random_suffix, os2) := GetRandomSuffix os1 in
    if is_empty random_suffix then Some (false, os2)
    else
      let temp_name := AddExtension path random_suffix in
      let (fd, os3) := open_creat_excl temp_name mode os2 in
      match fd with
      | inl _ =>
          let (_, os4) := unlink temp_name os3 in Some (false, os4)
      | inr fd =>
          match write_loop fuel fd temp_name data 0 os3 with
          | None => None
          | Some (false, os4) => Some (false, os4)
          | Some (true, os4) =>
              let (synced, os5) := fdatasync fd os4 in
              if synced <? 0 then
                let (_, os6) := close fd os5 in
                let (_, os7) := unlink temp_name os6 in
                Some (false, os7)
              else
                let (closed, os6) := close fd os5 in
                if closed <? 0 then
                  let (_, os7) := unlink temp_name os6 in Some (false, os7)
                else
                  let (renamed, os7) := rename temp_name path os6 in
                  if renamed <? 0 then
                    let (_, os8) := unlink temp_name os7 in Some (false, os8)
                  else Some (true, os7)
          end
      end.

(** [WriteBlobToFileAtomic(path, blob, mode)]: the bytes of the blob and
    their number. *)
Definition WriteBlobToFileAtomic `{FilePathOps} (fuel : nat) (path : string)
    (blob : list Byte.byte) (mode : Z) (os : Os) : option (bool * Os) :=
  WriteToFileAtomic fuel path blob mode os.







(** The path a chain of symbolic links starting at [path] ends at, followed
    as [stat_follow] follows it. *)
Fixpoint follow_links (hops : nat) (path : string) (m : gmap string Inode)
  : option string :=
  match m !! path with
  | None => None
  | Some i =>
      if is_symlink i then
        match hops with
        | O => None
        | S hops' => follow_links hops' (i_target i) m
        end
      else Some path
  end.

(** [open(path, flags)] without [O_CREAT], [flags] being
    [O_RDONLY | O_DIRECTORY] ([directory]) or [O_WRONLY]: symbolic links are
    followed; [O_DIRECTORY] refuses what is not a directory and [O_WRONLY]
    refuses a directory. *)
Definition open_existing (path : string) (directory : bool) (os : Os)
  : (Errno + Fd) * Os :=
  let (fate, os1) := next_fate os in
  match fate with
  | Fail e => (inl e, os1)
  | _ =>
      match follow_links 40 path (files os1) with
      | None => (inl ENOENT, os1)
      | Some p =>
          match files os1 !! p with
          | None => (inl ENOENT, os1)
          | Some i =>
              if directory then
                if is_dir i then (inr p, os1) else (inl ENOTDIR, os1)
              else
                if is_dir i then (inl EISDIR, os1) else (inr p, os1)
          end
      end
  end.

(** [fsync(fd)]. *)
Definition fsync (fd : Fd) (os : Os) : Z * Os :=
  let (fate, os1) := next_fate os in
  match fate with
  | Fail _ => (-1, os1)
  | _ => (0, record (SysSync fd) os1)
  end.

(** [SyncFileOrDirectory(path, is_directory, data_sync)]; the two readings
    of the clock feed a log line only and are left out. *)
Definition SyncFileOrDirectory (path : string) (is_directory data_sync : bool)
    (os : Os) : bool * Os :=
  let data_sync := data_sync && negb is_directory in
  let (fd, os1) := open_existing path is_directory os in
  match fd with
  | inl _ => (false, os1)
  | inr fd =>
      let (result, os2) :=
        if data_sync then fdatasync fd os1 else fsync fd os1 in
      if result <? 0 then
        let (_, os3) := close fd os2 in (false, os3)
      else
        (* close() may not be retried on error. *)
        let (result, os3) := close fd os2 in
        if result <? 0 then (false, os3) else (true, os3)
  end.

(** ** The notions the properties are stated with *)

(** The calling process is the same after a call. *)
Definition same_proc (os os' : Os) : Prop :=
  euid os' = euid os /\ egid os' = egid os /\ umask os' = umask os.

(** A call that changes no file and records nothing. *)
Definition quiet (os os' : Os) : Prop :=
  files os' = files os /\ history os' = history os /\ same_proc os os' /\
  (length (fates os') <= length (fates os))%nat.

Definition new_file (mode : Z) (os : Os) : Inode :=
  mkInode S_IFREG (Z.land (Z.land mode 4095) (Z.lnot (umask os)))
    (euid os) (egid os) [] "".




Definition append_data (taken : list Byte.byte) (i : Inode) : Inode :=
  mkInode (st_type i) (st_mode i) (st_uid i) (st_gid i)
    (i_data i ++ taken) (i_target i).

Definition writes_to (temp : string) (e : SysEvent) : Prop :=
  exists bytes, e = SysWrite temp bytes.

(** The environment lets the next [n] calls through. *)
Definition not_failing (f : Fate) : bool :=
  match f with Fail _ => false | _ => true end.
Definition lets_through (n : nat) (os : Os) : bool :=
  forallb not_failing (take n (fates os)).

(** The directories above a path: its [DirName], the [DirName] of that, and
    so on.  These are the directories [base::CreateDirectory] makes when
    they are missing. *)
Definition ancestor_of `{FilePathOps} (path q : string) : Prop :=
  exists n : nat, Nat.iter (S n) DirName path = q.

(** The characters [GetRandomSuffix] draws from: digits and letters. *)
Definition is_alnum (c : ascii) : bool :=
  let n := nat_of_ascii c in
  ((48 <=? n) && (n <=? 57) || (65 <=? n) && (n <=? 90) ||
   (97 <=? n) && (n <=? 122))%nat.

(** A plain instance, for paths written without trailing or doubled
    separators: the directory is what stands before the last "/". *)
Fixpoint last_separator (s : string) (i : nat) (seen : option nat) : option nat :=
  match s with
  | EmptyString => seen
  | String c rest =>
      last_separator rest (S i) (if Ascii.eqb c "/"%char then Some i else seen)
  end.

Definition plain_DirName (path : string) : string :=
  match last_separator path 0 None with
  | None => "."
  | Some O => "/"
  | Some n => substring 0 n path
  end.

Definition plain_BaseName (path : string) : string :=
  match last_separator path 0 None with
  | None => path
  | Some n => substring (S n) (String.length path - S n) path
  end.

#[local] Instance plain_paths : FilePathOps :=
  {| DirName := plain_DirName; BaseName := plain_BaseName |}.


(** ** Sample file systems *)

(** A process with uid and gid 1000 and umask 022, a directory "/tmp" owned
    by root, and an environment with nothing to say. *)
Definition tmp_dir : Inode := mkInode S_IFDIR 511 0 0 [] "".
Definition os_tmp : Os :=
  mkOs (<["/tmp" := tmp_dir]> ∅) 1000 1000 18 [] [] [].

(** The same with a regular file "/tmp/f" that belongs to the process. *)
Definition file_f : Inode :=
  mkInode S_IFREG 420 1000 1000 [Byte.x68; Byte.x69] "".
Definition os_tmp_f : Os :=
  mkOs (<["/tmp/f" := file_f]> (<["/tmp" := tmp_dir]> ∅)) 1000 1000 18 [] [] [].

(** The same with a symbolic link "/tmp/f" to "/etc/passwd". *)
Definition link_f : Inode := mkInode S_IFLNK 511 1000 1000 [] "/etc/passwd".
Definition passwd : Inode := mkInode S_IFREG 420 0 0 [Byte.x72] "".
Definition os_tmp_link : Os :=
  mkOs (<["/tmp/f" := link_f]> (<["/etc/passwd" := passwd]> (<["/tmp" := tmp_dir]> ∅)))
    1000 1000 18 [] [] [].


(** [os_tmp_f] with an environment that refuses the first call. *)
Definition os_open_refused : Os :=
  mkOs (<["/tmp/f" := file_f]> (<["/tmp" := tmp_dir]> ∅)) 1000 1000 18
    [Fail EACCES] [] [].

(** [os_tmp_f] with an environment that lets three calls through and refuses
    the fourth. *)
Definition os_mkdir_refused : Os :=
  mkOs (<["/tmp/f" := file_f]> (<["/tmp" := tmp_dir]> ∅)) 1000 1000 18
    [Succeed; Succeed; Succeed; Fail EACCES] [] [].



(** A file sitting where the temporary file for "/tmp/f" goes when
    [RandBytes] answers zeros. *)
Definition os_tmp_taken : Os :=
  mkOs (<["/tmp/f.aaaaaa" := file_f]> (<["/tmp" := tmp_dir]> ∅)) 1000 1000 18 [] [] [].

End FileUtils.

(** * Properties of the file utilities *)

Module FileUtilsSpec.
Import FileUtils.

(** *** What each call leaves alone *)

Lemma same_proc_refl os : same_proc os os.
Proof. done. Qed.

Lemma same_proc_trans os1 os2 os3 :
  same_proc os1 os2 -> same_proc os2 os3 -> same_proc os1 os3.
Proof. unfold same_proc. intros (-> & -> & ->) (-> & -> & ->). done. Qed.

Lemma quiet_refl os : quiet os os.
Proof. done. Qed.

Lemma next_fate_quiet os fate os1 :
  next_fate os = (fate, os1) -> quiet os os1.
Proof.
  unfold next_fate, quiet, same_proc.
  destruct (fates os) as [|f rest] eqn:E; intros [= <- <-]; simpl;
    rewrite ?E; simpl; repeat split; lia.
Qed.

Lemma next_fate_empty os :
  fates os = [] -> next_fate os = (Succeed, os).
Proof. unfold next_fate. by intros ->. Qed.

Lemma next_fate_shorter os fate os1 :
  next_fate os = (fate, os1) ->
  (fates os = [] /\ fate = Succeed /\ os1 = os) \/
  (length (fates os1) < length (fates os))%nat.
Proof.
  unfold next_fate. destruct (fates os) as [|f rest] eqn:E; intros [= <- <-].
  - by left.
  - right. simpl. lia.
Qed.

Ltac use_fate H :=
  let fate := fresh "fate" in
  let os1 := fresh "os1" in
  let E := fresh "Efate" in
  let Q := fresh "Hq" in
  match type of H with
  | context [next_fate ?os] =>
      destruct (next_fate os) as [fate os1] eqn:E;
      pose proof (next_fate_quiet _ _ _ E) as Q
  end.

Lemma is_empty_true s : is_empty s = true <-> s = "".
Proof. destruct s; simpl; split; congruence. Qed.



Lemma open_creat_excl_inv path mode os r os1 :
  open_creat_excl path mode os = (r, os1) ->
  same_proc os os1 /\ (length (fates os1) <= length (fates os))%nat /\
  match r with
  | inl _ => files os1 = files os /\ history os1 = history os
  | inr fd =>
      fd = path /\ path <> "" /\ files os !! path = None /\
      files os1 = <[path := new_file mode os]> (files os) /\
      history os1 = SysCreate path :: history os
  end.
Proof.
  unfold open_creat_excl. intros H. use_fate H.
  destruct Hq as (Hf & Hh & Hp & Hl). pose proof Hp as (Hu & Hg & Hm).
  destruct fate; try (injection H as <- <-; done).
  all: destruct (is_empty path) eqn:Ee; [injection H as <- <-; done|].
  all: rewrite Hf in H; destruct (files os !! path) as [i|] eqn:E;
    injection H as <- <-; try done.
  all: split; [done|]; split; [done|]; split; [done|].
  all: split; [intros ->; done|]; split; [done|].
  all: unfold new_file; simpl; rewrite Hu, Hg, Hm, Hh; done.
Qed.


Lemma fdatasync_inv fd os r os1 :
  fdatasync fd os = (r, os1) ->
  files os1 = files os /\ same_proc os os1 /\
  (r = -1 \/ (r = 0 /\ history os1 = SysSync fd :: history os)).
Proof.
  unfold fdatasync. intros H. use_fate H. destruct Hq as (Hf & Hh & Hp & Hl).
  destruct fate; injection H as <- <-; simpl; rewrite ?Hh; auto.
Qed.

Lemma close_inv fd os r os1 :
  close fd os = (r, os1) ->
  files os1 = files os /\ same_proc os os1 /\
  (r = -1 \/ (r = 0 /\ history os1 = SysClose fd :: history os)).
Proof.
  unfold close. intros H. use_fate H. destruct Hq as (Hf & Hh & Hp & Hl).
  destruct fate; injection H as <- <-; simpl; rewrite ?Hh; auto.
Qed.

Lemma unlink_inv path os r os1 :
  unlink path os = (r, os1) ->
  same_proc os os1 /\
  (files os1 = files os \/ (path <> "" /\ files os1 = delete path (files os))).
Proof.
  unfold unlink. intros H. use_fate H. destruct Hq as (Hf & Hh & Hp & Hl).
  destruct fate; try (injection H as <- <-; auto).
  all: destruct (is_empty path) eqn:Ee; [injection H as <- <-; auto|].
  all: rewrite Hf in H; destruct (files os !! path) as [i|];
    [|injection H as <- <-; auto].
  all: destruct (is_dir i); injection H as <- <-; auto.
  all: split; [done|]; right; simpl; split; [|done].
  all: intros ->; done.
Qed.

Lemma rename_inv old new os r os1 :
  rename old new os = (r, os1) ->
  same_proc os os1 /\
  ((r = -1 /\ files os1 = files os) \/
   (r = 0 /\ exists i,
      files os !! old = Some i /\
      files os1 = <[new := i]> (delete old (files os)) /\
      history os1 = SysRename old new :: history os)).
Proof.
  unfold rename. intros H. use_fate H. destruct Hq as (Hf & Hh & Hp & Hl).
  destruct fate; try (injection H as <- <-; auto).
  all: destruct (is_empty old || is_empty new); [injection H as <- <-; auto|].
  all: rewrite Hf in H; destruct (files os !! old) as [i|] eqn:E;
    [|injection H as <- <-; auto].
  all: destruct (is_dir i); [injection H as <- <-; auto|].
  all: destruct (files os !! new) as [j|]; [destruct (is_dir j)|];
    injection H as <- <-; auto.
  all: split; [done|]; right; split; [done|]; exists i; simpl; rewrite Hh; done.
Qed.


Lemma CreateDirectory_inv dir os b os1 :
  CreateDirectory dir os = (b, os1) ->
  same_proc os os1 /\ history os1 = history os /\
  (length (fates os1) <= length (fates os))%nat /\
  (files os1 = files os \/
   exists i, files os !! dir = None /\ files os1 = <[dir := i]> (files os)).
Proof.
  unfold CreateDirectory. intros H. use_fate H. destruct Hq as (Hf & Hh & Hp & Hl).
  rewrite Hf in H.
  destruct fate, (stat_follow 40 dir (files os)), (files os !! dir) eqn:E;
    injection H as <- <-; (split; [done|]); (split; [done|]); (split; [done|]);
    simpl; rewrite ?Hf; first [ by left | right; eauto ].
Qed.

Lemma DirectoryExists_inv dir os b os1 :
  DirectoryExists dir os = (b, os1) -> quiet os os1.
Proof.
  unfold DirectoryExists. intros H. use_fate H.
  destruct fate; by injection H as <- <-.
Qed.

(** *** TouchFile *)


Lemma remove_tree_gone dir (m : gmap string Inode) : remove_tree dir m !! dir = None.
Proof.
  unfold remove_tree. apply map_lookup_filter_None. left. apply lookup_delete_eq.
Qed.


Section TouchFile.
Context `{FilePathOps}.






Lemma not_ancestor_DirName path q : ~ ancestor_of path q -> q <> DirName path.
Proof. intros Hn ->. apply Hn. by exists 0%nat. Qed.


Lemma next_fate_lets_through n os :
  lets_through (S n) os = true ->
  exists fate os1,
    next_fate os = (fate, os1) /\ not_failing fate = true /\
    files os1 = files os /\ lets_through n os1 = true.
Proof.
  unfold lets_through, next_fate. destruct (fates os) as [|f rest] eqn:E.
  - intros _. exists Succeed, os. rewrite E. by destruct n.
  - simpl. intros [Hf Hr]%andb_true_iff. by eexists _, _.
Qed.

End TouchFile.

(** *** WriteToFileAtomic *)

Lemma RandBytes_inv n : forall os bs os1,
  RandBytes n os = (bs, os1) ->
  length bs = n /\ files os1 = files os /\ history os1 = history os /\
  same_proc os os1 /\ fates os1 = fates os.
Proof.
  induction n as [|n IH]; intros os bs os1; simpl.
  { by intros [= <- <-]. }
  destruct (rand_bytes os) as [|b rest];
    destruct (RandBytes n _) as [bs' os2] eqn:E; intros [= <- <-];
    apply IH in E as (Hl & Hf & Hh & Hp & Hfa); simpl in *;
    rewrite Hl, Hf, Hh, Hfa; done.
Qed.

Lemma GetRandomSuffix_inv os suffix os1 :
  GetRandomSuffix os = (suffix, os1) ->
  String.length suffix = 6%nat /\ files os1 = files os /\
  history os1 = history os /\ same_proc os os1 /\ fates os1 = fates os.
Proof.
  unfold GetRandomSuffix. destruct (RandBytes 6 os) as [buffer os2] eqn:E.
  intros [= <- <-]. apply RandBytes_inv in E as (Hl & H).
  split; [|done].
  do 7 (destruct buffer as [|? buffer]; try done).
Qed.

Lemma string_length_append (a b : string) :
  String.length (String.append a b) = (String.length a + String.length b)%nat.
Proof. induction a as [|c a IH]; simpl; [done|by rewrite IH]. Qed.

Section WriteToFileAtomic.
Context `{FilePathOps}.

(** The temporary name is never the destination. *)
Lemma AddExtension_other path extension :
  is_empty extension = false ->
  AddExtension path extension = "" \/ AddExtension path extension <> path.
Proof.
  intros He. unfold AddExtension. rewrite He.
  destruct (IsEmptyOrSpecialCase (BaseName path)); [by left|right].
  intros E. apply (f_equal String.length) in E.
  rewrite !string_length_append in E.
  destruct extension; [done|]. simpl in E. lia.
Qed.

Lemma write_inv fd buf os n os1 :
  write fd buf os = (n, os1) ->
  same_proc os os1 /\
  ((n = -1 /\ files os1 = files os /\ history os1 = history os /\
    (length (fates os1) < length (fates os))%nat) \/
   exists k,
     n = Z.of_nat (length (take k buf)) /\
     files os1 = match files os !! fd with
                 | Some i => <[fd := append_data (take k buf) i]> (files os)
                 | None => files os
                 end /\
     history os1 = SysWrite fd (take k buf) :: history os /\
     ((fates os = [] /\ fates os1 = [] /\ take k buf = buf) \/
      (length (fates os1) < length (fates os))%nat)).
Proof.
  unfold write. intros Hw.
  destruct (next_fate os) as [fate os0] eqn:E.
  pose proof (next_fate_quiet _ _ _ E) as (Hf & Hh & Hp & _).
  pose proof (next_fate_shorter _ _ _ E) as Hs.
  assert (forall taken,
            same_proc os
              (record (SysWrite fd taken)
                 match files os0 !! fd with
                 | Some i =>
                     set_files (<[fd := append_data taken i]> (files os0)) os0
                 | None => os0
                 end)) as Hproc.
  { intros taken. destruct (files os0 !! fd); exact Hp. }
  assert (forall taken,
            files (record (SysWrite fd taken)
                 match files os0 !! fd with
                 | Some i =>
                     set_files (<[fd := append_data taken i]> (files os0)) os0
                 | None => os0
                 end)
            = match files os !! fd with
              | Some i => <[fd := append_data taken i]> (files os)
              | None => files os
              end) as Hfiles.
  { intros taken. rewrite Hf. by destruct (files os !! fd). }
  assert (forall taken,
            history (record (SysWrite fd taken)
                 match files os0 !! fd with
                 | Some i =>
                     set_files (<[fd := append_data taken i]> (files os0)) os0
                 | None => os0
                 end) = SysWrite fd taken :: history os) as Hhist.
  { intros taken. simpl. by destruct (files os0 !! fd); simpl; rewrite Hh. }
  assert (forall taken,
            fates (record (SysWrite fd taken)
                 match files os0 !! fd with
                 | Some i =>
                     set_files (<[fd := append_data taken i]> (files os0)) os0
                 | None => os0
                 end) = fates os0) as Hfates.
  { intros taken. simpl. by destruct (files os0 !! fd). }
  destruct fate as [|e|k].
  - injection Hw as <- <-. split; [apply Hproc|]. right.
    exists (length buf). rewrite firstn_all.
    split; [done|]. split; [apply Hfiles|]. split; [apply Hhist|].
    rewrite Hfates. destruct Hs as [(E0 & _ & ->)|Hs]; [left|right]; done.
  - injection Hw as <- <-. split; [done|]. left.
    destruct Hs as [(_ & [=] & _)|Hs]. done.
  - injection Hw as <- <-. split; [apply Hproc|]. right.
    exists k. split; [done|]. split; [apply Hfiles|]. split; [apply Hhist|].
    rewrite Hfates. destruct Hs as [(_ & [=] & _)|Hs]. by right.
Qed.

Lemma take_step (data : list Byte.byte) position k :
  (position <= length data)%nat ->
  take position data ++ take k (drop position data)
  = take (position + length (take k (drop position data))) data /\
  (position + length (take k (drop position data)) <= length data)%nat.
Proof.
  intros Hle. rewrite length_take, length_drop.
  destruct (decide (k <= length data - position)%nat) as [Hk|Hk].
  - rewrite Nat.min_l by done. split; [apply take_take_drop | lia].
  - rewrite Nat.min_r by lia. split; [|lia].
    rewrite take_take_drop, !take_ge; [done|lia|lia].
Qed.

(** The write loop: files other than the temporary one are not touched,
    and when every write went through the temporary file holds the
    data. *)
Lemma write_loop_inv temp data fuel : forall position os ok os' i,
  write_loop fuel temp temp data position os = Some (ok, os') ->
  (position <= length data)%nat ->
  files os !! temp = Some i ->
  S_ISREG i = true -> i_data i = take position data ->
  same_proc os os' /\
  (forall q, q <> temp -> files os' !! q = files os !! q) /\
  (ok = true ->
   (exists i', files os' !! temp = Some i' /\ S_ISREG i' = true /\
               i_data i' = data) /\
   exists ws, history os' = ws ++ history os /\ Forall (writes_to temp) ws).
Proof.
  induction fuel as [|fuel IH]; intros position os ok os' i Hloop Hpos Hi Hreg Hdata;
    simpl in Hloop;
    destruct (Nat.ltb_spec position (length data)) as [Hlt|Hge].
  - done.
  - injection Hloop as <- <-. split; [done|]. split; [done|]. intros _. split.
    + exists i. rewrite Hdata, take_ge by done. done.
    + exists []. by split.
  - destruct (write temp (drop position data) os) as [n os1] eqn:Ew.
    apply write_inv in Ew as (Hp1 & Hw).
    destruct Hw as [(-> & Hf1 & _)|(k & -> & Hf1 & Hh1 & _)].
    + simpl in Hloop.
      destruct (close temp os1) as [c os2] eqn:Ec.
      apply close_inv in Ec as (Hf2 & Hp2 & _).
      destruct (unlink temp os2) as [u os3] eqn:Eu.
      apply unlink_inv in Eu as (Hp3 & Hf3).
      injection Hloop as <- <-.
      split; [eauto using same_proc_trans|]. split; [|done].
      intros q Hq. destruct Hf3 as [->|(_ & ->)];
        rewrite ?lookup_delete_ne by done; by rewrite Hf2, Hf1.
    + destruct (Z.ltb_spec (Z.of_nat (length (take k (drop position data)))) 0)
        as [Hneg|_]; [lia|].
      rewrite Nat2Z.id in Hloop. rewrite Hi in Hf1.
      destruct (take_step data position k Hpos) as [Htake Hpos'].
      eapply IH in Hloop as (Hp' & Hframe & Hok); [|exact Hpos'| | |].
      * split; [eauto using same_proc_trans|]. split.
        { intros q Hq. rewrite Hframe by done.
          by rewrite Hf1, lookup_insert_ne. }
        intros ->. destruct (Hok eq_refl) as (Hi' & ws & Hh & Hws).
        split; [done|].
        exists (ws ++ [SysWrite temp (take k (drop position data))]).
        rewrite Hh, Hh1, <- app_assoc. split; [done|].
        apply Forall_app. split; [done|]. repeat constructor. by eexists.
      * rewrite Hf1. apply lookup_insert_eq.
      * done.
      * simpl. by rewrite Hdata.
  - injection Hloop as <- <-. split; [done|]. split; [done|]. intros _. split.
    + exists i. rewrite Hdata, take_ge by done. done.
    + exists []. by split.
Qed.

(** The write loop returns once the environment has no more to say. *)
Lemma write_loop_returns temp data fuel : forall position os,
  (length (fates os) < fuel)%nat ->
  exists r, write_loop fuel temp temp data position os = Some r.
Proof.
  induction fuel as [|fuel IH]; intros position os Hfuel; [lia|].
  simpl. destruct (Nat.ltb_spec position (length data)) as [Hlt|Hge]; [|eauto].
  destruct (write temp (drop position data) os) as [n os1] eqn:Ew.
  apply write_inv in Ew as (_ & Hw).
  destruct Hw as [(-> & _)|(k & -> & _ & _ & Hfa)].
  - simpl. destruct (close temp os1), (unlink temp _). eauto.
  - destruct (Z.ltb_spec (Z.of_nat (length (take k (drop position data)))) 0)
      as [Hneg|_]; [lia|].
    rewrite Nat2Z.id.
    destruct Hfa as [(_ & E1 & ->)|Hshort]; [|apply IH; lia].
    rewrite length_drop.
    replace (position + (length data - position))%nat with (length data) by lia.
    destruct fuel as [|fuel']; simpl; rewrite Nat.ltb_irrefl; eauto.
Qed.
End WriteToFileAtomic.

Section WriteToFileAtomicMain.
Context `{FilePathOps}.

Lemma directory_step_inv dir os dir_ok os1 :
  (let (there, os0) := DirectoryExists dir os in
   if negb there then CreateDirectory dir os0 else (true, os0)) = (dir_ok, os1) ->
  same_proc os os1 /\ history os1 = history os /\
  (length (fates os1) <= length (fates os))%nat /\
  (forall q, q <> dir -> files os1 !! q = files os !! q).
Proof.
  destruct (DirectoryExists dir os) as [there os0] eqn:Ed.
  apply DirectoryExists_inv in Ed as (Hf & Hh & Hp & Hl).
  destruct there; simpl.
  - intros [= <- <-]. rewrite Hf. done.
  - intros (Hp1 & Hh1 & Hl1 & Hf1)%CreateDirectory_inv.
    split; [by eapply same_proc_trans|]. split; [congruence|]. split; [lia|].
    intros q Hq. destruct Hf1 as [->|(d & _ & ->)];
      rewrite ?lookup_insert_ne by done; by rewrite Hf.
Qed.

(** Removing the temporary file leaves the destination alone. *)
Lemma unlink_temp_frame temp path os u os1 :
  unlink temp os = (u, os1) ->
  temp = "" \/ temp <> path ->
  files os1 !! path = files os !! path.
Proof.
  intros (_ & Hf)%unlink_inv Ht.
  destruct Hf as [->|(Hne & ->)]; [done|].
  destruct Ht as [->|Ht]; [done|]. by rewrite lookup_delete_ne.
Qed.

(** C8: when WriteToFileAtomic succeeds the destination is a regular file
    holding exactly the data, which was written in full to a temporary
    file, flushed, closed and renamed over the destination; when it fails,
    at whichever step, what is at the destination path is what was there
    before. *)
Theorem C8_WriteToFileAtomic
    (fuel : nat) (path : string) (data : list Byte.byte) (mode : Z) (os : Os) :
  DirName path <> path ->
  (forall ok os',
     WriteToFileAtomic fuel path data mode os = Some (ok, os') ->
     if ok then
       (exists i, files os' !! path = Some i /\ S_ISREG i = true /\
                  i_data i = data) /\
       (exists temp ws,
          temp <> path /\
          history os' =
            SysRename temp path :: SysClose temp :: SysSync temp ::
              ws ++ SysCreate temp :: history os /\
          Forall (writes_to temp) ws)
     else files os' !! path = files os !! path) /\
  ((length (fates os) < fuel)%nat ->
   exists ok os', WriteToFileAtomic fuel path data mode os = Some (ok, os')).
Proof.
  intros Hdir. unfold WriteToFileAtomic.
  destruct (let (there, os0) := DirectoryExists (DirName path) os in
            if negb there then CreateDirectory (DirName path) os0 else (true, os0))
    as [dir_ok os1] eqn:Ed.
  apply directory_step_inv in Ed as (Hp1 & Hh1 & Hl1 & Hf1).
  specialize (Hf1 path (not_eq_sym Hdir)).
  destruct dir_ok; simpl; [|split; [by intros ok os' [= <- <-]|eauto]].
  destruct (GetRandomSuffix os1) as [random_suffix os2] eqn:Eg.
  apply GetRandomSuffix_inv in Eg as (Hlen & Hf2 & Hh2 & Hp2 & Hfa2).
  assert (is_empty random_suffix = false) as Hne by by destruct random_suffix.
  rewrite Hne.
  pose proof (AddExtension_other path random_suffix Hne) as Htemp.
  set (temp_name := AddExtension path random_suffix) in *.
  destruct (open_creat_excl temp_name mode os2) as [fd os3] eqn:Eo.
  apply open_creat_excl_inv in Eo as (Hp3 & Hl3 & Hopen).
  destruct fd as [e|fd].
  { destruct Hopen as [Hf3 _].
    destruct (unlink temp_name os3) as [u os4] eqn:Eu.
    split; [|eauto]. intros ok os' [= <- <-].
    rewrite (unlink_temp_frame _ _ _ _ _ Eu Htemp). congruence. }
  destruct Hopen as (-> & Hnonempty & Hfree & Hf3 & Hh3).
  assert (temp_name <> path) as Hother by (by destruct Htemp).
  assert (files os3 !! path = files os !! path) as Hpath3.
  { rewrite Hf3, lookup_insert_ne by done. congruence. }
  assert (files os3 !! temp_name = Some (new_file mode os2)) as Hi3
    by (rewrite Hf3; apply lookup_insert_eq).
  split.
  - intros ok os'.
    destruct (write_loop fuel temp_name temp_name data 0 os3) as [[written os4]|]
      eqn:Ew; [|done].
    eapply write_loop_inv in Ew as (Hp4 & Hframe4 & Hok4);
      [|lia|exact Hi3|done|done].
    assert (files os4 !! path = files os !! path) as Hpath4
      by (rewrite Hframe4 by done; done).
    destruct written; [|by intros [= <- <-]].
    destruct (Hok4 eq_refl) as ((i & Hi & Hreg & Hdata) & ws & Hh4 & Hws).
    destruct (fdatasync temp_name os4) as [synced os5] eqn:Es.
    apply fdatasync_inv in Es as (Hf5 & Hp5 & Hs).
    destruct Hs as [->|(-> & Hh5)]; simpl.
    { destruct (close temp_name os5) as [c os6] eqn:Ec.
      apply close_inv in Ec as (Hf6 & _).
      destruct (unlink temp_name os6) as [u os7] eqn:Eu.
      intros [= <- <-].
      rewrite (unlink_temp_frame _ _ _ _ _ Eu Htemp). congruence. }
    destruct (close temp_name os5) as [closed os6] eqn:Ec.
    apply close_inv in Ec as (Hf6 & Hp6 & Hc).
    destruct Hc as [->|(-> & Hh6)]; simpl.
    { destruct (unlink temp_name os6) as [u os7] eqn:Eu.
      intros [= <- <-].
      rewrite (unlink_temp_frame _ _ _ _ _ Eu Htemp). congruence. }
    destruct (rename temp_name path os6) as [renamed os7] eqn:Er.
    apply rename_inv in Er as (Hp7 & Hr).
    destruct Hr as [(-> & Hf7)|(-> & j & Hj & Hf7 & Hh7)]; simpl.
    { destruct (unlink temp_name os7) as [u os8] eqn:Eu.
      intros [= <- <-].
      rewrite (unlink_temp_frame _ _ _ _ _ Eu Htemp). congruence. }
    intros [= <- <-]. split.
    + exists i. rewrite Hf7, lookup_insert_eq.
      rewrite Hf6, Hf5, Hi in Hj. injection Hj as <-. done.
    + exists temp_name, ws. split; [done|]. split; [|done].
      rewrite Hh7, Hh6, Hh5, Hh4, Hh3, Hh2, Hh1. done.
  - intros Hfuel.
    destruct (write_loop_returns temp_name data fuel 0 os3) as ([written os4] & ->).
    { rewrite Hfa2 in Hl3. lia. }
    destruct written; [|eauto].
    destruct (fdatasync temp_name os4) as [synced os5].
    destruct (synced <? 0).
    { destruct (close temp_name os5), (unlink temp_name _). eauto. }
    destruct (close temp_name os5) as [closed os6].
    destruct (closed <? 0); [destruct (unlink temp_name _); eauto|].
    destruct (rename temp_name path os6) as [renamed os7].
    destruct (renamed <? 0); [destruct (unlink temp_name _); eauto|eauto].
Qed.
End WriteToFileAtomicMain.

(** *** The theorems at sample file systems *)

(** C8 at a sample input: three bytes written to "/tmp/f". *)
Lemma C8_witness :
  plain_DirName "/tmp/f" <> "/tmp/f" /\
  exists os',
    @WriteToFileAtomic plain_paths 1 "/tmp/f" [Byte.x01; Byte.x02; Byte.x03] 420 os_tmp
    = Some (true, os') /\
    exists i, files os' !! "/tmp/f" = Some i /\ S_ISREG i = true /\
              i_data i = [Byte.x01; Byte.x02; Byte.x03].
Proof.
  assert (plain_DirName "/tmp/f" <> "/tmp/f") as Hdir by (vm_compute; discriminate).
  split; [exact Hdir|].
  destruct (@C8_WriteToFileAtomic plain_paths 1 "/tmp/f"
              [Byte.x01; Byte.x02; Byte.x03] 420 os_tmp Hdir) as (Hsafe & Hret).
  destruct (Hret ltac:(simpl; lia)) as (ok & os' & Hrun).
  assert (ok = true) as ->.
  { assert (forall r, @WriteToFileAtomic plain_paths 1 "/tmp/f"
                        [Byte.x01; Byte.x02; Byte.x03] 420 os_tmp = Some r ->
                      r.1 = true) as Hok.
    { intros r. vm_compute. intros [= <-]. reflexivity. }
    apply (Hok _ Hrun). }
  exists os'. split; [exact Hrun|].
  apply (Hsafe true os' Hrun).
Defined.

(** The directories above "/tmp/f". *)
Lemma above_tmp_f q :
  @ancestor_of plain_paths "/tmp/f" q -> q = "/tmp" \/ q = "/".
Proof.
  intros [n <-]. induction n as [|n IH]; [by left|].
  change (Nat.iter (S (S n)) DirName "/tmp/f")
    with (plain_DirName (Nat.iter (S n) (@DirName plain_paths) "/tmp/f")).
  destruct IH as [-> | ->]; by right.
Qed.





End FileUtilsSpec.

(** * Properties of the message loop *)

Module MessageLoopSpec.
Import MessageLoop.

Lemma bind_Ret_inv {A B : Type} (m : Res A) (k : A -> Res B) (b : B) :
  bind m k = Ret b -> exists a, m = Ret a /\ k a = Ret b.
Proof. destruct m as [a|f]; simpl; [eauto | discriminate]. Qed.

Lemma TaskId_modulus_pos : 1 < TaskId_modulus.
Proof. reflexivity. Qed.

#[local] Opaque TaskId_modulus.

Lemma contains_false {V : Type} (k : Z) (m : gmap Z V) :
  contains k m = false <-> m !! k = None.
Proof. unfold contains. destruct (m !! k); split; congruence. Qed.

Lemma contains_true {V : Type} (k : Z) (m : gmap Z V) :
  contains k m = true <-> is_Some (m !! k).
Proof.
  unfold contains. destruct (m !! k); split; try congruence; eauto.
  intros [x Hx]. discriminate.
Qed.

Lemma emplace_fresh {V : Type} (k : Z) (v : V) (m : gmap Z V) :
  m !! k = None -> emplace k v m = <[k := v]> m.
Proof. intros H. unfold emplace. by rewrite H. Qed.

(** *** NextTaskId *)

Section NextTaskId.
Variables (delayed : gmap Z DelayedTask) (io : gmap Z IOTask).
Local Abbreviation taken := (MessageLoop.taken delayed io) (only parsing).

Lemma skip_test (r : Z) :
  (r =? 0) || contains r delayed || contains r io = true <-> taken r.
Proof.
  unfold MessageLoop.taken. rewrite !orb_true_iff, Z.eqb_eq, !contains_true. tauto.
Qed.

Lemma NextTaskId_loop_sound fuel last res :
  NextTaskId_loop fuel last delayed io = Ret res ->
  0 < res < TaskId_modulus /\ delayed !! res = None /\ io !! res = None.
Proof.
  revert last. induction fuel as [|fuel IH]; intros last; simpl; [discriminate|].
  destruct ((_ =? 0) || _ || _) eqn:E; [apply IH|].
  intros [= <-].
  apply orb_false_iff in E as [E Hio]. apply orb_false_iff in E as [Hz Hd].
  apply Z.eqb_neq in Hz. apply contains_false in Hd, Hio.
  pose proof TaskId_modulus_pos.
  pose proof (Z.mod_pos_bound (last + 1) TaskId_modulus ltac:(lia)).
  split; [lia | done].
Qed.

Lemma NextTaskId_loop_more_fuel fuel extra last res :
  NextTaskId_loop fuel last delayed io = Ret res ->
  NextTaskId_loop (fuel + extra) last delayed io = Ret res.
Proof.
  revert last. induction fuel as [|fuel IH]; intros last; simpl; [discriminate|].
  destruct ((_ =? 0) || _ || _); [apply IH | done].
Qed.

Lemma NextTaskId_loop_fault fuel last f :
  NextTaskId_loop fuel last delayed io = Stuck f -> f = NoFreeTaskId.
Proof.
  revert last. induction fuel as [|fuel IH]; intros last; simpl; [congruence|].
  destruct ((_ =? 0) || _ || _); [apply IH | discriminate].
Qed.

(** When the loop gives up, every candidate it looked at was taken. *)
Lemma NextTaskId_loop_stuck fuel last f :
  NextTaskId_loop fuel last delayed io = Stuck f ->
  forall i, 1 <= i <= Z.of_nat fuel -> taken ((last + i) mod TaskId_modulus).
Proof.
  revert last. induction fuel as [|fuel IH]; intros last; simpl; [lia|].
  destruct ((_ =? 0) || _ || _) eqn:E; [|discriminate].
  intros Hs i Hi. apply skip_test in E.
  destruct (decide (i = 1)) as [->|Hne]; [done|].
  specialize (IH _ Hs (i - 1) ltac:(lia)).
  rewrite Zplus_mod_idemp_l in IH.
  by replace (last + 1 + (i - 1)) with (last + i) in IH by lia.
Qed.

(** Consecutive candidates are pairwise different as long as there are
    no more of them than ids. *)
Lemma candidates_inj last i j :
  1 <= i <= TaskId_modulus -> 1 <= j <= TaskId_modulus ->
  (last + i) mod TaskId_modulus = (last + j) mod TaskId_modulus -> i = j.
Proof.
  intros Hi Hj E. pose proof TaskId_modulus_pos as HM.
  pose proof (Z.div_mod (last + i) TaskId_modulus ltac:(lia)) as E1.
  pose proof (Z.div_mod (last + j) TaskId_modulus ltac:(lia)) as E2.
  rewrite E in E1.
  assert ((last + i) `div` TaskId_modulus - (last + j) `div` TaskId_modulus = 0)
    by nia.
  nia.
Qed.

Lemma taken_count fuel last :
  Z.of_nat fuel <= TaskId_modulus ->
  (forall i, 1 <= i <= Z.of_nat fuel -> taken ((last + i) mod TaskId_modulus)) ->
  (fuel <= 1 + size delayed + size io)%nat.
Proof.
  intros Hle Hall.
  set (l := (fun i => (last + i) mod TaskId_modulus) <$> seqZ 1 (Z.of_nat fuel)).
  assert (NoDup l) as Hnd.
  { apply NoDup_fmap_2_strong; [|apply NoDup_seqZ].
    intros x y Hx%elem_of_seqZ Hy%elem_of_seqZ. apply candidates_inj; lia. }
  assert (list_to_set l ⊆ ({[0]} ∪ dom delayed ∪ dom io : gset Z)) as Hsub.
  { intros r Hr%elem_of_list_to_set. apply list_elem_of_fmap in Hr as (i & -> & Hi).
    apply elem_of_seqZ in Hi. rewrite !elem_of_union, elem_of_singleton.
    destruct (Hall i ltac:(lia)) as [H0|[Hd|Hio]].
    - by left; left.
    - left; right. by apply elem_of_dom.
    - right. by apply elem_of_dom. }
  apply subseteq_size in Hsub.
  rewrite size_list_to_set in Hsub by done.
  unfold l in Hsub. rewrite length_fmap, length_seqZ in Hsub.
  pose proof (size_union_alt ({[0]} ∪ dom delayed) (dom io : gset Z)) as U1.
  pose proof (size_union_alt ({[0]} : gset Z) (dom delayed)) as U2.
  pose proof (subseteq_size (dom io ∖ ({[0]} ∪ dom delayed)) (dom io : gset Z)
                (subseteq_difference_l _ _ _ (reflexivity _))) as S1.
  pose proof (subseteq_size (dom delayed ∖ {[0]}) (dom delayed : gset Z)
                (subseteq_difference_l _ _ _ (reflexivity _))) as S2.
  rewrite size_singleton in U2. rewrite !size_dom in *. lia.
Qed.

(** Enough iterations: with room for one more record the loop answers
    within [size + 2] of them. *)
Lemma NextTaskId_loop_fuel last :
  Z.of_nat (size delayed + size io + 2) <= TaskId_modulus ->
  exists res,
    NextTaskId_loop (size delayed + size io + 2) last delayed io = Ret res.
Proof.
  intros Hcap.
  destruct (NextTaskId_loop _ last delayed io) as [res|f] eqn:E; [eauto|].
  pose proof (taken_count _ last Hcap (NextTaskId_loop_stuck _ _ _ E)). lia.
Qed.

(** With every id taken no number of iterations helps: the source loop
    spins for ever. *)
Lemma NextTaskId_loop_full fuel last :
  (forall r, 0 < r < TaskId_modulus -> taken r) ->
  NextTaskId_loop fuel last delayed io = Stuck NoFreeTaskId.
Proof.
  intros Hfull. revert last.
  induction fuel as [|fuel IH]; intros last; simpl; [done|].
  destruct ((_ =? 0) || _ || _) eqn:E; [apply IH|].
  exfalso. apply not_true_iff_false in E. apply E, skip_test.
  pose proof TaskId_modulus_pos.
  pose proof (Z.mod_pos_bound (last + 1) TaskId_modulus ltac:(lia)).
  destruct (decide ((last + 1) mod TaskId_modulus = 0)) as [Hz|Hz];
    [by left | apply Hfull; lia].
Qed.
End NextTaskId.

(** *** What each member function does to the fields *)

Lemma NextTaskId_spec s id s1 :
  NextTaskId s = Ret (id, s1) -> fresh_in s id /\ s1 = set_last_id id s.
Proof.
  unfold NextTaskId. intros H. apply bind_Ret_inv in H as (res & Hl & [= <- <-]).
  split; [|done]. by apply NextTaskId_loop_sound in Hl.
Qed.

Lemma NextTaskId_returns s :
  has_room s -> exists id, NextTaskId s = Ret (id, set_last_id id s).
Proof.
  intros Hroom. unfold NextTaskId.
  destruct (NextTaskId_loop_fuel (delayed_tasks_ s) (io_tasks_ s) (last_id_ s) Hroom)
    as [res Hres].
  exists res. unfold NextTaskId_fuel. by rewrite Hres.
Qed.

Lemma PostDelayedTask_spec task delay s id s1 :
  PostDelayedTask task delay s = Ret (id, s1) ->
  exists fresh,
    fresh_in s fresh /\
    if accepts_tasks (base_loop_ s)
    then id = fresh /\
         s1 = set_delayed_tasks
                (<[fresh := mkDelayedTask fresh task]> (delayed_tasks_ s))
                (set_last_id fresh s)
    else id = kTaskIdNull /\ s1 = set_last_id fresh s.
Proof.
  unfold PostDelayedTask. intros H.
  apply bind_Ret_inv in H as ([fresh s0] & Hn & H).
  apply NextTaskId_spec in Hn as [Hf ->]. exists fresh. split; [done|].
  simpl in H. destruct (accepts_tasks (base_loop_ s)); simpl in H.
  - injection H as <- <-. split; [done|].
    rewrite emplace_fresh by apply Hf. done.
  - by injection H as <- <-.
Qed.

Lemma WatchFileDescriptor_spec fd mode persistent task s id s1 :
  WatchFileDescriptor fd mode persistent task s = Ret (id, s1) ->
  (id = kTaskIdNull /\ s1 = s /\ (fd < 0 \/ base_mode_of mode = None)) \/
  exists fresh base_mode,
    0 <= fd /\ base_mode_of mode = Some base_mode /\ fresh_in s fresh /\
    if can_watch (base_loop_ s) fd
    then id = fresh /\
         s1 = set_io_tasks
                (<[fresh := mkIOTask fresh persistent task (fd, base_mode)]>
                   (io_tasks_ s))
                (set_last_id fresh s)
    else id = kTaskIdNull /\ s1 = set_last_id fresh s.
Proof.
  unfold WatchFileDescriptor. destruct (Z.ltb_spec fd 0) as [Hfd|Hfd].
  { intros [= <- <-]. left. auto. }
  destruct (base_mode_of mode) as [base_mode|] eqn:Hm.
  2:{ intros [= <- <-]. left. auto. }
  intros H. right. apply bind_Ret_inv in H as ([fresh s0] & Hn & H).
  apply NextTaskId_spec in Hn as [Hf ->]. exists fresh, base_mode.
  destruct Hf as (Hr & Hd & Hio).
  split; [done|]. split; [done|]. split; [done|].
  simpl in H. rewrite emplace_fresh in H by done.
  destruct (can_watch (base_loop_ s) fd); simpl in H; injection H as <- <-;
    (split; [done|]); [done|].
  unfold set_io_tasks, set_last_id. simpl.
  rewrite delete_insert_eq, delete_id by done. done.
Qed.

Lemma CancelTask_spec task_id s :
  CancelTask task_id s =
    if decide (task_id = kTaskIdNull) then (false, s)
    else
      match delayed_tasks_ s !! task_id, io_tasks_ s !! task_id with
      | Some (mkDelayedTask i (Some _)), _ =>
          (true,
           set_delayed_tasks
             (<[task_id := mkDelayedTask i None]> (delayed_tasks_ s)) s)
      | Some (mkDelayedTask _ None), _ => (false, s)
      | None, Some _ => (true, set_io_tasks (delete task_id (io_tasks_ s)) s)
      | None, None => (false, s)
      end.
Proof.
  unfold CancelTask. destruct (Z.eqb_spec task_id kTaskIdNull);
    case_decide; try done.
  destruct (delayed_tasks_ s !! task_id) as [[i [c|]]|]; done.
Qed.

Lemma CancelTask_frame task_id s :
  last_id_ (CancelTask task_id s).2 = last_id_ s /\
  run_once_ (CancelTask task_id s).2 = run_once_ s /\
  base_loop_ (CancelTask task_id s).2 = base_loop_ s.
Proof.
  rewrite CancelTask_spec. case_decide; [done|].
  destruct (delayed_tasks_ s !! task_id) as [[i [c|]]|]; try done.
  destruct (io_tasks_ s !! task_id); done.
Qed.

(** *** Well-formed loop states *)

Lemma wf_new_loop base : wf (new_loop base).
Proof.
  pose proof TaskId_modulus_pos.
  split; simpl; intros; rewrite ?lookup_empty in *; try done; auto; lia.
Qed.

Lemma wf_no_null_key s :
  wf s -> delayed_tasks_ s !! kTaskIdNull = None /\ io_tasks_ s !! kTaskIdNull = None.
Proof.
  intros [Hd Hio _ _]. split.
  - destruct (delayed_tasks_ s !! kTaskIdNull) eqn:E; [|done].
    apply Hd in E. unfold kTaskIdNull in E. lia.
  - destruct (io_tasks_ s !! kTaskIdNull) eqn:E; [|done].
    apply Hio in E. unfold kTaskIdNull in E. lia.
Qed.

Lemma wf_CancelTask task_id s : wf s -> wf (CancelTask task_id s).2.
Proof.
  intros [Hd Hio Hu Hl]. rewrite CancelTask_spec. case_decide; [done|].
  destruct (delayed_tasks_ s !! task_id) as [[i [c|]]|] eqn:E.
  - split; simpl; try done.
    + intros k task [[<- <-]|[Hne Hk]]%lookup_insert_Some; [|by apply Hd].
      apply Hd in E. done.
    + intros k. destruct (decide (task_id = k)) as [<-|Hne].
      * right. destruct (Hu task_id) as [Hx|Hx]; [congruence|done].
      * rewrite lookup_insert_ne by done. apply Hu.
  - done.
  - destruct (io_tasks_ s !! task_id) eqn:E2; [|done].
    split; simpl; try done.
    + intros k task [Hne Hk]%lookup_delete_Some. by apply Hio.
    + intros k. destruct (Hu k) as [Hx|Hx]; [by left|right].
      apply lookup_delete_None. auto.
Qed.

Lemma wf_set_last_id s id :
  wf s -> 0 <= id < TaskId_modulus -> wf (set_last_id id s).
Proof. intros [Hd Hio Hu Hl] Hid. by split. Qed.

Lemma wf_PostDelayedTask task delay s id s1 :
  wf s -> PostDelayedTask task delay s = Ret (id, s1) -> wf s1.
Proof.
  intros Hwf H. apply PostDelayedTask_spec in H as (fresh & (Hr & Hfd & Hfio) & H).
  destruct (accepts_tasks _); destruct H as [-> ->];
    [|apply wf_set_last_id; [done|lia]].
  destruct Hwf as [Hd Hio Hu Hl]. split; simpl; try done; [| |lia].
  - intros k t [[<- <-]|[Hne Hk]]%lookup_insert_Some; [done|by apply Hd].
  - intros k. destruct (decide (fresh = k)) as [<-|Hne]; [by right|].
    rewrite lookup_insert_ne by done. apply Hu.
Qed.

Lemma wf_WatchFileDescriptor fd mode persistent task s id s1 :
  wf s -> WatchFileDescriptor fd mode persistent task s = Ret (id, s1) -> wf s1.
Proof.
  intros Hwf H. apply WatchFileDescriptor_spec in H
    as [(_ & -> & _)|(fresh & bm & _ & _ & (Hr & Hfd & Hfio) & H)]; [done|].
  destruct (can_watch _ _); destruct H as [-> ->];
    [|apply wf_set_last_id; [done|lia]].
  destruct Hwf as [Hd Hio Hu Hl]. split; simpl; try done; [| |lia].
  - intros k t [[<- <-]|[Hne Hk]]%lookup_insert_Some; [done|by apply Hio].
  - intros k. destruct (decide (fresh = k)) as [<-|Hne]; [by left|].
    rewrite lookup_insert_ne by done. apply Hu.
Qed.

Lemma wf_QuitNow s : wf s -> wf (QuitNow s).
Proof. intros [Hd Hio Hu Hl]. by split. Qed.

Lemma wf_set_run_once b s : wf s -> wf (set_run_once b s).
Proof. intros [Hd Hio Hu Hl]. by split. Qed.

Lemma wf_stop_if_run_once s : wf s -> wf (stop_if_run_once s).
Proof.
  intros H. unfold stop_if_run_once. destruct (run_once_ s); [|done].
  by apply wf_QuitNow, wf_set_run_once.
Qed.

(** *** Reasoning about a running callback *)

Lemma upto_never stop t : never stop t -> upto stop t = t.
Proof.
  unfold never. induction t as [|e t IH]; simpl; [done|].
  intros [He Ht]%andb_true_iff. destruct (stop e); [done|]. by rewrite IH.
Qed.

Lemma never_In stop t :
  never stop t <-> forall e, In e t -> stop e = false.
Proof.
  unfold never. rewrite forallb_forall. split; intros H e He.
  - specialize (H e He). by destruct (stop e).
  - by rewrite H.
Qed.

(** A property [P] of the loop that every call of a callback keeps until a
    [stop] event happens, and a property [Q] of the events produced while
    [P] holds. *)
Section Until.
Variables (P : BaseMessageLoop -> Prop) (Q : Event -> Prop)
          (stop : Event -> bool).
Hypothesis step_cancel : forall task_id s, P s ->
  Q (EvCancel task_id (CancelTask task_id s).1) /\
  (stop (EvCancel task_id (CancelTask task_id s).1) = false ->
   P (CancelTask task_id s).2).
Hypothesis step_post : forall task delay s tid s1, P s ->
  PostDelayedTask task delay s = Ret (tid, s1) ->
  Q (EvPost tid) /\ (stop (EvPost tid) = false -> P s1).
Hypothesis step_watch : forall fd mode persistent task s tid s1, P s ->
  WatchFileDescriptor fd mode persistent task s = Ret (tid, s1) ->
  Q (EvWatch tid) /\ (stop (EvWatch tid) = false -> P s1).
Hypothesis step_break : forall s, P s ->
  Q EvBreak /\ (stop EvBreak = false -> P (BreakLoop s)).

Lemma until_cons e t s' :
  Q e ->
  (stop e = false -> Forall Q (upto stop t) /\ (never stop t -> P s')) ->
  Forall Q (upto stop (e :: t)) /\ (never stop (e :: t) -> P s').
Proof.
  intros He Hrest. unfold never. simpl. destruct (stop e) eqn:Es; simpl.
  - split; [by repeat constructor | discriminate].
  - destruct (Hrest eq_refl) as [H1 H2]. split; [by constructor | done].
Qed.

Lemma run_closure_until c : forall s s' t,
  P s -> run_closure c s = Ret (s', t) ->
  Forall Q (upto stop t) /\ (never stop t -> P s').
Proof.
  induction c as [|task_id k IH|task delay k IH|fd mode pers task k IH|k IH];
    intros s s' t HP Hrun; simpl in Hrun.
  - injection Hrun as <- <-. by split; [constructor|].
  - pose proof (step_cancel task_id s HP) as [HQ Hnext].
    destruct (CancelTask task_id s) as [result s1]. simpl in *.
    apply bind_Ret_inv in Hrun as ([s2 t2] & Hk & [= <- <-]).
    apply until_cons; [done|]. intros Hs. eapply IH; [|exact Hk]. auto.
  - apply bind_Ret_inv in Hrun as ([tid s1] & Hp & Hrun).
    apply bind_Ret_inv in Hrun as ([s2 t2] & Hk & [= <- <-]).
    destruct (step_post _ _ _ _ _ HP Hp) as [HQ Hnext].
    apply until_cons; [done|]. intros Hs. eapply IH; [|exact Hk]. auto.
  - apply bind_Ret_inv in Hrun as ([tid s1] & Hp & Hrun).
    apply bind_Ret_inv in Hrun as ([s2 t2] & Hk & [= <- <-]).
    destruct (step_watch _ _ _ _ _ _ _ HP Hp) as [HQ Hnext].
    apply until_cons; [done|]. intros Hs. eapply IH; [|exact Hk]. auto.
  - apply bind_Ret_inv in Hrun as ([s2 t2] & Hk & [= <- <-]).
    destruct (step_break s HP) as [HQ Hnext].
    apply until_cons; [done|]. intros Hs. eapply IH; [|exact Hk]. auto.
Qed.
End Until.

(** The same without a [stop] event: an invariant. *)
Lemma run_closure_invariant (P : BaseMessageLoop -> Prop) (Q : Event -> Prop) :
  (forall task_id s, P s ->
     Q (EvCancel task_id (CancelTask task_id s).1) /\ P (CancelTask task_id s).2) ->
  (forall task delay s tid s1, P s ->
     PostDelayedTask task delay s = Ret (tid, s1) -> Q (EvPost tid) /\ P s1) ->
  (forall fd mode persistent task s tid s1, P s ->
     WatchFileDescriptor fd mode persistent task s = Ret (tid, s1) ->
     Q (EvWatch tid) /\ P s1) ->
  (forall s, P s -> Q EvBreak /\ P (BreakLoop s)) ->
  forall c s s' t, P s -> run_closure c s = Ret (s', t) -> Forall Q t /\ P s'.
Proof.
  intros Hc Hp Hw Hb c s s' t HP Hrun.
  assert (never (fun _ => false) t) as Hn by (apply never_In; done).
  destruct (run_closure_until P Q (fun _ => false)) with (c := c) (s := s)
    (s' := s') (t := t) as [H1 H2]; try done.
  - intros. destruct (Hc task_id s0); auto.
  - intros. edestruct Hp; eauto.
  - intros. edestruct Hw; eauto.
  - intros. destruct (Hb s0); auto.
  - rewrite upto_never in H1 by done. auto.
Qed.

Lemma wf_run_closure c s s' t :
  wf s -> run_closure c s = Ret (s', t) -> wf s'.
Proof.
  intros Hwf Hrun.
  eapply (run_closure_invariant wf (fun _ => True)); eauto.
  - intros. split; [done|]. by apply wf_CancelTask.
  - intros. split; [done|]. by eapply wf_PostDelayedTask.
  - intros. split; [done|]. by eapply wf_WatchFileDescriptor.
  - intros. split; [done|]. by apply wf_QuitNow.
Qed.

(** A callback does not touch the run-once flag and starts no other
    callback. *)
Lemma run_closure_run_once c s s' t :
  run_closure c s = Ret (s', t) ->
  run_once_ s' = run_once_ s /\ Forall (fun e => is_run e = false) t.
Proof.
  intros Hrun.
  destruct (run_closure_invariant (fun x => run_once_ x = run_once_ s)
              (fun e => is_run e = false)) with (c := c) (s := s) (s' := s') (t := t);
    try done.
  - intros task_id s0 H. split; [done|].
    destruct (CancelTask_frame task_id s0) as (_ & -> & _). done.
  - intros task delay s0 tid s1 H Hp. split; [done|].
    apply PostDelayedTask_spec in Hp as (fresh & _ & Hp).
    destruct (accepts_tasks _); destruct Hp as [_ ->]; done.
  - intros fd mode pers task s0 tid s1 H Hp. split; [done|].
    apply WatchFileDescriptor_spec in Hp
      as [(_ & -> & _)|(fresh & bm & _ & _ & _ & Hp)]; [done|].
    destruct (can_watch _ _); destruct Hp as [_ ->]; done.
Qed.

(** *** Callbacks that return *)

Lemma CancelTask_fuel task_id s :
  (NextTaskId_fuel (CancelTask task_id s).2 <= NextTaskId_fuel s)%nat.
Proof.
  rewrite CancelTask_spec. case_decide; [done|]. unfold NextTaskId_fuel.
  destruct (delayed_tasks_ s !! task_id) as [[i [c|]]|] eqn:E; simpl; try done.
  - rewrite map_size_insert_Some by eauto. done.
  - destruct (io_tasks_ s !! task_id) eqn:E2; simpl; [|done].
    rewrite map_size_delete_Some by eauto. lia.
Qed.

Lemma PostDelayedTask_returns task delay s :
  has_room s ->
  exists tid s1, PostDelayedTask task delay s = Ret (tid, s1) /\
    (NextTaskId_fuel s1 <= S (NextTaskId_fuel s))%nat.
Proof.
  intros Hroom. destruct (NextTaskId_returns s Hroom) as [fresh Hn].
  pose proof Hn as [(_ & Hd & _) _]%NextTaskId_spec.
  unfold PostDelayedTask. rewrite Hn. simpl.
  destruct (accepts_tasks (base_loop_ s)); simpl; eexists _, _; (split; [done|]).
  - unfold NextTaskId_fuel. simpl. rewrite emplace_fresh by done.
    rewrite map_size_insert_None by done. lia.
  - unfold NextTaskId_fuel. simpl. lia.
Qed.

Lemma WatchFileDescriptor_returns fd mode persistent task s :
  has_room s ->
  exists tid s1, WatchFileDescriptor fd mode persistent task s = Ret (tid, s1) /\
    (NextTaskId_fuel s1 <= S (NextTaskId_fuel s))%nat.
Proof.
  intros Hroom. destruct (NextTaskId_returns s Hroom) as [fresh Hn].
  pose proof Hn as [(_ & _ & Hio) _]%NextTaskId_spec.
  unfold WatchFileDescriptor. destruct (fd <? 0); [eexists _, _; split; [done|lia]|].
  destruct mode; try (eexists _, _; split; [done|lia]).
  all: rewrite Hn; simpl; rewrite emplace_fresh by done.
  all: destruct (can_watch (base_loop_ s) fd); simpl; eexists _, _; (split; [done|]).
  all: unfold NextTaskId_fuel; simpl.
  all: rewrite ?delete_insert_eq, ?delete_id by done.
  all: rewrite ?map_size_insert_None by done; lia.
Qed.

Lemma run_closure_returns n c :
  allocs_at_most n c ->
  forall s, Z.of_nat (NextTaskId_fuel s + n) <= TaskId_modulus ->
  exists s' t, run_closure c s = Ret (s', t).
Proof.
  induction 1 as [n|n task_id k Hk IH|n task delay k Hk IH
                 |n fd mode pers task k Hk IH|n k Hk IH]; intros s Hcap; simpl.
  - eauto.
  - pose proof (CancelTask_fuel task_id s) as Hf.
    destruct (CancelTask task_id s) as [result s1]. simpl in Hf.
    destruct (IH result s1) as (s' & t & ->); [lia|]. simpl. eauto.
  - destruct (PostDelayedTask_returns task delay s) as (tid & s1 & -> & Hf);
      [unfold has_room; lia|]. simpl.
    destruct (IH tid s1) as (s' & t & ->); [lia|]. simpl. eauto.
  - destruct (WatchFileDescriptor_returns fd mode pers task s) as (tid & s1 & -> & Hf);
      [unfold has_room; lia|]. simpl.
    destruct (IH tid s1) as (s' & t & ->); [lia|]. simpl. eauto.
  - destruct (IH (BreakLoop s)) as (s' & t & ->); [done|]. simpl. eauto.
Qed.

(** *** Delayed tasks: cancelling and firing *)

(** A record whose callback was cleared stays in the store, cleared, whatever
    a callback does, and no cancel of its id succeeds meanwhile. *)
Lemma cleared_record_stays task_id i c s s' t :
  delayed_tasks_ s !! task_id = Some (mkDelayedTask i None) ->
  run_closure c s = Ret (s', t) ->
  Forall (fun e => e <> EvCancel task_id true) t /\
  delayed_tasks_ s' !! task_id = Some (mkDelayedTask i None).
Proof.
  intros Hrec Hrun.
  eapply (run_closure_invariant
            (fun x => delayed_tasks_ x !! task_id = Some (mkDelayedTask i None)));
    [| | | |exact Hrec|exact Hrun].
  - intros tid s0 H0. rewrite CancelTask_spec. case_decide; [by subst|].
    destruct (decide (tid = task_id)) as [->|Hne]; [by rewrite H0|].
    split; [congruence|].
    destruct (delayed_tasks_ s0 !! tid) as [[j [c0|]]|]; simpl; try done.
    + by rewrite lookup_insert_ne.
    + by destruct (io_tasks_ s0 !! tid).
  - intros task delay s0 tid s1 H0 Hp. split; [done|].
    apply PostDelayedTask_spec in Hp as (fresh & (_ & Hd & _) & Hp).
    destruct (accepts_tasks _); destruct Hp as [_ ->]; simpl; [|done].
    rewrite lookup_insert_ne; [done|congruence].
  - intros fd mode pers task s0 tid s1 H0 Hp. split; [done|].
    apply WatchFileDescriptor_spec in Hp
      as [(_ & -> & _)|(fresh & bm & _ & _ & _ & Hp)]; [done|].
    destruct (can_watch _ _); destruct Hp as [_ ->]; done.
  - intros s0 H0. done.
Qed.

Lemma set_delayed_tasks_twice m1 m2 s :
  set_delayed_tasks m1 (set_delayed_tasks m2 s) = set_delayed_tasks m1 s.
Proof. done. Qed.

Lemma OnRanPostedTask_null task_id i s :
  delayed_tasks_ s !! task_id = Some (mkDelayedTask i None) ->
  OnRanPostedTask task_id s =
    Ret (set_delayed_tasks (delete task_id (delayed_tasks_ s)) s, []).
Proof. intros H. unfold OnRanPostedTask. by rewrite H. Qed.

Lemma OnRanPostedTask_bound task_id i c s :
  delayed_tasks_ s !! task_id = Some (mkDelayedTask i (Some c)) ->
  OnRanPostedTask task_id s =
    do (s2, t) <-
      run_closure c
        (set_delayed_tasks
           (<[task_id := mkDelayedTask i None]> (delayed_tasks_ s)) s);
    Ret (set_delayed_tasks
           (delete task_id (delayed_tasks_ (stop_if_run_once s2)))
           (stop_if_run_once s2),
         EvRun task_id :: t).
Proof.
  intros H. unfold OnRanPostedTask. rewrite H. simpl.
  destruct (run_closure c _) as [[s2 t]|f]; done.
Qed.

Lemma OnRanPostedTask_erases task_id s s' t :
  OnRanPostedTask task_id s = Ret (s', t) ->
  delayed_tasks_ s' !! task_id = None.
Proof.
  unfold OnRanPostedTask. destruct (delayed_tasks_ s !! task_id); [|done].
  intros H. apply bind_Ret_inv in H as ([s3 t3] & _ & [= <- <-]).
  simpl. apply lookup_delete_eq.
Qed.

Lemma fuel_set_null task_id task i s :
  delayed_tasks_ s !! task_id = Some task ->
  NextTaskId_fuel
    (set_delayed_tasks (<[task_id := mkDelayedTask i None]> (delayed_tasks_ s)) s)
  = NextTaskId_fuel s.
Proof.
  intros H. unfold NextTaskId_fuel. simpl.
  rewrite map_size_insert_Some by eauto. done.
Qed.

Lemma wf_OnRanPostedTask task_id s s' t :
  wf s -> OnRanPostedTask task_id s = Ret (s', t) -> wf s'.
Proof.
  intros Hwf Hfire.
  assert (forall x, wf x -> wf (set_delayed_tasks (delete task_id (delayed_tasks_ x)) x))
    as Hdel.
  { intros x [Hd Hio Hu Hl]. split; simpl; try done.
    - intros k task [Hne Hk]%lookup_delete_Some. by apply Hd.
    - intros k. destruct (Hu k) as [Hx|Hx]; [left|by right].
      apply lookup_delete_None. auto. }
  destruct (delayed_tasks_ s !! task_id) as [[i [c|]]|] eqn:E.
  - rewrite (OnRanPostedTask_bound _ _ _ _ E) in Hfire.
    apply bind_Ret_inv in Hfire as ([s2 t2] & Hrun & [= <- <-]).
    apply Hdel, wf_stop_if_run_once. eapply wf_run_closure; [|exact Hrun].
    destruct Hwf as [Hd Hio Hu Hl]. split; simpl; try done.
    + intros k task [[<- <-]|[Hne Hk]]%lookup_insert_Some; [|by apply Hd].
      apply Hd in E. done.
    + intros k. destruct (decide (task_id = k)) as [<-|Hne].
      * right. destruct (Hu task_id) as [Hx|Hx]; [congruence|done].
      * rewrite lookup_insert_ne by done. apply Hu.
  - rewrite (OnRanPostedTask_null _ _ _ E) in Hfire. injection Hfire as <- <-.
    by apply Hdel.
  - unfold OnRanPostedTask in Hfire. by rewrite E in Hfire.
Qed.

(** *** Descriptor watches: firing and cancelling *)

Lemma CancelTask_absent task_id s :
  absent task_id s -> CancelTask task_id s = (false, s).
Proof.
  intros [Hd Hio]. rewrite CancelTask_spec, Hd, Hio. by case_decide.
Qed.

(** While no record is bound to [task_id], cancelling it fails, and it stays
    unbound until a registration is handed that very id. *)
Lemma absent_until_registered task_id c s s' t :
  absent task_id s ->
  run_closure c s = Ret (s', t) ->
  Forall (fun e => e <> EvCancel task_id true) (upto (registers task_id) t) /\
  (never (registers task_id) t -> absent task_id s').
Proof.
  intros Habs Hrun.
  eapply (run_closure_until (absent task_id)); [| | | |exact Habs|exact Hrun].
  - intros tid s0 H0. destruct (decide (tid = task_id)) as [->|Hne].
    { by rewrite CancelTask_absent. }
    split; [congruence|]. intros _. destruct H0 as [Hd Hio].
    rewrite CancelTask_spec. case_decide; [done|].
    destruct (delayed_tasks_ s0 !! tid) as [[j [c0|]]|]; simpl; try done.
    + split; simpl; [by rewrite lookup_insert_ne | done].
    + destruct (io_tasks_ s0 !! tid); [|done].
      split; simpl; [done|]. apply lookup_delete_None. auto.
  - intros task delay s0 tid s1 [Hd Hio] Hp. split; [done|]. simpl.
    intros Hne%Z.eqb_neq.
    apply PostDelayedTask_spec in Hp as (fresh & _ & Hp).
    destruct (accepts_tasks _); destruct Hp as [-> ->]; [|done].
    split; simpl; [|done]. by rewrite lookup_insert_ne.
  - intros fd mode pers task s0 tid s1 [Hd Hio] Hp. split; [done|]. simpl.
    intros Hne%Z.eqb_neq.
    apply WatchFileDescriptor_spec in Hp
      as [(_ & -> & _)|(fresh & bm & _ & _ & _ & Hp)]; [done|].
    destruct (can_watch _ _); destruct Hp as [-> ->]; [|done].
    split; simpl; [done|]. by rewrite lookup_insert_ne.
  - intros s0 H0. done.
Qed.

(** A watch record stays as it is until a callback cancels it. *)
Lemma record_stays_until_cancelled task_id self c s s' t :
  io_tasks_ s !! task_id = Some self ->
  run_closure c s = Ret (s', t) ->
  never (cancels task_id) t ->
  io_tasks_ s' !! task_id = Some self.
Proof.
  intros Hrec Hrun.
  eapply (run_closure_until (fun x => io_tasks_ x !! task_id = Some self)
            (fun _ => True)); [| | | |exact Hrec|exact Hrun].
  - intros tid s0 H0. split; [done|]. rewrite CancelTask_spec.
    case_decide; [done|].
    destruct (delayed_tasks_ s0 !! tid) as [[j [c0|]]|]; simpl; try done.
    destruct (decide (tid = task_id)) as [->|Hne].
    + rewrite H0. simpl. by rewrite Z.eqb_refl.
    + destruct (io_tasks_ s0 !! tid); [|done]. simpl. intros _.
      by rewrite lookup_delete_ne.
  - intros task delay s0 tid s1 H0 Hp. split; [done|]. intros _.
    apply PostDelayedTask_spec in Hp as (fresh & _ & Hp).
    destruct (accepts_tasks _); destruct Hp as [_ ->]; done.
  - intros fd mode pers task s0 tid s1 H0 Hp. split; [done|]. intros _.
    apply WatchFileDescriptor_spec in Hp
      as [(_ & -> & _)|(fresh & bm & _ & _ & (_ & _ & Hio) & Hp)]; [done|].
    destruct (can_watch _ _); destruct Hp as [_ ->]; [|done].
    simpl. rewrite lookup_insert_ne; [done|congruence].
  - intros s0 H0. done.
Qed.

Lemma OnFileReady_one_shot task_id fd self c s :
  io_tasks_ s !! task_id = Some self ->
  persistent_ self = false -> closure_ self = Some c ->
  OnFileReady task_id fd s =
    do (s2, t) <-
      run_closure c (set_io_tasks (delete (task_id_ self) (io_tasks_ s)) s);
    Ret (stop_if_run_once s2, EvRun (task_id_ self) :: t).
Proof. intros H Hp Hc. unfold OnFileReady. by rewrite H, Hp, Hc. Qed.

Lemma OnFileReady_persistent task_id fd self c s :
  io_tasks_ s !! task_id = Some self ->
  persistent_ self = true -> closure_ self = Some c ->
  OnFileReady task_id fd s =
    do (s2, t) <- run_closure c s;
    Ret (stop_if_run_once s2, EvRun (task_id_ self) :: t).
Proof. intros H Hp Hc. unfold OnFileReady. by rewrite H, Hp, Hc. Qed.

Lemma deliver_FileReady task_id self s :
  io_tasks_ s !! task_id = Some self ->
  deliver (FileReady task_id) s =
    OnFileReady task_id (fst (fd_watcher_ self)) s.
Proof. intros H. simpl. rewrite H. by destruct (snd (fd_watcher_ self)). Qed.

Lemma deliver_unsubscribed task_id s :
  io_tasks_ s !! task_id = None -> deliver (FileReady task_id) s = Ret (s, []).
Proof. intros H. simpl. by rewrite H. Qed.

(** Readiness of a descriptor whose record is gone starts nothing, however
    often it is reported. *)
Lemma drive_unsubscribed task_id s n :
  io_tasks_ s !! task_id = None ->
  drive false (replicate n (FileReady task_id)) s = Ret (s, []).
Proof.
  intros H. induction n as [|n IH]; [done|].
  cbn [replicate drive]. rewrite deliver_unsubscribed by done. simpl.
  destruct (quit_called (base_loop_ s)); [done|]. by rewrite IH.
Qed.

Lemma stop_if_run_once_stores s :
  delayed_tasks_ (stop_if_run_once s) = delayed_tasks_ s /\
  io_tasks_ (stop_if_run_once s) = io_tasks_ s.
Proof. unfold stop_if_run_once. by destruct (run_once_ s). Qed.

Lemma fuel_erase_io task_id s :
  (NextTaskId_fuel (set_io_tasks (delete task_id (io_tasks_ s)) s)
   <= NextTaskId_fuel s)%nat.
Proof.
  unfold NextTaskId_fuel. simpl. rewrite map_size_delete.
  destruct (io_tasks_ s !! task_id); simpl; lia.
Qed.

Lemma wf_erase_io task_id s :
  wf s -> wf (set_io_tasks (delete task_id (io_tasks_ s)) s).
Proof.
  intros [Hd Hio Hu Hl]. split; simpl; try done.
  - intros k task [Hne Hk]%lookup_delete_Some. by apply Hio.
  - intros k. destruct (Hu k) as [Hx|Hx]; [by left|right].
    apply lookup_delete_None. auto.
Qed.

Lemma wf_OnFileReady task_id fd s s' t :
  wf s -> OnFileReady task_id fd s = Ret (s', t) -> wf s'.
Proof.
  intros Hwf. unfold OnFileReady.
  destruct (io_tasks_ s !! task_id) as [self|]; [|done].
  intros H. apply bind_Ret_inv in H as ([s2 t2] & Hrun & [= <- <-]).
  apply wf_stop_if_run_once.
  destruct (persistent_ self), (closure_ self) as [c|]; simpl in Hrun; try done.
  - by eapply wf_run_closure.
  - eapply wf_run_closure; [|exact Hrun]. by apply wf_erase_io.
Qed.

Lemma wf_deliver n s s' t :
  wf s -> deliver n s = Ret (s', t) -> wf s'.
Proof.
  intros Hwf. destruct n as [task_id|task_id]; simpl.
  - by apply wf_OnRanPostedTask.
  - destruct (io_tasks_ s !! task_id) as [self|]; [|by intros [= <- <-]].
    destruct (snd (fd_watcher_ self)); by apply wf_OnFileReady.
Qed.

Lemma wf_drive blocking pending : forall s s' t,
  wf s -> drive blocking pending s = Ret (s', t) -> wf s'.
Proof.
  induction pending as [|n rest IH]; intros s s' t Hwf; simpl.
  - destruct blocking; [done|]. by intros [= <- <-].
  - intros H. apply bind_Ret_inv in H as ([s1 t1] & Hd & H).
    pose proof (wf_deliver _ _ _ _ Hwf Hd) as Hwf1.
    destruct (quit_called (base_loop_ s1)); [by injection H as <- <-|].
    apply bind_Ret_inv in H as ([s2 t2] & Hrest & [= <- <-]). by eapply IH.
Qed.

Lemma never_app stop t1 t2 :
  never stop (t1 ++ t2) <-> never stop t1 /\ never stop t2.
Proof. unfold never. rewrite forallb_app. apply andb_true_iff. Qed.

Lemma filter_is_run_none t :
  Forall (fun e => is_run e = false) t -> List.filter is_run t = [].
Proof.
  induction 1 as [|e t He _ IH]; simpl; [done|]. by rewrite He.
Qed.

(** A persistent watch that no callback cancels answers every one of [n]
    readiness reports, as long as the loop is not told to stop. *)
Lemma persistent_keeps_firing task_id self c blocking n : forall s s' t,
  wf s ->
  io_tasks_ s !! task_id = Some self ->
  persistent_ self = true -> closure_ self = Some c ->
  drive blocking (replicate n (FileReady task_id)) s = Ret (s', t) ->
  never (cancels task_id) t ->
  quit_called (base_loop_ s') = false ->
  List.filter is_run t = replicate n (EvRun task_id) /\
  io_tasks_ s' !! task_id = Some self.
Proof.
  induction n as [|n IH]; intros s s' t Hwf Hrec Hp Hc; cbn [replicate drive].
  - destruct blocking; [done|]. by intros [= <- <-].
  - rewrite (deliver_FileReady _ _ _ Hrec).
    rewrite (OnFileReady_persistent _ _ _ _ _ Hrec Hp Hc).
    destruct (wf_io s Hwf _ _ Hrec) as [_ ->].
    intros H Hnever Hquit.
    apply bind_Ret_inv in H as ([s1 t1] & Hfire & H).
    pose proof Hfire as Hfire'.
    apply bind_Ret_inv in Hfire' as ([s2 t2] & Hrun & [= <- <-]).
    destruct (quit_called (base_loop_ (stop_if_run_once s2))) eqn:Eq.
    { injection H as <- <-. congruence. }
    apply bind_Ret_inv in H as ([s3 t3] & Hrest & [= <- <-]).
    apply never_app in Hnever as [Hn1 Hn3].
    assert (io_tasks_ (stop_if_run_once s2) !! task_id = Some self) as Hrec2.
    { destruct (stop_if_run_once_stores s2) as [_ ->].
      eapply record_stays_until_cancelled; [exact Hrec|exact Hrun|].
      unfold never in *. simpl in Hn1. done. }
    destruct (IH (stop_if_run_once s2) s3 t3) as [Hf Hr]; try done.
    { apply wf_stop_if_run_once. by eapply wf_run_closure. }
    split; [|done].
    destruct (run_closure_run_once _ _ _ _ Hrun) as [_ Hnorun].
    simpl. rewrite List.filter_app, (filter_is_run_none _ Hnorun), Hf. done.
Qed.

(** *** RunOnce *)







(** *** Task ids *)

Lemma wf_set_base_loop base s : wf s -> wf (set_base_loop base s).
Proof. intros [Hd Hio Hu Hl]. by split. Qed.

Lemma wf_RunOnce may_block pending s b s' t :
  wf s -> RunOnce may_block pending s = Ret (b, s', t) -> wf s'.
Proof.
  intros Hwf. unfold RunOnce, base_RunUntilIdle, base_Run, begin_run.
  intros H. apply bind_Ret_inv in H as ([s2 t2] & Hdrive & H).
  assert (wf s2) as Hwf2.
  { destruct may_block; simpl in Hdrive;
      (eapply wf_drive; [|exact Hdrive]);
      by apply wf_set_base_loop, wf_set_run_once. }
  destruct (run_once_ s2); simpl in H; injection H as <- <- <-;
    [by apply wf_set_run_once | done].
Qed.

Lemma wf_call c s s' : wf s -> call c s = Ret s' -> wf s'.
Proof.
  intros Hwf. destruct c; simpl.
  - intros H. apply bind_Ret_inv in H as ([tid s1] & Hp & [= <-]).
    by eapply wf_PostDelayedTask.
  - intros H. apply bind_Ret_inv in H as ([tid s1] & Hp & [= <-]).
    by eapply wf_WatchFileDescriptor.
  - intros [= <-]. by apply wf_CancelTask.
  - intros H. apply bind_Ret_inv in H as ([[b s1] t] & Hp & [= <-]).
    by eapply wf_RunOnce.
  - intros H. apply bind_Ret_inv in H as ([s1 t] & Hp & [= <-]).
    unfold Run, base_Run, begin_run in Hp.
    eapply wf_drive; [|exact Hp]. by apply wf_set_base_loop.
  - intros [= <-]. by apply wf_QuitNow.
  - intros [= <-]. by apply wf_set_base_loop.
Qed.

Lemma reachable_wf s : reachable s -> wf s.
Proof.
  induction 1 as [base|c s s' _ IH Hcall]; [apply wf_new_loop|].
  by eapply wf_call.
Qed.

(** *** The iteration bound of NextTaskId cuts no search short *)

Lemma NextTaskId_loop_hopeless delayed io fuel last f :
  NextTaskId_loop fuel last delayed io = Stuck f ->
  TaskId_modulus <= Z.of_nat fuel ->
  forall fuel' last', NextTaskId_loop fuel' last' delayed io = Stuck NoFreeTaskId.
Proof.
  intros Hs Hfuel fuel' last'. apply NextTaskId_loop_full.
  intros r Hr. pose proof TaskId_modulus_pos as HM.
  pose proof (Z.mod_pos_bound (r - last - 1) TaskId_modulus ltac:(lia)) as Hb.
  pose proof (NextTaskId_loop_stuck _ _ _ _ _ Hs
                ((r - last - 1) mod TaskId_modulus + 1) ltac:(lia)) as Ht.
  replace ((last + ((r - last - 1) mod TaskId_modulus + 1)) mod TaskId_modulus)
    with r in Ht; [done|].
  replace (last + ((r - last - 1) mod TaskId_modulus + 1))
    with ((r - last - 1) mod TaskId_modulus + (last + 1)) by lia.
  rewrite Zplus_mod_idemp_l.
  replace (r - last - 1 + (last + 1)) with r by lia.
  symmetry. apply Z.mod_small. lia.
Qed.

(** When [NextTaskId] gives up, the do-while of the source never ends. *)
Lemma NextTaskId_stuck_for_good s f :
  NextTaskId s = Stuck f ->
  forall fuel last,
    NextTaskId_loop fuel last (delayed_tasks_ s) (io_tasks_ s) = Stuck NoFreeTaskId.
Proof.
  unfold NextTaskId.
  destruct (NextTaskId_loop (NextTaskId_fuel s) (last_id_ s) _ _) as [res|f0] eqn:E;
    [done|]. intros _.
  destruct (decide (Z.of_nat (NextTaskId_fuel s) <= TaskId_modulus)) as [Hroom|Hfull].
  - destruct (NextTaskId_loop_fuel _ _ (last_id_ s) Hroom) as [res Hres].
    unfold NextTaskId_fuel in E. congruence.
  - eapply NextTaskId_loop_hopeless; [exact E|lia].
Qed.

(** *** What the loop delivers while an id is unbound or its record cleared *)

Lemma Forall_upto (Q : Event -> Prop) stop t :
  Forall Q t -> Forall Q (upto stop t).
Proof.
  induction 1 as [|e t He _ IH]; simpl; [constructor|].
  destruct (stop e); repeat constructor; done.
Qed.

Lemma upto_app stop t1 t2 :
  upto stop (t1 ++ t2) =
    if forallb (fun e => negb (stop e)) t1 then t1 ++ upto stop t2
    else upto stop t1.
Proof.
  induction t1 as [|e t1 IH]; simpl; [done|].
  destruct (stop e); simpl; [done|]. rewrite IH.
  by destruct (forallb _ t1).
Qed.

Lemma closure_spares_absent task_id c s s' t :
  absent task_id s ->
  run_closure c s = Ret (s', t) ->
  Forall (spares task_id) (upto (registers task_id) t) /\
  (never (registers task_id) t -> absent task_id s').
Proof.
  intros Habs Hrun.
  destruct (absent_until_registered _ _ _ _ _ Habs Hrun) as [Hc Hn].
  destruct (run_closure_run_once _ _ _ _ Hrun) as [_ Hr].
  split; [|done]. apply Forall_and. split; [|done].
  apply Forall_upto. eapply Forall_impl; [exact Hr|].
  intros e He ->. done.
Qed.

Lemma fire_spares_absent task_id j c s0 s2 t2 :
  absent task_id s0 -> j <> task_id ->
  run_closure c s0 = Ret (s2, t2) ->
  Forall (spares task_id) (upto (registers task_id) (EvRun j :: t2)) /\
  (never (registers task_id) (EvRun j :: t2) -> absent task_id (stop_if_run_once s2)).
Proof.
  intros Habs Hne Hrun.
  destruct (closure_spares_absent _ _ _ _ _ Habs Hrun) as [Hf Hn].
  simpl. split.
  - constructor; [|done]. split; congruence.
  - intros Hnever. unfold never in Hnever. simpl in Hnever.
    destruct (Hn Hnever) as [Hd Hio].
    destruct (stop_if_run_once_stores s2) as [E1 E2].
    split; [by rewrite E1 | by rewrite E2].
Qed.

(** While no record is bound to [task_id], nothing the loop delivers starts
    a callback of [task_id] or cancels it with success, until a registration
    is handed that id anew. *)
Lemma deliver_absent_until task_id n s s' t :
  wf s -> absent task_id s ->
  deliver n s = Ret (s', t) ->
  Forall (spares task_id) (upto (registers task_id) t) /\
  (never (registers task_id) t -> absent task_id s').
Proof.
  intros Hwf [Hd Hio] Hdel. destruct n as [j|j].
  - simpl in Hdel. destruct (delayed_tasks_ s !! j) as [[i [c|]]|] eqn:E.
    + assert (j <> task_id) as Hne by congruence.
      rewrite (OnRanPostedTask_bound _ _ _ _ E) in Hdel.
      apply bind_Ret_inv in Hdel as ([s2 t2] & Hrun & [= <- <-]).
      eapply fire_spares_absent in Hrun as [Hf Hn]; [| |exact Hne].
      * split; [exact Hf|]. intros Hnever. destruct (Hn Hnever) as [Hd2 Hio2].
        split; simpl; [by rewrite lookup_delete_ne | done].
      * split; simpl; [by rewrite lookup_insert_ne | done].
    + assert (j <> task_id) as Hne by congruence.
      rewrite (OnRanPostedTask_null _ _ _ E) in Hdel. injection Hdel as <- <-.
      split; [constructor|]. intros _.
      split; simpl; [by rewrite lookup_delete_ne | done].
    + unfold OnRanPostedTask in Hdel. by rewrite E in Hdel.
  - destruct (io_tasks_ s !! j) as [self|] eqn:E.
    + assert (j <> task_id) as Hne by congruence.
      destruct (wf_io s Hwf _ _ E) as [_ Hid].
      rewrite (deliver_FileReady _ _ _ E) in Hdel. unfold OnFileReady in Hdel.
      rewrite E, Hid in Hdel.
      apply bind_Ret_inv in Hdel as ([s2 t2] & Hrun & [= <- <-]).
      destruct (persistent_ self), (closure_ self) as [c|]; simpl in Hrun; try done.
      * eapply fire_spares_absent; [|exact Hne|exact Hrun]. done.
      * eapply fire_spares_absent; [|exact Hne|exact Hrun].
        split; simpl; [done|]. by rewrite lookup_delete_ne.
    + rewrite (deliver_unsubscribed _ _ E) in Hdel. injection Hdel as <- <-.
      split; [constructor|done].
Qed.

Lemma drive_absent_until task_id blocking pending : forall s s' t,
  wf s -> absent task_id s ->
  drive blocking pending s = Ret (s', t) ->
  Forall (spares task_id) (upto (registers task_id) t) /\
  (never (registers task_id) t -> absent task_id s').
Proof.
  induction pending as [|n rest IH]; intros s s' t Hwf Habs; simpl.
  - destruct blocking; [done|]. intros [= <- <-]. split; [constructor|done].
  - intros H. apply bind_Ret_inv in H as ([s1 t1] & Hd & H).
    pose proof (wf_deliver _ _ _ _ Hwf Hd) as Hwf1.
    destruct (deliver_absent_until _ _ _ _ _ Hwf Habs Hd) as [Hf1 Hn1].
    destruct (quit_called (base_loop_ s1)); [by injection H as <- <-|].
    apply bind_Ret_inv in H as ([s2 t2] & Hrest & [= <- <-]).
    split.
    + rewrite upto_app.
      destruct (forallb (fun e => negb (registers task_id e)) t1) eqn:En; [|done].
      rewrite (upto_never _ _ En) in Hf1.
      apply Forall_app. split; [done|]. by apply (IH s1 s2 t2 Hwf1 (Hn1 En)).
    + intros [Hn Hn2]%never_app. by apply (IH s1 s2 t2 Hwf1 (Hn1 Hn)).
Qed.

(** A delayed record whose callback was cleared stays so, and nothing the
    loop delivers starts its callback, until its own timer notification
    arrives. *)
Lemma deliver_cleared task_id i n s s' t :
  wf s ->
  delayed_tasks_ s !! task_id = Some (mkDelayedTask i None) ->
  n <> TimerFired task_id ->
  deliver n s = Ret (s', t) ->
  Forall (spares task_id) t /\
  delayed_tasks_ s' !! task_id = Some (mkDelayedTask i None).
Proof.
  intros Hwf Hrec Hn Hdel.
  assert (forall j c s0 s2 t2,
            j <> task_id ->
            delayed_tasks_ s0 !! task_id = Some (mkDelayedTask i None) ->
            run_closure c s0 = Ret (s2, t2) ->
            Forall (spares task_id) (EvRun j :: t2) /\
            delayed_tasks_ (stop_if_run_once s2) !! task_id
            = Some (mkDelayedTask i None)) as Hfire.
  { intros j c s0 s2 t2 Hne H0 Hrun.
    destruct (cleared_record_stays _ _ _ _ _ _ H0 Hrun) as [Hc Hs].
    destruct (run_closure_run_once _ _ _ _ Hrun) as [_ Hr].
    destruct (stop_if_run_once_stores s2) as [-> _]. split; [|done].
    constructor; [split; congruence|].
    apply Forall_and. split; [|done].
    eapply Forall_impl; [exact Hr|]. intros e He ->. done. }
  destruct n as [j|j].
  - assert (j <> task_id) as Hne by congruence.
    simpl in Hdel. destruct (delayed_tasks_ s !! j) as [[i' [c|]]|] eqn:E.
    + rewrite (OnRanPostedTask_bound _ _ _ _ E) in Hdel.
      apply bind_Ret_inv in Hdel as ([s2 t2] & Hrun & [= <- <-]).
      apply (Hfire j) in Hrun as [Hf Hs]; [|done|by simpl; rewrite lookup_insert_ne].
      split; [done|]. simpl. by rewrite lookup_delete_ne.
    + rewrite (OnRanPostedTask_null _ _ _ E) in Hdel. injection Hdel as <- <-.
      split; [constructor|]. simpl. by rewrite lookup_delete_ne.
    + unfold OnRanPostedTask in Hdel. by rewrite E in Hdel.
  - destruct (io_tasks_ s !! j) as [self|] eqn:E.
    + assert (j <> task_id) as Hne.
      { intros ->. destruct (wf_unique s Hwf task_id); congruence. }
      destruct (wf_io s Hwf _ _ E) as [_ Hid].
      rewrite (deliver_FileReady _ _ _ E) in Hdel. unfold OnFileReady in Hdel.
      rewrite E, Hid in Hdel.
      apply bind_Ret_inv in Hdel as ([s2 t2] & Hrun & [= <- <-]).
      destruct (persistent_ self), (closure_ self) as [c|]; simpl in Hrun; try done;
        by apply (Hfire j) in Hrun.
    + rewrite (deliver_unsubscribed _ _ E) in Hdel. injection Hdel as <- <-.
      split; [constructor|done].
Qed.

Lemma drive_cleared task_id i blocking pending : forall s s' t,
  wf s ->
  delayed_tasks_ s !! task_id = Some (mkDelayedTask i None) ->
  ~ In (TimerFired task_id) pending ->
  drive blocking pending s = Ret (s', t) ->
  Forall (spares task_id) t /\
  delayed_tasks_ s' !! task_id = Some (mkDelayedTask i None).
Proof.
  induction pending as [|n rest IH]; intros s s' t Hwf Hrec Hnot; simpl.
  - destruct blocking; [done|]. intros [= <- <-]. split; [constructor|done].
  - intros H. apply bind_Ret_inv in H as ([s1 t1] & Hd & H).
    pose proof (wf_deliver _ _ _ _ Hwf Hd) as Hwf1.
    assert (n <> TimerFired task_id) as Hn by (intros ->; apply Hnot; by left).
    assert (~ In (TimerFired task_id) rest) as Hrest' by (intros Hin; apply Hnot; by right).
    destruct (deliver_cleared _ _ _ _ _ _ Hwf Hrec Hn Hd) as [Hf1 Hrec1].
    destruct (quit_called (base_loop_ s1)); [by injection H as <- <-|].
    apply bind_Ret_inv in H as ([s2 t2] & Hrest & [= <- <-]).
    destruct (IH s1 s2 t2 Hwf1 Hrec1 Hrest' Hrest) as [Hf2 Hrec2].
    split; [by apply Forall_app | done].
Qed.

(** *** Before the id counter wraps around no id is handed out twice *)

Lemma NextTaskId_no_wrap n s :
  no_wrap (S n) s ->
  NextTaskId s = Ret (last_id_ s + 1, set_last_id (last_id_ s + 1) s).
Proof.
  intros (Hkeys & Hpos & Hlt). unfold NextTaskId, NextTaskId_fuel.
  replace (size (delayed_tasks_ s) + size (io_tasks_ s) + 2)%nat
    with (S (size (delayed_tasks_ s) + size (io_tasks_ s) + 1)) by lia.
  cbn [NextTaskId_loop].
  rewrite (Z.mod_small (last_id_ s + 1)) by lia.
  destruct (Z.eqb_spec (last_id_ s + 1) 0) as [Hz|_]; [lia|].
  destruct (contains (last_id_ s + 1) (delayed_tasks_ s)) eqn:Ed.
  { apply contains_true in Ed. specialize (Hkeys _ (or_introl Ed)). lia. }
  destruct (contains (last_id_ s + 1) (io_tasks_ s)) eqn:Eio.
  { apply contains_true in Eio. specialize (Hkeys _ (or_intror Eio)). lia. }
  done.
Qed.

Lemma no_wrap_set_last_id n s :
  no_wrap (S n) s -> no_wrap n (set_last_id (last_id_ s + 1) s).
Proof.
  intros (Hkeys & Hpos & Hlt). split; [|simpl; lia].
  intros k Hk. simpl in *. specialize (Hkeys k Hk). lia.
Qed.

Lemma no_wrap_CancelTask n task_id s :
  no_wrap n s -> no_wrap n (CancelTask task_id s).2.
Proof.
  intros (Hkeys & Hpos & Hlt). rewrite CancelTask_spec. case_decide; [done|].
  destruct (delayed_tasks_ s !! task_id) as [[i [c|]]|] eqn:E; simpl; try done.
  - split; [|done]. intros k [Hk|Hk]; simpl in *; apply Hkeys; [|by right].
    left. destruct (decide (task_id = k)) as [<-|Hne]; [by rewrite E|].
    by rewrite lookup_insert_ne in Hk.
  - destruct (io_tasks_ s !! task_id) eqn:E2; simpl; [|done].
    split; [|done]. intros k [Hk|Hk]; simpl in *; apply Hkeys; [by left|].
    right. destruct Hk as [x [_ Hx]%lookup_delete_Some]. eauto.
Qed.

Lemma no_wrap_insert_delayed n s task :
  no_wrap (S n) s ->
  no_wrap n
    (set_delayed_tasks
       (<[last_id_ s + 1 := task]> (delayed_tasks_ s))
       (set_last_id (last_id_ s + 1) s)).
Proof.
  intros (Hkeys & Hpos & Hlt). split; [|simpl; lia].
  intros k [Hk|Hk]; simpl in *.
  - destruct (decide (last_id_ s + 1 = k)) as [<-|Hne]; [lia|].
    rewrite lookup_insert_ne in Hk by done. specialize (Hkeys k (or_introl Hk)). lia.
  - specialize (Hkeys k (or_intror Hk)). lia.
Qed.

Lemma no_wrap_insert_io n s task :
  no_wrap (S n) s ->
  no_wrap n
    (set_io_tasks
       (<[last_id_ s + 1 := task]> (io_tasks_ s))
       (set_last_id (last_id_ s + 1) s)).
Proof.
  intros (Hkeys & Hpos & Hlt). split; [|simpl; lia].
  intros k [Hk|Hk]; simpl in *.
  - specialize (Hkeys k (or_introl Hk)). lia.
  - destruct (decide (last_id_ s + 1 = k)) as [<-|Hne]; [lia|].
    rewrite lookup_insert_ne in Hk by done. specialize (Hkeys k (or_intror Hk)). lia.
Qed.

Lemma never_cons stop e t :
  stop e = false -> never stop t -> never stop (e :: t).
Proof. unfold never. simpl. by intros -> ->. Qed.

(** A callback that makes at most [n] registrations is never handed an id
    that was given out before. *)
Lemma run_closure_no_wrap n c :
  allocs_at_most n c ->
  forall s s' t task_id,
    no_wrap n s -> 0 < task_id <= last_id_ s ->
    run_closure c s = Ret (s', t) ->
    never (registers task_id) t.
Proof.
  induction 1 as [n|n tid k Hk IH|n task delay k Hk IH
                 |n fd mode pers task k Hk IH|n k Hk IH];
    intros s s' t task_id Hnw Hid Hrun; simpl in Hrun.
  - by injection Hrun as <- <-.
  - pose proof (no_wrap_CancelTask n tid s Hnw) as Hnw1.
    destruct (CancelTask_frame tid s) as (Hlast & _).
    destruct (CancelTask tid s) as [result s1]. simpl in *.
    apply bind_Ret_inv in Hrun as ([s2 t2] & Hrun & [= <- <-]).
    apply never_cons; [done|].
    eapply IH; [exact Hnw1| |exact Hrun]. by rewrite Hlast.
  - apply bind_Ret_inv in Hrun as ([tid s1] & Hp & Hrun).
    apply bind_Ret_inv in Hrun as ([s2 t2] & Hrun & [= <- <-]).
    unfold PostDelayedTask in Hp. rewrite (NextTaskId_no_wrap n s Hnw) in Hp.
    simpl in Hp. destruct (accepts_tasks (base_loop_ s)); simpl in Hp;
      injection Hp as <- <-; apply never_cons;
      try (unfold registers, kTaskIdNull; apply Z.eqb_neq; lia).
    + eapply IH; [| |exact Hrun]; [|simpl; lia].
      unfold emplace. destruct (delayed_tasks_ s !! (last_id_ s + 1)) eqn:E.
      * destruct Hnw as (Hkeys & _).
        specialize (Hkeys (last_id_ s + 1) (or_introl (mk_is_Some _ _ E))). lia.
      * by apply no_wrap_insert_delayed.
    + eapply IH; [by apply no_wrap_set_last_id| |exact Hrun]. simpl. lia.
  - apply bind_Ret_inv in Hrun as ([tid s1] & Hp & Hrun).
    apply bind_Ret_inv in Hrun as ([s2 t2] & Hrun & [= <- <-]).
    assert (no_wrap n s) as Hnw0.
    { destruct Hnw as (Hkeys & Hpos & Hlt). split; [done|]. split; [done|lia]. }
    unfold WatchFileDescriptor in Hp.
    assert (Ret (kTaskIdNull, s) = Ret (tid, s1) ->
            never (registers task_id) (EvWatch tid :: t2)) as Hrejected.
    { intros [= <- <-]. apply never_cons;
        [unfold registers, kTaskIdNull; apply Z.eqb_neq; lia|].
      eapply IH; [exact Hnw0|exact Hid|exact Hrun]. }
    destruct (fd <? 0); [by apply Hrejected|].
    destruct (base_mode_of mode) as [bm|]; [|by apply Hrejected].
    rewrite (NextTaskId_no_wrap n s Hnw) in Hp. simpl in Hp.
    assert (io_tasks_ s !! (last_id_ s + 1) = None) as Hfree.
    { destruct (io_tasks_ s !! (last_id_ s + 1)) eqn:E; [|done].
      destruct Hnw as (Hkeys & _).
      specialize (Hkeys (last_id_ s + 1) (or_intror (mk_is_Some _ _ E))). lia. }
    rewrite emplace_fresh in Hp by done.
    destruct (can_watch (base_loop_ s) fd); simpl in Hp;
      injection Hp as <- <-; apply never_cons;
      try (unfold registers, kTaskIdNull; apply Z.eqb_neq; lia).
    + eapply IH; [by apply no_wrap_insert_io| |exact Hrun]. simpl. lia.
    + eapply IH; [| |exact Hrun]; [|simpl; lia].
      unfold set_io_tasks, set_last_id. simpl.
      rewrite delete_insert_eq, delete_id by done.
      by apply no_wrap_set_last_id.
  - apply bind_Ret_inv in Hrun as ([s2 t2] & Hrun & [= <- <-]).
    apply never_cons; [done|]. eapply (IH (BreakLoop s)); [exact Hnw|exact Hid|exact Hrun].
Qed.

Lemma no_wrap_erase_io n task_id s :
  no_wrap n s -> no_wrap n (set_io_tasks (delete task_id (io_tasks_ s)) s).
Proof.
  intros (Hkeys & Hpos & Hlt). split; [|done].
  intros k [Hk|Hk]; simpl in *; apply Hkeys; [by left|].
  right. destruct Hk as [x [_ Hx]%lookup_delete_Some]. eauto.
Qed.

(** *** The states of any instant *)

Lemma wf_take task_id task s :
  wf s -> delayed_tasks_ s !! task_id = Some task ->
  wf (set_delayed_tasks
        (<[task_id := mkDelayedTask (dt_task_id task) None]> (delayed_tasks_ s)) s).
Proof.
  intros [Hd Hio Hu Hl] E. split; simpl; try done.
  - intros k t [[<- <-]|[Hne Hk]]%lookup_insert_Some; [|by apply Hd].
    apply Hd in E. done.
  - intros k. destruct (decide (task_id = k)) as [<-|Hne].
    + right. destruct (Hu task_id) as [Hx|Hx]; [congruence|done].
    + rewrite lookup_insert_ne by done. apply Hu.
Qed.

Lemma wf_erase_delayed task_id s :
  wf s -> wf (set_delayed_tasks (delete task_id (delayed_tasks_ s)) s).
Proof.
  intros [Hd Hio Hu Hl]. split; simpl; try done.
  - intros k task [Hne Hk]%lookup_delete_Some. by apply Hd.
  - intros k. destruct (Hu k) as [Hx|Hx]; [left|by right].
    apply lookup_delete_None. auto.
Qed.

(** The invariant holds at every instant. *)
Lemma instant_wf s : instant s -> wf s.
Proof.
  induction 1;
    eauto using wf_new_loop, wf_PostDelayedTask, wf_WatchFileDescriptor,
      wf_CancelTask, wf_set_run_once, wf_set_base_loop, wf_take,
      wf_erase_delayed, wf_erase_io.
Qed.

(** Whatever the loop does, inside a callback or between two of them, leads
    from an instant to an instant. *)
Lemma instant_run_closure c : forall s s' t,
  instant s -> run_closure c s = Ret (s', t) -> instant s'.
Proof.
  induction c as [|task_id k IH|task delay k IH|fd mode pers task k IH|k IH];
    intros s s' t Hs; simpl.
  - by intros [= <- _].
  - pose proof (instant_CancelTask task_id s Hs) as Hs1.
    destruct (CancelTask task_id s) as [result s1].
    intros ([s2 t2] & Hrun & [= <- _])%bind_Ret_inv. eauto.
  - intros ([tid s1] & Hp & H)%bind_Ret_inv.
    apply bind_Ret_inv in H as ([s2 t2] & Hrun & [= <- _]).
    eauto using instant_PostDelayedTask.
  - intros ([tid s1] & Hw & H)%bind_Ret_inv.
    apply bind_Ret_inv in H as ([s2 t2] & Hrun & [= <- _]).
    eauto using instant_WatchFileDescriptor.
  - intros ([s2 t2] & Hrun & [= <- _])%bind_Ret_inv.
    eapply IH; [|exact Hrun]. by apply instant_base.
Qed.

Lemma instant_stop_if_run_once s : instant s -> instant (stop_if_run_once s).
Proof.
  intros Hs. unfold stop_if_run_once. destruct (run_once_ s); [|done].
  by apply instant_base, instant_run_once.
Qed.

Lemma instant_OnRanPostedTask task_id s s' t :
  instant s -> OnRanPostedTask task_id s = Ret (s', t) -> instant s'.
Proof.
  intros Hs Hfire.
  destruct (delayed_tasks_ s !! task_id) as [[i [c|]]|] eqn:E.
  - rewrite (OnRanPostedTask_bound _ _ _ _ E) in Hfire.
    apply bind_Ret_inv in Hfire as ([s2 t2] & Hrun & [= <- _]).
    apply instant_erase_delayed, instant_stop_if_run_once.
    eapply instant_run_closure; [|exact Hrun].
    by apply (instant_take task_id (mkDelayedTask i (Some c))).
  - rewrite (OnRanPostedTask_null _ _ _ E) in Hfire. injection Hfire as <- _.
    by apply instant_erase_delayed.
  - unfold OnRanPostedTask in Hfire. by rewrite E in Hfire.
Qed.

Lemma instant_OnFileReady task_id fd s s' t :
  instant s -> OnFileReady task_id fd s = Ret (s', t) -> instant s'.
Proof.
  intros Hs. unfold OnFileReady.
  destruct (io_tasks_ s !! task_id) as [self|]; [|done].
  intros H. apply bind_Ret_inv in H as ([s2 t2] & Hrun & [= <- _]).
  apply instant_stop_if_run_once.
  destruct (persistent_ self), (closure_ self) as [c|]; simpl in Hrun; try done.
  - by eapply instant_run_closure.
  - eapply instant_run_closure; [|exact Hrun]. by apply instant_erase_io.
Qed.

Lemma instant_drive blocking pending : forall s s' t,
  instant s -> drive blocking pending s = Ret (s', t) -> instant s'.
Proof.
  induction pending as [|n rest IH]; intros s s' t Hs; simpl.
  - destruct blocking; [done|]. by intros [= <- _].
  - intros H. apply bind_Ret_inv in H as ([s1 t1] & Hd & H).
    assert (instant s1) as Hs1.
    { destruct n as [task_id|task_id]; simpl in Hd.
      - by eapply instant_OnRanPostedTask.
      - destruct (io_tasks_ s !! task_id) as [self|]; [|by injection Hd as <- _].
        destruct (snd (fd_watcher_ self)); by eapply instant_OnFileReady. }
    destruct (quit_called (base_loop_ s1)); [by injection H as <- _|].
    apply bind_Ret_inv in H as ([s2 t2] & Hrest & [= <- _]). by eapply IH.
Qed.

(** The states between two calls are among them. *)
Lemma reachable_instant s : reachable s -> instant s.
Proof.
  induction 1 as [base|c s s' _ IH Hcall]; [apply instant_new|].
  destruct c as [task delay|fd mode pers task|task_id|may_block pending|pending| |base];
    simpl in Hcall.
  - apply bind_Ret_inv in Hcall as ([tid s1] & Hp & [= <-]).
    by eapply instant_PostDelayedTask.
  - apply bind_Ret_inv in Hcall as ([tid s1] & Hp & [= <-]).
    by eapply instant_WatchFileDescriptor.
  - injection Hcall as <-. by apply instant_CancelTask.
  - apply bind_Ret_inv in Hcall as ([[b s1] t] & Hr & [= <-]).
    unfold RunOnce, base_RunUntilIdle, base_Run, begin_run in Hr.
    apply bind_Ret_inv in Hr as ([s2 t2] & Hdrive & Hr).
    assert (instant s2) as Hs2.
    { destruct may_block; simpl in Hdrive;
        (eapply instant_drive; [|exact Hdrive]);
        by apply instant_base, instant_run_once. }
    destruct (run_once_ s2); simpl in Hr; injection Hr as _ <- _;
      [by apply instant_run_once | done].
  - apply bind_Ret_inv in Hcall as ([s1 t] & Hr & [= <-]).
    unfold Run, base_Run, begin_run in Hr.
    eapply instant_drive; [|exact Hr]. by apply instant_base.
  - injection Hcall as <-. by apply instant_base.
  - injection Hcall as <-. by apply instant_base.
Qed.

(** *** The properties of the specification *)

(** C1, as the code has it: a one-shot watch whose readiness event fires
    has its callback taken out and its record erased from the store, and
    with it the subscription, before the callback is invoked; a cancel of
    that id made inside the callback therefore fails, and the watch does not
    fire again however long the descriptor stays ready -- up to the moment,
    if there is one, at which a registration made meanwhile is handed the
    same id again, from where on the id names the new task.  That moment
    does not come while the id counter does not wrap around. *)
Theorem C1_one_shot_watch_fire_amended
    (s : BaseMessageLoop) (task_id fd : Z) (self : IOTask) (c : Closure) :
  wf s ->
  io_tasks_ s !! task_id = Some self ->
  persistent_ self = false ->
  closure_ self = Some c ->
  let s1 := set_io_tasks (delete task_id (io_tasks_ s)) s in
  OnFileReady task_id fd s =
    (do (s2, t) <- run_closure c s1;
     Ret (stop_if_run_once s2, EvRun task_id :: t)) /\
  absent task_id s1 /\
  CancelTask task_id s1 = (false, s1) /\
  (forall n, allocs_at_most n c ->
     Z.of_nat (NextTaskId_fuel s + n) <= TaskId_modulus ->
     exists s' t, OnFileReady task_id fd s = Ret (s', EvRun task_id :: t)) /\
  (forall n s' t, allocs_at_most n c -> no_wrap n s ->
     OnFileReady task_id fd s = Ret (s', t) ->
     Forall (fun e => e <> EvCancel task_id true) t /\ absent task_id s') /\
  (forall s' t, OnFileReady task_id fd s = Ret (s', t) ->
     Forall (fun e => e <> EvCancel task_id true) (upto (registers task_id) t) /\
     (never (registers task_id) t ->
      absent task_id s' /\
      (forall n, drive false (replicate n (FileReady task_id)) s' = Ret (s', [])) /\
      (forall blocking pending s'' t',
         drive blocking pending s' = Ret (s'', t') ->
         Forall (spares task_id) (upto (registers task_id) t')))).
Proof.
  intros Hwf Hrec Hp Hc s1.
  destruct (wf_io s Hwf _ _ Hrec) as [_ Hid].
  pose proof (OnFileReady_one_shot task_id fd self c s Hrec Hp Hc) as Heq.
  rewrite Hid in Heq. fold s1 in Heq.
  assert (absent task_id s1) as Habs.
  { split; simpl; [|apply lookup_delete_eq].
    destruct (wf_unique s Hwf task_id); [done|congruence]. }
  split; [done|]. split; [done|]. split; [by apply CancelTask_absent|].
  split; [|split].
  - intros n Hn Hcap. rewrite Heq.
    destruct (run_closure_returns n c Hn s1) as (s2 & t & ->).
    { pose proof (fuel_erase_io task_id s). fold s1 in H. lia. }
    simpl. eauto.
  - intros n s' t Hn Hnw Hfire. rewrite Heq in Hfire.
    apply bind_Ret_inv in Hfire as ([s2 t2] & Hrun & [= <- <-]).
    assert (never (registers task_id) t2) as Hnever.
    { eapply (run_closure_no_wrap n c Hn s1); [by apply no_wrap_erase_io| |exact Hrun].
      destruct (wf_io s Hwf _ _ Hrec) as [Hrange _]. destruct Hnw as (Hkeys & _).
      simpl. split; [lia|]. apply Hkeys. right. by eexists. }
    destruct (absent_until_registered _ _ _ _ _ Habs Hrun) as [Hq Habs2].
    rewrite (upto_never _ _ Hnever) in Hq.
    split; [by constructor|].
    destruct (Habs2 Hnever) as [Hd Hio].
    destruct (stop_if_run_once_stores s2) as [E1 E2].
    split; [by rewrite E1 | by rewrite E2].
  - intros s' t Hfire. rewrite Heq in Hfire.
    apply bind_Ret_inv in Hfire as ([s2 t2] & Hrun & [= <- <-]).
    destruct (absent_until_registered _ _ _ _ _ Habs Hrun) as [Hq Hn].
    split.
    + simpl. by constructor.
    + intros Hnever. unfold never in Hnever. simpl in Hnever.
      destruct (Hn Hnever) as [Hd Hio].
      destruct (stop_if_run_once_stores s2) as [E1 E2].
      assert (absent task_id (stop_if_run_once s2)) as Habs'.
      { split; [by rewrite E1 | by rewrite E2]. }
      split; [done|]. split; [intros n; apply drive_unsubscribed, Habs'|].
      intros blocking pending s'' t' Hdrive.
      eapply drive_absent_until; [|exact Habs'|exact Hdrive].
      apply wf_stop_if_run_once. eapply wf_run_closure; [|exact Hrun].
      by apply wf_erase_io.
Qed.

(** C2: when the timer notification of a delayed task is consumed, a
    non-empty callback is taken out of the record and the record's callback
    cleared before the callback is invoked, so that a cancel of the same id
    made by the running callback reports failure; and whether the callback
    was empty or not, the record is gone from the store afterwards. *)
Theorem C2_delayed_task_fire (s : BaseMessageLoop) (task_id : Z) (task : DelayedTask) :
  delayed_tasks_ s !! task_id = Some task ->
  let s1 :=
    set_delayed_tasks
      (<[task_id := mkDelayedTask (dt_task_id task) None]> (delayed_tasks_ s)) s in
  (dt_closure task = None ->
   OnRanPostedTask task_id s =
     Ret (set_delayed_tasks (delete task_id (delayed_tasks_ s)) s, [])) /\
  (forall c, dt_closure task = Some c ->
     OnRanPostedTask task_id s =
       (do (s2, t) <- run_closure c s1;
        Ret (set_delayed_tasks
               (delete task_id (delayed_tasks_ (stop_if_run_once s2)))
               (stop_if_run_once s2),
             EvRun task_id :: t)) /\
     CancelTask task_id s1 = (false, s1) /\
     (forall n, allocs_at_most n c ->
        Z.of_nat (NextTaskId_fuel s + n) <= TaskId_modulus ->
        exists s' t, OnRanPostedTask task_id s = Ret (s', EvRun task_id :: t))) /\
  (forall s' t, OnRanPostedTask task_id s = Ret (s', t) ->
     ~ In (EvCancel task_id true) t /\
     delayed_tasks_ s' !! task_id = None).
Proof.
  intros Hrec s1. destruct task as [i cl]. simpl in *.
  assert (delayed_tasks_ s1 !! task_id = Some (mkDelayedTask i None)) as H1
    by apply lookup_insert_eq.
  split; [|split].
  - intros ->. by apply (OnRanPostedTask_null task_id i).
  - intros c ->. split; [by apply (OnRanPostedTask_bound task_id i)|]. split.
    + rewrite CancelTask_spec, H1. by case_decide.
    + intros n Hn Hcap. rewrite (OnRanPostedTask_bound _ _ _ _ Hrec). fold s1.
      destruct (run_closure_returns n c Hn s1) as (s2 & t & ->).
      { subst s1. by rewrite (fuel_set_null _ _ _ _ Hrec). }
      simpl. eauto.
  - intros s' t Hfire. split; [|by eapply OnRanPostedTask_erases].
    destruct cl as [c|].
    + rewrite (OnRanPostedTask_bound _ _ _ _ Hrec) in Hfire. fold s1 in Hfire.
      apply bind_Ret_inv in Hfire as ([s2 t2] & Hrun & [= <- <-]).
      destruct (cleared_record_stays _ _ _ _ _ _ H1 Hrun) as [Ht _].
      rewrite Forall_forall in Ht. intros [Hin|Hin]; [done|].
      apply (Ht (EvCancel task_id true)); [by apply list_elem_of_In | done].
    + rewrite (OnRanPostedTask_null _ _ _ Hrec) in Hfire.
      injection Hfire as <- <-. simpl. tauto.
Qed.

(** C3: cancel(id) on a delayed task returns success if and only if the
    record exists with a non-empty callback; it then clears the callback and
    the callback never runs; on an emptied record or an unknown id it returns
    failure and changes nothing; and after one success no later cancel of
    that task succeeds, whatever the loop delivers before the task's own
    timer notification. *)
Theorem C3_cancel_delayed_task (s : BaseMessageLoop) (task_id : Z) :
  wf s ->
  io_tasks_ s !! task_id = None ->
  let r := CancelTask task_id s in
  (r.1 = true <->
   exists c, delayed_tasks_ s !! task_id = Some (mkDelayedTask task_id (Some c))) /\
  (r.1 = false -> r.2 = s) /\
  (r.1 = true ->
   r.2 = set_delayed_tasks
           (<[task_id := mkDelayedTask task_id None]> (delayed_tasks_ s)) s /\
   OnRanPostedTask task_id r.2 =
     Ret (set_delayed_tasks (delete task_id (delayed_tasks_ s)) s, []) /\
   CancelTask task_id r.2 = (false, r.2) /\
   forall blocking pending s' t,
     ~ In (TimerFired task_id) pending ->
     drive blocking pending r.2 = Ret (s', t) ->
     Forall (spares task_id) t /\
     CancelTask task_id s' = (false, s') /\
     OnRanPostedTask task_id s' =
       Ret (set_delayed_tasks (delete task_id (delayed_tasks_ s')) s', [])).
Proof.
  intros Hwf Hio r. subst r. rewrite CancelTask_spec.
  destruct (wf_no_null_key s Hwf) as [Hnull _].
  case_decide as Hz.
  { subst. rewrite Hnull. simpl. split; [|done]. split; [done|]. by intros [c Hc]. }
  destruct (delayed_tasks_ s !! task_id) as [[i [c|]]|] eqn:E; rewrite ?Hio; simpl.
  - destruct (wf_delayed s Hwf _ _ E) as [_ Hi]. simpl in Hi. subst i.
    split; [split; eauto|]. split; [done|]. intros _.
    set (s1 := set_delayed_tasks _ s).
    assert (delayed_tasks_ s1 !! task_id = Some (mkDelayedTask task_id None)) as H1
      by apply lookup_insert_eq.
    split; [done|]. split.
    { rewrite (OnRanPostedTask_null _ _ _ H1). subst s1. simpl.
      unfold set_delayed_tasks. simpl. by rewrite delete_insert_eq. }
    assert (forall x, delayed_tasks_ x !! task_id = Some (mkDelayedTask task_id None) ->
                      CancelTask task_id x = (false, x)) as Hfail.
    { intros x Hx. rewrite CancelTask_spec, Hx. by case_decide. }
    split; [by apply Hfail|].
    intros blocking pending s' t Hnot Hdrive.
    assert (wf s1) as Hwf1.
    { pose proof (wf_CancelTask task_id s Hwf) as Hw.
      rewrite CancelTask_spec, E in Hw. by case_decide. }
    destruct (drive_cleared _ _ _ _ _ _ _ Hwf1 H1 Hnot Hdrive) as [Ht Hs'].
    split; [done|]. split; [by apply Hfail | by eapply OnRanPostedTask_null].
  - split; [|done]. split; [done|]. intros [c Hc]. done.
  - split; [|done]. split; [done|]. intros [c Hc]. done.
Qed.

(** C4: every task id that PostDelayedTask or WatchFileDescriptor hands out
    for a task is not the null id and, when it is allocated, is a key of
    neither store (the null id is what they return instead exactly when the
    registration is rejected); both return whenever there is room for one
    more record.  Hence at any instant, between two calls, in the middle of
    RunOnce or inside a callback, no id is bound to more than one live
    record, and the null id to none. *)
Theorem C4_task_ids_fresh_and_unique (s : BaseMessageLoop) :
  instant s ->
  (forall k, delayed_tasks_ s !! k = None \/ io_tasks_ s !! k = None) /\
  absent kTaskIdNull s /\
  (forall tid s1, NextTaskId s = Ret (tid, s1) ->
     tid <> kTaskIdNull /\ absent tid s) /\
  (has_room s -> exists tid, NextTaskId s = Ret (tid, set_last_id tid s)) /\
  (forall task delay, has_room s ->
     exists tid s1, PostDelayedTask task delay s = Ret (tid, s1)) /\
  (forall task delay tid s1,
     PostDelayedTask task delay s = Ret (tid, s1) ->
     (tid = kTaskIdNull <-> accepts_tasks (base_loop_ s) = false) /\
     (tid <> kTaskIdNull ->
      absent tid s /\
      delayed_tasks_ s1 !! tid = Some (mkDelayedTask tid task) /\
      io_tasks_ s1 !! tid = None)) /\
  (forall fd mode persistent task, has_room s ->
     exists tid s1, WatchFileDescriptor fd mode persistent task s = Ret (tid, s1)) /\
  (forall fd mode persistent task tid s1,
     WatchFileDescriptor fd mode persistent task s = Ret (tid, s1) ->
     (tid = kTaskIdNull <->
      fd < 0 \/ base_mode_of mode = None \/ can_watch (base_loop_ s) fd = false) /\
     (tid <> kTaskIdNull ->
      absent tid s /\
      (exists base_mode,
         io_tasks_ s1 !! tid = Some (mkIOTask tid persistent task (fd, base_mode))) /\
      delayed_tasks_ s1 !! tid = None)).
Proof.
  intros Hinst. pose proof (instant_wf s Hinst) as Hwf.
  split; [apply Hwf|]. split; [by apply wf_no_null_key|].
  split; [|split; [apply NextTaskId_returns|split; [|split; [|split]]]].
  - intros tid s1 [(Hr & Hd & Hio) _]%NextTaskId_spec.
    split; [unfold kTaskIdNull; lia | done].
  - intros task delay Hroom.
    destruct (PostDelayedTask_returns task delay s Hroom) as (tid & s1 & E & _).
    eauto.
  - intros task delay tid s1 (fresh & (Hr & Hd & Hio) & H)%PostDelayedTask_spec.
    destruct (accepts_tasks _); destruct H as [-> ->].
    + split; [split; [unfold kTaskIdNull; lia | done]|].
      intros _. split; [done|]. simpl. by rewrite lookup_insert_eq.
    + done.
  - intros fd mode pers task Hroom.
    destruct (WatchFileDescriptor_returns fd mode pers task s Hroom)
      as (tid & s1 & E & _).
    eauto.
  - intros fd mode pers task tid s1 H.
    apply WatchFileDescriptor_spec in H
      as [(-> & -> & [Hfd|Hm])|(fresh & bm & Hfd & Hm & (Hr & Hd & Hio) & H)].
    + split; [split; auto | done].
    + split; [split; auto | done].
    + destruct (can_watch _ _); destruct H as [-> ->].
      * split.
        { split; [unfold kTaskIdNull; lia|].
          intros [Hneg|[Hnone|Hno]]; [lia|congruence|done]. }
        intros _. split; [done|]. simpl. rewrite lookup_insert_eq. eauto.
      * split; [split; auto | done].
Qed.

(** C5: a rejected registration -- PostDelayedTask when the timer primitive
    refuses to arm, WatchFileDescriptor with a negative descriptor, a mode
    that is neither read nor write, or a refused subscription -- returns the
    null id and leaves both stores as they were. *)
Theorem C5_rejected_registration (s : BaseMessageLoop) :
  (forall task delay,
     accepts_tasks (base_loop_ s) = false -> has_room s ->
     exists s1, PostDelayedTask task delay s = Ret (kTaskIdNull, s1) /\
       delayed_tasks_ s1 = delayed_tasks_ s /\ io_tasks_ s1 = io_tasks_ s) /\
  (forall fd mode persistent task,
     fd < 0 \/ base_mode_of mode = None ->
     WatchFileDescriptor fd mode persistent task s = Ret (kTaskIdNull, s)) /\
  (forall fd mode persistent task,
     can_watch (base_loop_ s) fd = false -> has_room s ->
     exists s1,
       WatchFileDescriptor fd mode persistent task s = Ret (kTaskIdNull, s1) /\
       delayed_tasks_ s1 = delayed_tasks_ s /\ io_tasks_ s1 = io_tasks_ s).
Proof.
  split; [|split].
  - intros task delay Hrej Hroom.
    destruct (PostDelayedTask_returns task delay s Hroom) as (tid & s1 & Hp & _).
    pose proof Hp as (fresh & _ & H)%PostDelayedTask_spec.
    rewrite Hrej in H. destruct H as [-> ->]. eauto.
  - intros fd mode pers task Hrej. unfold WatchFileDescriptor.
    destruct Hrej as [Hfd|Hm].
    + apply Z.ltb_lt in Hfd. by rewrite Hfd.
    + destruct (fd <? 0); [done|]. by destruct mode.
  - intros fd mode pers task Hrej Hroom.
    destruct (WatchFileDescriptor_returns fd mode pers task s Hroom)
      as (tid & s1 & Hp & _).
    pose proof Hp as [(-> & -> & _)|(fresh & bm & _ & _ & _ & H)]%WatchFileDescriptor_spec;
      [eauto|].
    rewrite Hrej in H. destruct H as [-> ->]. eauto.
Qed.


(** C7: each readiness firing of a persistent watch invokes the callback and
    leaves the record in the store, so the watch keeps firing on repeated
    readiness until it is cancelled; once cancel(id) has succeeded the record
    and its subscription are gone and the callback is not started any more,
    however long the descriptor stays ready (the id names this watch for as
    long as no new registration is handed the same id). *)
Theorem C7_persistent_watch
    (s : BaseMessageLoop) (task_id fd : Z) (self : IOTask) (c : Closure) :
  wf s ->
  io_tasks_ s !! task_id = Some self ->
  persistent_ self = true ->
  closure_ self = Some c ->
  OnFileReady task_id fd s =
    (do (s2, t) <- run_closure c s;
     Ret (stop_if_run_once s2, EvRun task_id :: t)) /\
  (forall n, allocs_at_most n c ->
     Z.of_nat (NextTaskId_fuel s + n) <= TaskId_modulus ->
     exists s' t, OnFileReady task_id fd s = Ret (s', EvRun task_id :: t)) /\
  (forall s' t, OnFileReady task_id fd s = Ret (s', t) ->
     never (cancels task_id) t -> io_tasks_ s' !! task_id = Some self) /\
  (forall blocking n s' t,
     drive blocking (replicate n (FileReady task_id)) s = Ret (s', t) ->
     never (cancels task_id) t ->
     quit_called (base_loop_ s') = false ->
     List.filter is_run t = replicate n (EvRun task_id) /\
     io_tasks_ s' !! task_id = Some self) /\
  (let r := CancelTask task_id s in
   r.1 = true /\
   r.2 = set_io_tasks (delete task_id (io_tasks_ s)) s /\
   io_tasks_ r.2 !! task_id = None /\
   (forall n, drive false (replicate n (FileReady task_id)) r.2 = Ret (r.2, [])) /\
   (forall blocking pending s' t,
      drive blocking pending r.2 = Ret (s', t) ->
      Forall (spares task_id) (upto (registers task_id) t))).
Proof.
  intros Hwf Hrec Hp Hc.
  destruct (wf_io s Hwf _ _ Hrec) as [Hrange Hid].
  pose proof (OnFileReady_persistent task_id fd self c s Hrec Hp Hc) as Heq.
  rewrite Hid in Heq.
  split; [done|]. split; [|split; [|split]].
  - intros n Hn Hcap. rewrite Heq.
    destruct (run_closure_returns n c Hn s Hcap) as (s2 & t & ->).
    simpl. eauto.
  - intros s' t Hfire Hnever. rewrite Heq in Hfire.
    apply bind_Ret_inv in Hfire as ([s2 t2] & Hrun & [= <- <-]).
    destruct (stop_if_run_once_stores s2) as [_ ->].
    eapply record_stays_until_cancelled; [exact Hrec|exact Hrun|].
    unfold never in *. simpl in Hnever. done.
  - intros blocking n s' t. by apply (persistent_keeps_firing task_id self c).
  - assert (CancelTask task_id s
            = (true, set_io_tasks (delete task_id (io_tasks_ s)) s)) as ->.
    { rewrite CancelTask_spec. case_decide as Hz; [unfold kTaskIdNull in Hz; lia|].
      destruct (wf_unique s Hwf task_id) as [->|Hx]; [|congruence].
      by rewrite Hrec. }
    simpl. split; [done|]. split; [done|].
    assert (delete task_id (io_tasks_ s) !! task_id = None) as Hgone
      by apply lookup_delete_eq.
    split; [done|]. split; [intros n; by apply drive_unsubscribed|].
    intros blocking pending s' t Hdrive.
    eapply drive_absent_until; [by apply wf_erase_io| |exact Hdrive].
    split; simpl; [|done]. destruct (wf_unique s Hwf task_id); [done|congruence].
Qed.

(** *** The scenarios of the specification, run on the model *)

(** A delayed task scheduled on a fresh loop runs exactly once when its
    timer fires, and its id cannot be cancelled afterwards. *)
Example delayed_task_runs_once :
  let s1 := mkLoop (<[1 := mkDelayedTask 1 (Some Return)]> ∅) ∅ 1 false accepting_base in
  let s2 := mkLoop ∅ ∅ 1 false accepting_base in
  PostDelayedTask (Some Return) 0 (new_loop accepting_base) = Ret (1, s1) /\
  base_RunUntilIdle [TimerFired 1] s1 = Ret (s2, [EvRun 1]) /\
  CancelTask 1 s2 = (false, s2).
Proof. vm_compute. repeat split; reflexivity. Qed.

(** A persistent watch fires at each of two RunOnce calls and is still
    there afterwards. *)
Example persistent_watch_fires_twice :
  let s1 :=
    mkLoop ∅ (io_tasks_ loop_with_persistent) 1 false
      (mkBase true (can_watch accepting_base) true) in
  RunOnce true [FileReady 1] loop_with_persistent = Ret (true, s1, [EvRun 1]) /\
  RunOnce true [FileReady 1] s1 = Ret (true, s1, [EvRun 1]).
Proof. vm_compute. split; reflexivity. Qed.

(** A one-shot watch whose callback cancels its own id: the cancel fails
    and a second readiness report starts nothing. *)
Example one_shot_watch_self_cancel :
  let s1 := mkLoop ∅ ∅ 1 false (mkBase true (can_watch accepting_base) true) in
  let s2 := mkLoop ∅ ∅ 1 false (mkBase true (can_watch accepting_base) false) in
  RunOnce false [FileReady 1; FileReady 1] loop_with_one_shot
  = Ret (true, s1, [EvRun 1; EvCancel 1 false]) /\
  RunOnce false [FileReady 1] s1 = Ret (false, s2, []).
Proof. vm_compute. split; reflexivity. Qed.

(** Cancelling a delayed task before its timer fires keeps its callback from
    running; the second cancel fails. *)
Example cancelled_delayed_task_never_runs :
  let s1 := mkLoop (<[1 := mkDelayedTask 1 None]> ∅) ∅ 1 false accepting_base in
  let s2 := mkLoop ∅ ∅ 1 false accepting_base in
  CancelTask 1 loop_with_delayed = (true, s1) /\
  CancelTask 1 s1 = (false, s1) /\
  base_RunUntilIdle [TimerFired 1] s1 = Ret (s2, []).
Proof. vm_compute. repeat split; reflexivity. Qed.

(** *** The theorems at sample loops *)

#[local] Transparent TaskId_modulus.

Lemma reachable_loop_with_delayed : reachable loop_with_delayed.
Proof.
  apply (reachable_call (CallPostDelayedTask (Some cancel_1) 0)
           (new_loop accepting_base)); [apply reachable_new|].
  vm_compute. reflexivity.
Qed.

Lemma reachable_loop_with_one_shot : reachable loop_with_one_shot.
Proof.
  apply (reachable_call (CallWatchFileDescriptor 3 kWatchRead false (Some cancel_1))
           (new_loop accepting_base)); [apply reachable_new|].
  vm_compute. reflexivity.
Qed.

Lemma reachable_loop_with_persistent : reachable loop_with_persistent.
Proof.
  apply (reachable_call (CallWatchFileDescriptor 3 kWatchRead true (Some Return))
           (new_loop accepting_base)); [apply reachable_new|].
  vm_compute. reflexivity.
Qed.

Lemma C1_witness :
  wf loop_with_one_shot /\
  OnFileReady 1 3 loop_with_one_shot =
    Ret (mkLoop ∅ ∅ 1 false accepting_base, [EvRun 1; EvCancel 1 false]) /\
  CancelTask 1 (mkLoop ∅ (delete 1 (io_tasks_ loop_with_one_shot)) 1 false accepting_base)
  = (false, mkLoop ∅ (delete 1 (io_tasks_ loop_with_one_shot)) 1 false accepting_base).
Proof.
  pose proof (reachable_wf _ reachable_loop_with_one_shot) as Hwf.
  split; [exact Hwf|].
  destruct (C1_one_shot_watch_fire_amended loop_with_one_shot 1 3
              (mkIOTask 1 false (Some cancel_1) (3, WATCH_READ)) cancel_1
              Hwf eq_refl eq_refl eq_refl) as (Hfire & _ & Hcancel & _).
  split; [|exact Hcancel].
  rewrite Hfire. vm_compute. reflexivity.
Defined.

Lemma C2_witness :
  delayed_tasks_ loop_with_delayed !! 1 = Some (mkDelayedTask 1 (Some cancel_1)) /\
  forall s' t, OnRanPostedTask 1 loop_with_delayed = Ret (s', t) ->
    ~ In (EvCancel 1 true) t /\ delayed_tasks_ s' !! 1 = None.
Proof.
  split; [reflexivity|].
  apply (C2_delayed_task_fire loop_with_delayed 1
           (mkDelayedTask 1 (Some cancel_1)) eq_refl).
Defined.

Lemma C3_witness :
  wf loop_with_delayed /\
  io_tasks_ loop_with_delayed !! 1 = None /\
  ((CancelTask 1 loop_with_delayed).1 = true <->
   exists c, delayed_tasks_ loop_with_delayed !! 1
             = Some (mkDelayedTask 1 (Some c))).
Proof.
  pose proof (reachable_wf _ reachable_loop_with_delayed) as Hwf.
  split; [exact Hwf|]. split; [reflexivity|].
  apply (C3_cancel_delayed_task loop_with_delayed 1 Hwf eq_refl).
Defined.

Lemma C4_witness :
  let s := set_run_once true loop_with_delayed in
  instant s /\
  (exists tid s1,
     PostDelayedTask (Some Return) 0 s = Ret (tid, s1) /\
     tid <> kTaskIdNull /\ absent tid s /\
     delayed_tasks_ s1 !! tid = Some (mkDelayedTask tid (Some Return))) /\
  (exists tid s1,
     WatchFileDescriptor 3 kWatchRead true (Some Return) s = Ret (tid, s1) /\
     tid <> kTaskIdNull /\ absent tid s /\ delayed_tasks_ s1 !! tid = None).
Proof.
  intros s.
  assert (instant s) as Hinst.
  { apply instant_run_once.
    apply (instant_PostDelayedTask (Some cancel_1) 0 (new_loop accepting_base) 1);
      [apply instant_new|].
    vm_compute. reflexivity. }
  assert (has_room s) as Hroom by (unfold has_room; vm_compute; discriminate).
  split; [exact Hinst|].
  destruct (C4_task_ids_fresh_and_unique s Hinst)
    as (_ & _ & _ & _ & HpostR & Hpost & HwatchR & Hwatch).
  split.
  - destruct (HpostR (Some Return) 0 Hroom) as (tid & s1 & E).
    destruct (Hpost _ _ _ _ E) as (Hnull & Hrec).
    assert (tid <> kTaskIdNull) as Hne.
    { intros Hz. apply Hnull in Hz. discriminate Hz. }
    destruct (Hrec Hne) as (Habs & Hd & _).
    exists tid, s1. split; [exact E|]. split; [exact Hne|].
    split; [exact Habs | exact Hd].
  - destruct (HwatchR 3 kWatchRead true (Some Return) Hroom) as (tid & s1 & E).
    destruct (Hwatch _ _ _ _ _ _ E) as (Hnull & Hrec).
    assert (tid <> kTaskIdNull) as Hne.
    { intros Hz. apply Hnull in Hz. destruct Hz as [Hz|[Hz|Hz]]; [|discriminate Hz..].
      revert Hz. apply Z.le_ngt. discriminate. }
    destruct (Hrec Hne) as (Habs & _ & Hd).
    exists tid, s1. split; [exact E|]. split; [exact Hne|].
    split; [exact Habs | exact Hd].
Defined.

(** Registrations that the underlying loop refuses use up ids all the
    same. *)
Lemma reachable_counting (n : nat) :
  1 + Z.of_nat n < TaskId_modulus ->
  reachable (mkLoop ∅ (<[1 := one_shot_1]> ∅) (1 + Z.of_nat n) false refusing_base).
Proof.
  induction n as [|n IH]; intros Hn.
  - apply (reachable_call (BaseChanges refusing_base)
             (mkLoop ∅ (<[1 := one_shot_1]> ∅) 1 false accepting_base));
      [|reflexivity].
    apply (reachable_call
             (CallWatchFileDescriptor 3 kWatchRead false (Some watch_then_cancel_1))
             (new_loop accepting_base)); [apply reachable_new|].
    vm_compute. reflexivity.
  - apply (reachable_call (CallPostDelayedTask None 0)
             (mkLoop ∅ (<[1 := one_shot_1]> ∅) (1 + Z.of_nat n) false refusing_base));
      [apply IH; lia|].
    unfold call, PostDelayedTask.
    rewrite (NextTaskId_no_wrap 0).
    + cbn [bind set_last_id base_loop_ accepts_tasks refusing_base negb
             delayed_tasks_ io_tasks_ last_id_ run_once_].
      unfold set_last_id. cbn [delayed_tasks_ io_tasks_ run_once_ base_loop_].
      do 2 f_equal. lia.
    + split; [|cbn [last_id_]; lia].
      intros k [[x Hk]|[x Hk]]; cbn [delayed_tasks_ io_tasks_ last_id_] in *.
      * by rewrite lookup_empty in Hk.
      * apply lookup_insert_Some in Hk as [[<- _]|[_ Hk]]; [lia|].
        by rewrite lookup_empty in Hk.
Qed.

Lemma reachable_loop_about_to_wrap : reachable loop_about_to_wrap.
Proof.
  assert (1 + Z.of_nat (Z.to_nat (TaskId_modulus - 2)) = TaskId_modulus - 1) as E.
  { rewrite Z2Nat.id; [lia|]. pose proof TaskId_modulus_pos. lia. }
  pose proof (reachable_counting (Z.to_nat (TaskId_modulus - 2))) as H.
  rewrite E in H.
  apply (reachable_call (BaseChanges accepting_base) _ _ (H ltac:(lia))).
  reflexivity.
Qed.

(** C1 does not hold as written: the id counter stands at its last value, so
    the watch that the callback of the one-shot watch 1 registers is handed
    id 1 again, and the cancel of id 1 that the callback makes next
    succeeds. *)
Lemma C1_counterexample :
  reachable loop_about_to_wrap /\
  io_tasks_ loop_about_to_wrap !! 1 = Some one_shot_1 /\
  persistent_ one_shot_1 = false /\
  closure_ one_shot_1 = Some watch_then_cancel_1 /\
  OnFileReady 1 3 loop_about_to_wrap
  = Ret (mkLoop ∅ ∅ 1 false accepting_base,
         [EvRun 1; EvWatch 1; EvCancel 1 true]).
Proof.
  split; [exact reachable_loop_about_to_wrap|].
  vm_compute. repeat split; reflexivity.
Qed.

Lemma has_room_new_loop base : has_room (new_loop base).
Proof. unfold has_room. vm_compute. discriminate. Qed.

Lemma C5_witness :
  accepts_tasks (base_loop_ (new_loop refusing_base)) = false /\
  has_room (new_loop refusing_base) /\
  (exists s1,
     PostDelayedTask (Some Return) 0 (new_loop refusing_base) = Ret (kTaskIdNull, s1) /\
     delayed_tasks_ s1 = ∅ /\ io_tasks_ s1 = ∅) /\
  WatchFileDescriptor (-1) kWatchRead false (Some Return) (new_loop refusing_base)
  = Ret (kTaskIdNull, new_loop refusing_base) /\
  (exists s1,
     WatchFileDescriptor 3 kWatchRead false (Some Return) (new_loop refusing_base)
     = Ret (kTaskIdNull, s1) /\
     delayed_tasks_ s1 = ∅ /\ io_tasks_ s1 = ∅).
Proof.
  destruct (C5_rejected_registration (new_loop refusing_base)) as (Hpost & Hbad & Hwatch).
  split; [reflexivity|]. split; [apply has_room_new_loop|]. split; [|split].
  - apply (Hpost (Some Return) 0 eq_refl (has_room_new_loop _)).
  - apply (Hbad (-1) kWatchRead false (Some Return)). left. reflexivity.
  - apply (Hwatch 3 kWatchRead false (Some Return) eq_refl (has_room_new_loop _)).
Defined.


Lemma C7_witness :
  wf loop_with_persistent /\
  OnFileReady 1 3 loop_with_persistent = Ret (loop_with_persistent, [EvRun 1]) /\
  (CancelTask 1 loop_with_persistent).1 = true /\
  forall n,
    drive false (replicate n (FileReady 1)) (CancelTask 1 loop_with_persistent).2
    = Ret ((CancelTask 1 loop_with_persistent).2, []).
Proof.
  pose proof (reachable_wf _ reachable_loop_with_persistent) as Hwf.
  split; [exact Hwf|].
  destruct (C7_persistent_watch loop_with_persistent 1 3
              (mkIOTask 1 true (Some Return) (3, WATCH_READ)) Return
              Hwf eq_refl eq_refl eq_refl)
    as (Hfire & _ & _ & _ & Hcancel & _ & _ & Hquiet & _).
  split; [rewrite Hfire; vm_compute; reflexivity|].
  split; [exact Hcancel | exact Hquiet].
Defined.

End MessageLoopSpec.

(** * Further properties of the file utilities *)

Module FileUtilsLaws.
Import FileUtils FileUtilsSpec.

(** *** GetRandomSuffix *)

Lemma suffix_char_alnum b : is_alnum (suffix_char b) = true.
Proof.
  unfold suffix_char.
  pose proof (Z.mod_pos_bound b (2 * 26 + 10) ltac:(lia)) as Hr.
  set (r := b mod (2 * 26 + 10)) in *. clearbody r.
  assert (forallb (fun r => is_alnum
            (if r <? 26 then ascii_of_nat (Z.to_nat (97 + r))
             else if r <? 2 * 26 then ascii_of_nat (Z.to_nat (65 + r - 26))
             else ascii_of_nat (Z.to_nat (48 + r - 2 * 26))))
            (seqZ 0 62) = true) as Hall by (vm_compute; reflexivity).
  rewrite forallb_forall in Hall. apply Hall.
  apply list_elem_of_In, elem_of_seqZ. lia.
Qed.

Lemma RandBytes_rand n : forall os,
  rand_bytes (RandBytes n os).2 = drop n (rand_bytes os).
Proof.
  induction n as [|n IH]; intros os; simpl; [by rewrite drop_0|].
  destruct (rand_bytes os) as [|b rest] eqn:E.
  - specialize (IH os). destruct (RandBytes n os) as [bs os2]. simpl in *.
    by rewrite IH, E, drop_nil.
  - specialize (IH (set_rand_bytes rest os)).
    by destruct (RandBytes n (set_rand_bytes rest os)) as [bs os2].
Qed.

(** X1: GetRandomSuffix answers six characters, each a letter or a digit,
    so never the empty string; it uses up six random bytes and makes no call
    that the system could refuse or that changes a file. *)
Theorem X1_GetRandomSuffix (os : Os) :
  String.length (GetRandomSuffix os).1 = 6%nat /\
  forallb is_alnum (list_ascii_of_string (GetRandomSuffix os).1) = true /\
  is_empty (GetRandomSuffix os).1 = false /\
  files (GetRandomSuffix os).2 = files os /\
  history (GetRandomSuffix os).2 = history os /\
  fates (GetRandomSuffix os).2 = fates os /\
  rand_bytes (GetRandomSuffix os).2 = drop 6 (rand_bytes os).
Proof.
  destruct (GetRandomSuffix os) as [suffix os1] eqn:E.
  pose proof (GetRandomSuffix_inv _ _ _ E) as (Hlen & Hf & Hh & _ & Hfa).
  simpl. split; [done|]. split; [|split; [by destruct suffix|]].
  - unfold GetRandomSuffix in E. destruct (RandBytes 6 os) as [buffer os2].
    injection E as <- <-. rewrite list_ascii_of_string_of_list_ascii.
    apply forallb_forall. intros c (b & <- & _)%in_map_iff. apply suffix_char_alnum.
  - split; [done|]. split; [done|]. split; [done|].
    unfold GetRandomSuffix in E. pose proof (RandBytes_rand 6 os) as Hr.
    destruct (RandBytes 6 os) as [buffer os2]. by injection E as <- <-.
Qed.

(** *** TouchFile *)

(** The permissions that pass the test of [TouchFile]. *)
Lemma legal_permissions perms :
  Z.land perms (Z.lnot kPermissions777) = 0 <-> 0 <= perms <= kPermissions777.
Proof.
  unfold kPermissions777. change 511 with (Z.ones 9).
  rewrite <- Z.ldiff_land, Z.ldiff_ones_r by lia.
  rewrite Z.shiftl_eq_0_iff by lia. rewrite Z.shiftr_div_pow2 by lia.
  change (Z.ones 9) with 511. change (2 ^ 9) with 512.
  split.
  - intros H. apply Z.div_small_iff in H; lia.
  - intros H. apply Z.div_small. lia.
Qed.






Section TouchFileCases.
Context `{FilePathOps}.

(** X2: TouchFile accepts the permissions 0 to 0777 only: for any other
    value it reports failure without making a single call to the system. *)
Theorem X2_TouchFile_illegal_permissions
    (path : string) (perms uid gid : Z) (os : Os) :
  perms < 0 \/ kPermissions777 < perms ->
  TouchFile path perms uid gid os = (false, os).
Proof.
  intros Hbad. unfold TouchFile.
  destruct (Z.eqb_spec (Z.land perms (Z.lnot kPermissions777)) 0) as [E|E]; [|done].
  apply legal_permissions in E. lia.
Qed.






(** X5: when the system refuses to open the path for a reason other than
    ELOOP, RegularFileOrDelete answers kEmpty without deleting anything; if
    something is at the path, TouchFile then fails to create the file and
    what was at the path stays there. *)
Theorem X5_open_refused
    (path : string) (perms uid gid : Z) (os : Os) (e : Errno) (rest : list Fate)
    (i : Inode) :
  fates os = Fail e :: rest ->
  e <> ELOOP ->
  files os !! path = Some i ->
  RegularFileOrDelete path uid gid os = (kEmpty, set_fates rest os) /\
  (TouchFile path perms uid gid os).1 = false /\
  files (TouchFile path perms uid gid os).2 !! path = Some i.
Proof.
  intros Hfates He Hi.
  assert (RegularFileOrDelete path uid gid os = (kEmpty, set_fates rest os)) as Er.
  { unfold RegularFileOrDelete, open_nofollow, next_fate. rewrite Hfates.
    by destruct e. }
  split; [done|].
  unfold TouchFile. destruct (negb _); [done|].
  unfold TouchFileInternal. rewrite Er.
  destruct (CreateDirectory (DirName path) (set_fates rest os)) as [made os2] eqn:Ec.
  apply CreateDirectory_inv in Ec as (_ & _ & _ & Hdir).
  assert (files os2 !! path = Some i) as Hi2.
  { destruct Hdir as [->|(d & Hnone & ->)]; [done|].
    simpl in Hnone. rewrite lookup_insert_ne; [done|]. intros E. congruence. }
  destruct made; simpl; [|done].
  destruct (open_creat_excl path kPermissions600 os2) as [scoped_fd os3] eqn:Eo.
  apply open_creat_excl_inv in Eo as (_ & _ & Hopen).
  destruct scoped_fd as [e'|fd]; simpl.
  - destruct Hopen as [-> _]. done.
  - destruct Hopen as (_ & _ & Hfree & _). congruence.
Qed.


(** X19: TouchFile is not all or nothing: when a regular file that belongs
    to someone else is at the path, TouchFile deletes it first; if making
    the directory is then refused, TouchFile reports failure and the file
    that was at the path is gone. *)
Theorem X19_TouchFile_fails_after_delete
    (path : string) (perms uid gid : Z) (os : Os) (i : Inode) (e : Errno)
    (rest : list Fate) :
  0 <= perms <= kPermissions777 ->
  path <> "" ->
  files os !! path = Some i -> S_ISREG i = true ->
  st_uid i <> uid \/ st_gid i <> gid ->
  fates os = Succeed :: Succeed :: Succeed :: Fail e :: rest ->
  TouchFile path perms uid gid os
  = (false, set_fates rest (set_files (delete path (files os)) os)).
Proof.
  intros Hperm Hne Hi Hreg Howner Hfates.
  assert (is_empty path = false) as Hne'.
  { destruct (is_empty path) eqn:Ee; [|done]. by apply is_empty_true in Ee. }
  assert (is_symlink i = false /\ is_dir i = false) as [Hsym Hdir].
  { unfold is_symlink, is_dir, S_ISREG in *. by destruct (st_type i). }
  assert ((st_uid i =? uid) && (st_gid i =? gid) = false) as Hmatch.
  { apply andb_false_iff. destruct Howner; [left|right]; by apply Z.eqb_neq. }
  unfold TouchFile. apply legal_permissions in Hperm. rewrite Hperm. simpl.
  unfold TouchFileInternal, RegularFileOrDelete.
  unfold open_nofollow, next_fate at 1. rewrite Hfates. simpl.
  rewrite Hne', Hi, Hsym.
  unfold fstat, next_fate at 1. simpl. rewrite Hi, Hreg. simpl. rewrite Hmatch.
  unfold DeleteFile, next_fate at 1. simpl. rewrite Hi, Hdir. simpl.
  unfold CreateDirectory, next_fate. simpl. done.
Qed.
End TouchFileCases.

(** *** WriteToFileAtomic *)

Lemma next_fate_rand os fate os1 :
  next_fate os = (fate, os1) -> rand_bytes os1 = rand_bytes os.
Proof.
  unfold next_fate. by destruct (fates os); intros [= <- <-].
Qed.

Lemma DirectoryExists_rand dir os b os1 :
  DirectoryExists dir os = (b, os1) -> rand_bytes os1 = rand_bytes os.
Proof.
  unfold DirectoryExists. destruct (next_fate os) as [fate os0] eqn:E.
  apply next_fate_rand in E. by destruct fate; intros [= <- <-].
Qed.

Lemma CreateDirectory_rand dir os b os1 :
  CreateDirectory dir os = (b, os1) -> rand_bytes os1 = rand_bytes os.
Proof.
  unfold CreateDirectory. destruct (next_fate os) as [fate os0] eqn:E.
  apply next_fate_rand in E.
  destruct fate, (stat_follow 40 dir (files os0)), (files os0 !! dir);
    by intros [= <- <-].
Qed.

(** The suffix depends on the random bytes only. *)
Lemma RandBytes_ext n : forall os os',
  rand_bytes os = rand_bytes os' -> (RandBytes n os).1 = (RandBytes n os').1.
Proof.
  induction n as [|n IH]; intros os os' E; simpl; [done|].
  rewrite <- E. destruct (rand_bytes os) as [|b rest] eqn:Er.
  - assert (rand_bytes os = rand_bytes os') as E' by congruence.
    specialize (IH os os' E').
    destruct (RandBytes n os), (RandBytes n os'). simpl in *. congruence.
  - specialize (IH (set_rand_bytes rest os) (set_rand_bytes rest os') eq_refl).
    destruct (RandBytes n (set_rand_bytes rest os)),
      (RandBytes n (set_rand_bytes rest os')). simpl in *. congruence.
Qed.

Lemma GetRandomSuffix_ext os os' :
  rand_bytes os = rand_bytes os' -> (GetRandomSuffix os).1 = (GetRandomSuffix os').1.
Proof.
  intros E. unfold GetRandomSuffix. pose proof (RandBytes_ext 6 os os' E) as Hb.
  destruct (RandBytes 6 os), (RandBytes 6 os'). simpl in *. congruence.
Qed.

Section WriteToFileAtomicCases.
Context `{FilePathOps}.

(** When every write went through, the temporary file is the one the loop
    started with, holding the data. *)
Lemma write_loop_inode temp data fuel : forall position os os' i,
  write_loop fuel temp temp data position os = Some (true, os') ->
  (position <= length data)%nat ->
  files os !! temp = Some i -> i_data i = take position data ->
  files os' !! temp =
    Some (mkInode (st_type i) (st_mode i) (st_uid i) (st_gid i) data (i_target i)).
Proof.
  induction fuel as [|fuel IH]; intros position os os' i Hloop Hpos Hi Hdata;
    simpl in Hloop;
    destruct (Nat.ltb_spec position (length data)) as [Hlt|Hge]; try done.
  - injection Hloop as <-. rewrite Hi. f_equal. destruct i. simpl in *.
    by rewrite Hdata, take_ge.
  - destruct (write temp (drop position data) os) as [n os1] eqn:Ew.
    apply write_inv in Ew as (_ & Hw).
    destruct Hw as [(-> & _)|(k & -> & Hf1 & _)].
    + simpl in Hloop. by destruct (close temp os1), (unlink temp _).
    + destruct (Z.ltb_spec (Z.of_nat (length (take k (drop position data)))) 0)
        as [Hneg|_]; [lia|].
      rewrite Nat2Z.id in Hloop. rewrite Hi in Hf1.
      destruct (take_step data position k Hpos) as [Htake Hpos'].
      apply (IH _ _ _ (append_data (take k (drop position data)) i) Hloop Hpos').
      * rewrite Hf1. apply lookup_insert_eq.
      * simpl. by rewrite Hdata.
  - injection Hloop as <-. rewrite Hi. f_equal. destruct i. simpl in *.
    by rewrite Hdata, take_ge.
Qed.

(** The permission bits of a mode less the umask. *)
Lemma creation_mode_bits mode mask :
  Z.land (Z.land (Z.land mode 4095) (Z.lnot mask)) 511
  = Z.land (Z.land mode 511) (Z.lnot mask).
Proof.
  rewrite <- (Z.land_assoc _ (Z.lnot mask) 511), (Z.land_comm (Z.lnot mask) 511).
  rewrite (Z.land_assoc _ 511 (Z.lnot mask)), <- (Z.land_assoc mode 4095 511).
  done.
Qed.

(** What a run of [WriteToFileAtomic] leaves: nothing changes but the
    destination, the temporary file and the directory of the path; on success
    the file the exclusive create made, holding the data, stands at the
    destination. *)
Lemma WriteToFileAtomic_outcome
    (fuel : nat) (path : string) (data : list Byte.byte) (mode : Z)
    (os os' : Os) (ok : bool) :
  DirName path <> path ->
  WriteToFileAtomic fuel path data mode os = Some (ok, os') ->
  let temp_name := AddExtension path (GetRandomSuffix os).1 in
  WriteBlobToFileAtomic fuel path data mode os = Some (ok, os') /\
  (forall q, q <> path -> q <> temp_name -> q <> DirName path ->
     files os' !! q = files os !! q) /\
  (ok = true ->
   temp_name <> path /\
   files os' !! temp_name = None /\
   files os' !! path =
     Some (mkInode S_IFREG (Z.land (Z.land mode 4095) (Z.lnot (umask os)))
             (euid os) (egid os) data "")).
Proof.
  intros Hdir Hrun temp_name. split; [exact Hrun|]. revert Hrun. subst temp_name.
  unfold WriteToFileAtomic.
  destruct (let (there, os0) := DirectoryExists (DirName path) os in
            if negb there then CreateDirectory (DirName path) os0 else (true, os0))
    as [dir_ok os1] eqn:Ed.
  assert (rand_bytes os1 = rand_bytes os) as Hrand.
  { destruct (DirectoryExists (DirName path) os) as [there os0] eqn:E0.
    apply DirectoryExists_rand in E0. destruct there; simpl in Ed.
    - injection Ed as _ <-. done.
    - apply CreateDirectory_rand in Ed. congruence. }
  apply directory_step_inv in Ed as (Hp1 & Hh1 & Hl1 & Hf1).
  rewrite <- (GetRandomSuffix_ext os1 os Hrand).
  destruct dir_ok; simpl; [|by intros [= <- <-]; split; [auto|done]].
  destruct (GetRandomSuffix os1) as [random_suffix os2] eqn:Eg.
  apply GetRandomSuffix_inv in Eg as (Hlen & Hf2 & Hh2 & Hp2 & Hfa2).
  assert (is_empty random_suffix = false) as Hne by by destruct random_suffix.
  rewrite Hne. simpl.
  pose proof (AddExtension_other path random_suffix Hne) as Htemp.
  set (temp_name := AddExtension path random_suffix) in *.
  assert (forall osx u osy, unlink temp_name osx = (u, osy) ->
            forall q, q <> temp_name -> files osy !! q = files osx !! q) as Hunlink.
  { intros osx u osy (_ & Hu)%unlink_inv q Hq.
    destruct Hu as [->|(_ & ->)]; [done|by rewrite lookup_delete_ne]. }
  destruct (open_creat_excl temp_name mode os2) as [fd os3] eqn:Eo.
  apply open_creat_excl_inv in Eo as (Hp3 & Hl3 & Hopen).
  destruct fd as [e|fd].
  { destruct Hopen as [Hf3 _].
    destruct (unlink temp_name os3) as [u os4] eqn:Eu.
    intros [= <- <-]. split; [|done]. intros q Hqp Hqt Hqd.
    rewrite (Hunlink _ _ _ Eu) by done. rewrite Hf3, Hf2. auto. }
  destruct Hopen as (-> & Hnonempty & Hfree & Hf3 & Hh3).
  assert (temp_name <> path) as Hother by (by destruct Htemp).
  assert (forall q, q <> temp_name -> q <> DirName path ->
            files os3 !! q = files os !! q) as Hframe3.
  { intros q Hqt Hqd. rewrite Hf3, lookup_insert_ne by done. rewrite Hf2. auto. }
  assert (files os3 !! temp_name = Some (new_file mode os2)) as Hi3
    by (rewrite Hf3; apply lookup_insert_eq).
  destruct (write_loop fuel temp_name temp_name data 0 os3) as [[written os4]|]
    eqn:Ew; [|done].
  pose proof Ew as Ew'.
  eapply write_loop_inv in Ew as (Hp4 & Hframe4 & _); [|lia|exact Hi3|done|done].
  assert (forall q, q <> temp_name -> q <> DirName path ->
            files os4 !! q = files os !! q) as Hframe4'.
  { intros q Hqt Hqd. rewrite Hframe4 by done. auto. }
  destruct written; [|intros [= <- <-]; split; [auto|done]].
  eapply write_loop_inode in Ew'; [|lia|exact Hi3|done].
  destruct (fdatasync temp_name os4) as [synced os5] eqn:Es.
  apply fdatasync_inv in Es as (Hf5 & Hp5 & Hs).
  destruct Hs as [->|(-> & Hh5)]; simpl.
  { destruct (close temp_name os5) as [c os6] eqn:Ec.
    apply close_inv in Ec as (Hf6 & _).
    destruct (unlink temp_name os6) as [u os7] eqn:Eu.
    intros [= <- <-]. split; [|done]. intros q Hqp Hqt Hqd.
    rewrite (Hunlink _ _ _ Eu) by done. rewrite Hf6, Hf5. auto. }
  destruct (close temp_name os5) as [closed os6] eqn:Ec.
  apply close_inv in Ec as (Hf6 & Hp6 & Hc).
  destruct Hc as [->|(-> & Hh6)]; simpl.
  { destruct (unlink temp_name os6) as [u os7] eqn:Eu.
    intros [= <- <-]. split; [|done]. intros q Hqp Hqt Hqd.
    rewrite (Hunlink _ _ _ Eu) by done. rewrite Hf6, Hf5. auto. }
  destruct (rename temp_name path os6) as [renamed os7] eqn:Er.
  apply rename_inv in Er as (Hp7 & Hr).
  destruct Hr as [(-> & Hf7)|(-> & j & Hj & Hf7 & Hh7)]; simpl.
  { destruct (unlink temp_name os7) as [u os8] eqn:Eu.
    intros [= <- <-]. split; [|done]. intros q Hqp Hqt Hqd.
    rewrite (Hunlink _ _ _ Eu) by done. rewrite Hf7, Hf6, Hf5. auto. }
  intros [= <- <-]. split.
  - intros q Hqp Hqt Hqd. rewrite Hf7, lookup_insert_ne by done.
    rewrite lookup_delete_ne by done. rewrite Hf6, Hf5. auto.
  - intros _. split; [done|]. split.
    + rewrite Hf7, lookup_insert_ne by done. apply lookup_delete_eq.
    + rewrite Hf7, lookup_insert_eq. rewrite Hf6, Hf5, Ew' in Hj.
      injection Hj as <-. unfold new_file. simpl.
      destruct Hp2 as (-> & -> & ->), Hp1 as (-> & -> & ->). done.
Qed.

(** X7: WriteToFileAtomic, whatever its outcome, changes nothing but the
    destination, the temporary file next to it and the directories above
    them.  On success the temporary name is free again and the destination is
    a regular file holding exactly the data, whose permission bits are those
    of the mode asked for less the umask: the contents and the permissions
    of a file that was at the destination are not kept.
    WriteBlobToFileAtomic is the same call. *)
Theorem X7_WriteToFileAtomic_result
    (fuel : nat) (path : string) (data : list Byte.byte) (mode : Z)
    (os os' : Os) (ok : bool) :
  DirName path <> path ->
  WriteToFileAtomic fuel path data mode os = Some (ok, os') ->
  let temp_name := AddExtension path (GetRandomSuffix os).1 in
  WriteBlobToFileAtomic fuel path data mode os = Some (ok, os') /\
  (forall q, q <> path -> q <> temp_name -> ~ ancestor_of path q ->
     files os' !! q = files os !! q) /\
  (ok = true ->
   temp_name <> path /\
   files os' !! temp_name = None /\
   exists i,
     files os' !! path = Some i /\ S_ISREG i = true /\ i_data i = data /\
     Z.land (st_mode i) 511 = Z.land (Z.land mode 511) (Z.lnot (umask os))).
Proof.
  intros Hdir Hrun temp_name.
  destruct (WriteToFileAtomic_outcome _ _ _ _ _ _ _ Hdir Hrun)
    as (Hblob & Hframe & Hok).
  split; [exact Hblob|]. split.
  - intros q Hqp Hqt Hqa. apply Hframe; [done|done|].
    by apply FileUtilsSpec.not_ancestor_DirName.
  - intros Htrue. destruct (Hok Htrue) as (Hne & Hfree & Hi).
    split; [done|]. split; [done|]. eexists. split; [exact Hi|].
    split; [done|]. split; [done|]. simpl. apply creation_mode_bits.
Qed.

(** X8: if something other than a directory already sits at the temporary
    name, WriteToFileAtomic cannot create its temporary file; it reports
    failure, and the unlink it makes of the temporary name removes what was
    sitting there.  (The directory of the path exists and the system lets
    the three calls through.) *)
Theorem X8_temporary_name_taken
    (fuel : nat) (path : string) (data : list Byte.byte) (mode : Z) (os : Os)
    (d i : Inode) :
  let temp_name := AddExtension path (GetRandomSuffix os).1 in
  lets_through 3 os = true ->
  stat_follow 40 (DirName path) (files os) = Some d -> is_dir d = true ->
  temp_name <> "" ->
  files os !! temp_name = Some i -> is_dir i = false ->
  exists os',
    WriteToFileAtomic fuel path data mode os = Some (false, os') /\
    files os' = delete temp_name (files os).
Proof.
  intros temp_name Hlet Hd Hdir Hne Hi Hreg.
  destruct (next_fate_lets_through _ _ Hlet) as (f1 & os1 & E1 & Hf1 & Hfiles1 & Hlet1).
  assert (DirectoryExists (DirName path) os = (true, os1)) as Edir.
  { unfold DirectoryExists. rewrite E1, Hfiles1, Hd, Hdir. by destruct f1. }
  unfold WriteToFileAtomic. rewrite Edir. simpl.
  assert ((GetRandomSuffix os1).1 = (GetRandomSuffix os).1) as Hsuffix
    by (apply GetRandomSuffix_ext; by eapply next_fate_rand).
  destruct (GetRandomSuffix os1) as [random_suffix os2] eqn:Eg.
  pose proof Eg as (Hlen & Hfiles2 & _ & _ & Hfa2)%GetRandomSuffix_inv.
  simpl in Hsuffix. subst random_suffix. fold temp_name.
  assert (is_empty (GetRandomSuffix os).1 = false) as ->
    by (by destruct (GetRandomSuffix os).1).
  assert (lets_through 2 os2 = true) as Hlet2
    by (unfold lets_through in *; by rewrite Hfa2).
  destruct (next_fate_lets_through _ _ Hlet2) as (f2 & os3 & E2 & Hf2 & Hfiles3 & Hlet3).
  assert (is_empty temp_name = false) as Hne'.
  { destruct (is_empty temp_name) eqn:Ee; [|done]. by apply is_empty_true in Ee. }
  assert (open_creat_excl temp_name mode os2 = (inl EEXIST, os3)) as ->.
  { unfold open_creat_excl. rewrite E2, Hne', Hfiles3, Hfiles2, Hfiles1, Hi.
    by destruct f2. }
  destruct (next_fate_lets_through _ _ Hlet3) as (f3 & os4 & E3 & Hf3 & Hfiles4 & _).
  assert (unlink temp_name os3
          = (0, record (SysUnlink temp_name)
                  (set_files (delete temp_name (files os4)) os4))) as ->.
  { unfold unlink. rewrite E3, Hne', Hfiles4, Hfiles3, Hfiles2, Hfiles1, Hi, Hreg.
    by destruct f3. }
  eexists. split; [done|]. simpl. congruence.
Qed.
End WriteToFileAtomicCases.

(** *** SyncFileOrDirectory *)

Lemma open_existing_inv path directory os r os1 :
  open_existing path directory os = (r, os1) ->
  quiet os os1 /\
  match r with
  | inr fd =>
      follow_links 40 path (files os) = Some fd /\
      exists i, files os !! fd = Some i /\ is_dir i = directory
  | inl _ => True
  end.
Proof.
  unfold open_existing. intros H. use_fate H.
  destruct Hq as (Hf & Hh & Hp & Hl). rewrite Hf in H.
  destruct fate; try (injection H as <- <-; done).
  all: destruct (follow_links 40 path (files os)) as [p|]; [|injection H as <- <-; done].
  all: destruct (files os !! p) as [i|] eqn:Ei; [|injection H as <- <-; done].
  all: destruct directory, (is_dir i) eqn:Ed; injection H as <- <-; try done.
  all: split; [done|]; split; [done|]; eauto.
Qed.

Lemma fsync_inv fd os r os1 :
  fsync fd os = (r, os1) ->
  files os1 = files os /\
  (r = -1 \/ (r = 0 /\ history os1 = SysSync fd :: history os)).
Proof.
  unfold fsync. intros H. use_fate H. destruct Hq as (Hf & Hh & Hp & Hl).
  destruct fate; injection H as <- <-; simpl; rewrite ?Hh; auto.
Qed.

(** X9: SyncFileOrDirectory never changes a file.  It reports success only
    if what the path leads to is a directory exactly when is_directory says
    so, and then the descriptor has been flushed and, after that, closed;
    if the system lets the three calls through, that match is also all it
    takes.  For a directory the data_sync flag makes no difference. *)
Theorem X9_SyncFileOrDirectory
    (path : string) (is_directory data_sync : bool) (os : Os) :
  let r := SyncFileOrDirectory path is_directory data_sync os in
  files r.2 = files os /\
  (r.1 = true ->
   exists fd i,
     follow_links 40 path (files os) = Some fd /\
     files os !! fd = Some i /\ is_dir i = is_directory /\
     history r.2 = SysClose fd :: SysSync fd :: history os) /\
  (forall fd i,
     lets_through 3 os = true ->
     follow_links 40 path (files os) = Some fd ->
     files os !! fd = Some i ->
     r.1 = bool_decide (is_dir i = is_directory)) /\
  (is_directory = true ->
   r = SyncFileOrDirectory path is_directory false os).
Proof.
  intros r. subst r.
  assert (is_directory = true ->
          SyncFileOrDirectory path is_directory data_sync os
          = SyncFileOrDirectory path is_directory false os) as Hflag.
  { intros ->. unfold SyncFileOrDirectory. by rewrite andb_false_r. }
  split; [|split; [|split; [|exact Hflag]]]; clear Hflag.
  all: unfold SyncFileOrDirectory.
  all: destruct (open_existing path is_directory os) as [fd os1] eqn:Eo.
  all: pose proof Eo as ((Hf1 & Hh1 & _) & Hfd)%open_existing_inv.
  - destruct fd as [e|fd]; simpl; [done|].
    assert (exists result os2,
              (if data_sync && negb is_directory then fdatasync fd os1 else fsync fd os1)
              = (result, os2) /\ files os2 = files os1) as (result & os2 & -> & Hf2).
    { destruct (data_sync && negb is_directory).
      - destruct (fdatasync fd os1) as [x y] eqn:E.
        apply fdatasync_inv in E as (? & _). eauto.
      - destruct (fsync fd os1) as [x y] eqn:E.
        apply fsync_inv in E as (? & _). eauto. }
    destruct (close fd os2) as [c os3] eqn:Ec.
    apply close_inv in Ec as (Hf3 & _).
    destruct (result <? 0); simpl; [congruence|].
    destruct (c <? 0); simpl; congruence.
  - destruct fd as [e|fd]; simpl; [done|].
    destruct Hfd as (Hfollow & i & Hi & Hdir).
    assert (exists result os2,
              (if data_sync && negb is_directory then fdatasync fd os1 else fsync fd os1)
              = (result, os2) /\
              (result = -1 \/ result = 0 /\ history os2 = SysSync fd :: history os1))
      as (result & os2 & -> & Hs).
    { destruct (data_sync && negb is_directory).
      - destruct (fdatasync fd os1) as [x y] eqn:E.
        apply fdatasync_inv in E as (_ & _ & [->|(-> & ?)]); eauto 6.
      - destruct (fsync fd os1) as [x y] eqn:E.
        apply fsync_inv in E as (_ & [->|(-> & ?)]); eauto 6. }
    destruct Hs as [->|(-> & Hh2)]; simpl.
    { by destruct (close fd os2). }
    destruct (close fd os2) as [c os3] eqn:Ec.
    apply close_inv in Ec as (_ & _ & [->|(-> & Hh3)]); simpl; [done|].
    intros _. exists fd, i. rewrite Hh3, Hh2, Hh1. done.
  - intros fd' i Hlet Hfollow Hi.
    destruct (next_fate_lets_through _ _ Hlet) as (f1 & osa & E1 & Hn1 & Hfa & Hlet1).
    assert (open_existing path is_directory os =
              (if bool_decide (is_dir i = is_directory)
               then inr fd'
               else inl (if is_directory then ENOTDIR else EISDIR), osa)) as Eo'.
    { unfold open_existing. rewrite E1, Hfa, Hfollow, Hi.
      destruct f1; try done; destruct is_directory, (is_dir i); done. }
    rewrite Eo' in Eo. injection Eo as <- <-.
    case_bool_decide; simpl; [|done].
    destruct (next_fate_lets_through _ _ Hlet1) as (f2 & osb & E2 & Hn2 & Hfb & Hlet2).
    assert (exists osc,
              (if data_sync && negb is_directory then fdatasync fd' osa else fsync fd' osa)
              = (0, osc) /\ fates osc = fates osb) as (osc & -> & Hfc).
    { unfold fdatasync, fsync. rewrite E2.
      destruct (data_sync && negb is_directory), f2; try done; eauto. }
    simpl.
    assert (lets_through 1 osc = true) as Hlet3
      by (unfold lets_through in *; by rewrite Hfc).
    destruct (next_fate_lets_through _ _ Hlet3) as (f3 & osd & E3 & Hn3 & _).
    unfold close. rewrite E3. by destruct f3.
Qed.

(** *** WriteToFile *)

Section WriteToFileCases.
Context `{FilePathOps}.

End WriteToFileCases.

(** *** The theorems at sample file systems *)

Lemma X2_witness :
  kPermissions777 < 4095 /\
  @TouchFile plain_paths "/tmp/f" 4095 1000 1000 os_tmp_f = (false, os_tmp_f).
Proof.
  split; [reflexivity|].
  apply (@X2_TouchFile_illegal_permissions plain_paths "/tmp/f" 4095 1000 1000 os_tmp_f).
  right. reflexivity.
Defined.



Lemma X5_witness :
  RegularFileOrDelete "/tmp/f" 0 0 os_open_refused
  = (kEmpty, set_fates [] os_open_refused) /\
  (@TouchFile plain_paths "/tmp/f" 384 0 0 os_open_refused).1 = false /\
  files (@TouchFile plain_paths "/tmp/f" 384 0 0 os_open_refused).2 !! "/tmp/f"
  = Some file_f.
Proof.
  apply (@X5_open_refused plain_paths "/tmp/f" 384 0 0 os_open_refused EACCES []
           file_f eq_refl ltac:(discriminate) eq_refl).
Defined.


Lemma X7_witness :
  exists os' i,
    @WriteToFileAtomic plain_paths 1 "/tmp/f" [Byte.x01; Byte.x02] 438 os_tmp_link
    = Some (true, os') /\
    files os' !! "/tmp/f" = Some i /\ S_ISREG i = true /\
    i_data i = [Byte.x01; Byte.x02] /\ Z.land (st_mode i) 511 = 420 /\
    files os' !! "/tmp/f.aaaaaa" = None /\
    files os' !! "/etc/passwd" = Some passwd.
Proof.
  pose (r := @WriteToFileAtomic plain_paths 1 "/tmp/f" [Byte.x01; Byte.x02] 438
               os_tmp_link).
  assert (exists os', r = Some (true, os')) as [os' Hr].
  { vm_compute. eexists. reflexivity. }
  exists os'.
  destruct (@X7_WriteToFileAtomic_result plain_paths 1 "/tmp/f" [Byte.x01; Byte.x02]
              438 os_tmp_link os' true ltac:(vm_compute; discriminate) Hr)
    as (_ & Hframe & Hok).
  destruct (Hok eq_refl) as (_ & Htemp & i & Hi & Hreg & Hdata & Hmode).
  exists i. split; [exact Hr|]. split; [exact Hi|]. split; [exact Hreg|].
  split; [exact Hdata|]. split; [exact Hmode|]. split; [exact Htemp|].
  rewrite (Hframe "/etc/passwd"); [reflexivity|discriminate|
    vm_compute; discriminate|].
  intros [E|E]%FileUtilsSpec.above_tmp_f; discriminate E.
Defined.

Lemma X8_witness :
  exists os',
    @WriteToFileAtomic plain_paths 1 "/tmp/f" [Byte.x01] 420 os_tmp_taken
    = Some (false, os') /\
    files os' !! "/tmp/f.aaaaaa" = None.
Proof.
  destruct (@X8_temporary_name_taken plain_paths 1 "/tmp/f" [Byte.x01] 420 os_tmp_taken
              tmp_dir file_f eq_refl eq_refl eq_refl ltac:(discriminate)
              eq_refl eq_refl) as (os' & Hrun & Hfiles).
  exists os'. split; [exact Hrun|].
  rewrite Hfiles. reflexivity.
Defined.

Lemma X9_witness :
  (SyncFileOrDirectory "/tmp/f" false true os_tmp_f).1 = true /\
  (SyncFileOrDirectory "/tmp/f" true true os_tmp_f).1 = false /\
  (SyncFileOrDirectory "/tmp" true true os_tmp_f).1 = true /\
  history (SyncFileOrDirectory "/tmp" true true os_tmp_f).2
  = [SysClose "/tmp"; SysSync "/tmp"].
Proof.
  destruct (X9_SyncFileOrDirectory "/tmp/f" false true os_tmp_f) as (_ & _ & Hfile & _).
  destruct (X9_SyncFileOrDirectory "/tmp/f" true true os_tmp_f) as (_ & _ & Hnot & _).
  destruct (X9_SyncFileOrDirectory "/tmp" true true os_tmp_f) as (_ & Hhist & Hdir & _).
  pose proof (Hfile "/tmp/f" file_f eq_refl eq_refl eq_refl) as E1.
  pose proof (Hnot "/tmp/f" file_f eq_refl eq_refl eq_refl) as E2.
  pose proof (Hdir "/tmp" tmp_dir eq_refl eq_refl eq_refl) as E3.
  split; [exact E1|]. split; [exact E2|]. split; [exact E3|].
  destruct (Hhist E3) as (fd & i & Hfollow & _ & _ & Hh).
  injection Hfollow as <-. exact Hh.
Defined.


Lemma X19_witness :
  @TouchFile plain_paths "/tmp/f" 384 0 0 os_mkdir_refused
  = (false, set_fates [] (set_files (delete "/tmp/f" (files os_mkdir_refused))
                            os_mkdir_refused)) /\
  delete "/tmp/f" (files os_mkdir_refused) !! "/tmp/f" = None.
Proof.
  split; [|reflexivity].
  apply (@X19_TouchFile_fails_after_delete plain_paths "/tmp/f" 384 0 0
           os_mkdir_refused file_f EACCES []); try reflexivity.
  - unfold kPermissions777. lia.
  - discriminate.
  - left. discriminate.
Defined.

End FileUtilsLaws.

(** * Further properties of the message loop *)

Module MessageLoopLaws.
Import MessageLoop MessageLoopSpec.

#[local] Opaque TaskId_modulus.

(** *** NextTaskId *)

(** The loop of [NextTaskId] answers the first candidate that is not
    taken. *)
Lemma NextTaskId_loop_first delayed io fuel : forall last res,
  NextTaskId_loop fuel last delayed io = Ret res ->
  exists n,
    1 <= n <= Z.of_nat fuel /\
    res = (last + n) mod TaskId_modulus /\
    forall i, 1 <= i < n -> taken delayed io ((last + i) mod TaskId_modulus).
Proof.
  induction fuel as [|fuel IH]; intros last res; simpl; [done|].
  destruct ((_ =? 0) || _ || _) eqn:Et.
  - intros (n & Hn & -> & Hskip)%IH. exists (n + 1).
    split; [lia|]. split.
    + rewrite Zplus_mod_idemp_l. f_equal. lia.
    + intros i Hi. destruct (decide (i = 1)) as [->|Hne].
      * by apply skip_test.
      * replace (last + i) with (last + 1 + (i - 1)) by lia.
        rewrite <- Zplus_mod_idemp_l. apply Hskip. lia.
  - intros [= <-]. exists 1. split; [lia|]. split; [done|]. intros i Hi. lia.
Qed.

(** X11: NextTaskId returns whenever there is room for one more record, and
    hands out ids in the order of the counter: the id it returns is not the
    null id and is a key of neither store, and it is the first such id after
    last_id_, counting modulo 2^64, every id before it being the null id or
    a key of one of the stores; the counter is left at the id returned.  So
    when the successor of last_id_ is free, that is the id. *)
Theorem X11_NextTaskId_first_free (s : BaseMessageLoop) :
  (has_room s -> exists id, NextTaskId s = Ret (id, set_last_id id s)) /\
  (forall id s1,
     NextTaskId s = Ret (id, s1) ->
     s1 = set_last_id id s /\
     id <> kTaskIdNull /\ 0 < id < TaskId_modulus /\ absent id s /\
     ~ taken (delayed_tasks_ s) (io_tasks_ s) id /\
     (exists n,
        1 <= n <= Z.of_nat (NextTaskId_fuel s) /\
        id = (last_id_ s + n) mod TaskId_modulus /\
        forall i, 1 <= i < n ->
          taken (delayed_tasks_ s) (io_tasks_ s)
            ((last_id_ s + i) mod TaskId_modulus)) /\
     (~ taken (delayed_tasks_ s) (io_tasks_ s) ((last_id_ s + 1) mod TaskId_modulus) ->
      id = (last_id_ s + 1) mod TaskId_modulus)).
Proof.
  split; [apply NextTaskId_returns|].
  intros id s1 H. pose proof H as [(Hr & Hd & Hio) ->]%NextTaskId_spec.
  split; [done|]. split; [unfold kTaskIdNull; lia|]. split; [done|].
  split; [done|]. split.
  { intros [Hz|[[x Hx]|[x Hx]]]; [lia|congruence|congruence]. }
  unfold NextTaskId in H. apply bind_Ret_inv in H as (res & Hloop & [= <-]).
  apply NextTaskId_loop_first in Hloop as (n & Hn & -> & Hskip).
  split; [eauto|].
  intros Hfree. destruct (decide (n = 1)) as [->|Hne]; [done|].
  destruct Hfree. apply Hskip. lia.
Qed.

(** *** CancelTask *)

(** [CancelTask] leaves the records of the other ids alone. *)
Lemma CancelTask_other task_id s k :
  k <> task_id ->
  delayed_tasks_ (CancelTask task_id s).2 !! k = delayed_tasks_ s !! k /\
  io_tasks_ (CancelTask task_id s).2 !! k = io_tasks_ s !! k.
Proof.
  intros Hk. rewrite CancelTask_spec. case_decide; [done|].
  destruct (delayed_tasks_ s !! task_id) as [[i [c|]]|], (io_tasks_ s !! task_id);
    simpl; rewrite ?lookup_insert_ne, ?lookup_delete_ne by done; done.
Qed.

(** X12: CancelTask touches nothing but the record of the id it is given:
    the records of all other ids, the id counter, the run-once flag and the
    underlying loop stay as they are.  When it reports failure the loop is
    unchanged; when it reports success it has either cleared the callback of
    a delayed task, whose record stays, or erased a watch.  Cancelling the
    same id again right away always fails. *)
Theorem X12_CancelTask_once (task_id : Z) (s : BaseMessageLoop) :
  let r := CancelTask task_id s in
  (r.1 = false -> r.2 = s) /\
  CancelTask task_id r.2 = (false, r.2) /\
  (forall k, k <> task_id ->
     delayed_tasks_ r.2 !! k = delayed_tasks_ s !! k /\
     io_tasks_ r.2 !! k = io_tasks_ s !! k) /\
  last_id_ r.2 = last_id_ s /\ run_once_ r.2 = run_once_ s /\
  base_loop_ r.2 = base_loop_ s /\
  (r.1 = true ->
   (exists i c,
      delayed_tasks_ s !! task_id = Some (mkDelayedTask i (Some c)) /\
      delayed_tasks_ r.2 !! task_id = Some (mkDelayedTask i None) /\
      io_tasks_ r.2 = io_tasks_ s) \/
   (delayed_tasks_ s !! task_id = None /\ is_Some (io_tasks_ s !! task_id) /\
    io_tasks_ r.2 !! task_id = None /\ delayed_tasks_ r.2 = delayed_tasks_ s)).
Proof.
  intros r. subst r.
  split; [|split; [|split; [intros k Hk; by apply CancelTask_other|]]].
  - rewrite CancelTask_spec. case_decide; [done|].
    by destruct (delayed_tasks_ s !! task_id) as [[i [c|]]|], (io_tasks_ s !! task_id).
  - rewrite (CancelTask_spec task_id s). case_decide as Hz.
    { simpl. rewrite CancelTask_spec. by case_decide. }
    destruct (delayed_tasks_ s !! task_id) as [[i [c|]]|] eqn:Ed;
      [| |destruct (io_tasks_ s !! task_id) eqn:Eio]; simpl;
      rewrite CancelTask_spec; case_decide; try done; simpl.
    + by rewrite lookup_insert_eq.
    + by rewrite Ed.
    + by rewrite Ed, lookup_delete_eq.
    + by rewrite Ed, Eio.
  - pose proof (CancelTask_frame task_id s) as (? & ? & ?).
    split; [done|]. split; [done|]. split; [done|].
    rewrite CancelTask_spec. case_decide; [done|].
    destruct (delayed_tasks_ s !! task_id) as [[i [c|]]|] eqn:Ed;
      [| |destruct (io_tasks_ s !! task_id) eqn:Eio]; simpl; try done; intros _.
    + left. exists i, c. by rewrite lookup_insert_eq.
    + right. by rewrite lookup_delete_eq.
Qed.

(** *** Run and BreakLoop *)

(** What a callback does to the underlying loop: only [BreakLoop] reaches
    it. *)
Lemma run_closure_quit c : forall s s' t,
  run_closure c s = Ret (s', t) ->
  quit_called (base_loop_ s') = quit_called (base_loop_ s) || existsb is_break t.
Proof.
  induction c as [|task_id k IH|task delay k IH|fd mode pers task k IH|k IH];
    intros s s' t; simpl.
  - intros [= <- <-]. by rewrite orb_false_r.
  - destruct (CancelTask task_id s) as [result s1] eqn:Ec.
    intros ([s2 t2] & Hrun & [= <- <-])%bind_Ret_inv.
    apply IH in Hrun. simpl.
    pose proof (CancelTask_frame task_id s) as (_ & _ & Hb). rewrite Ec in Hb.
    simpl in Hb. by rewrite Hrun, Hb.
  - intros ([tid s1] & Hpost & H)%bind_Ret_inv.
    apply bind_Ret_inv in H as ([s2 t2] & Hrun & [= <- <-]).
    apply IH in Hrun. simpl. rewrite Hrun. f_equal.
    apply PostDelayedTask_spec in Hpost as (fresh & _ & Hcases).
    by destruct (accepts_tasks _); destruct Hcases as [_ ->].
  - intros ([tid s1] & Hwatch & H)%bind_Ret_inv.
    apply bind_Ret_inv in H as ([s2 t2] & Hrun & [= <- <-]).
    apply IH in Hrun. simpl. rewrite Hrun. f_equal.
    apply WatchFileDescriptor_spec in Hwatch
      as [(_ & -> & _)|(fresh & bm & _ & _ & _ & Hcases)]; [done|].
    by destruct (can_watch _ _); destruct Hcases as [_ ->].
  - intros ([s2 t2] & Hrun & [= <- <-])%bind_Ret_inv.
    apply IH in Hrun. simpl in *. rewrite Hrun, orb_true_r. done.
Qed.

(** One notification delivered outside [RunOnce]: the flag stays clear,
    and the underlying loop is told to stop only by a [BreakLoop] of the one
    callback that ran. *)
Lemma deliver_break n s s' t :
  run_once_ s = false ->
  deliver n s = Ret (s', t) ->
  run_once_ s' = false /\
  ((t = [] /\ base_loop_ s' = base_loop_ s) \/
   exists j t2,
     t = EvRun j :: t2 /\ Forall (fun e => is_run e = false) t2 /\
     quit_called (base_loop_ s') = quit_called (base_loop_ s) || existsb is_break t2).
Proof.
  intros Hflag.
  assert (forall c s0 s2 t2,
            run_once_ s0 = false -> base_loop_ s0 = base_loop_ s ->
            run_closure c s0 = Ret (s2, t2) ->
            stop_if_run_once s2 = s2 /\ run_once_ s2 = false /\
            Forall (fun e => is_run e = false) t2 /\
            quit_called (base_loop_ s2)
            = quit_called (base_loop_ s) || existsb is_break t2) as Hcb.
  { intros c s0 s2 t2 Hf0 Hb0 Hrun.
    pose proof (run_closure_run_once _ _ _ _ Hrun) as [Hf2 Hnr].
    pose proof (run_closure_quit _ _ _ _ Hrun) as Hq.
    rewrite Hf0 in Hf2. unfold stop_if_run_once. rewrite Hf2, Hq, Hb0. done. }
  destruct n as [task_id|task_id]; simpl.
  - unfold OnRanPostedTask.
    destruct (delayed_tasks_ s !! task_id) as [[i [c|]]|] eqn:Ed; simpl; [| |done].
    + intros ([s3 t3] & H & [= <- <-])%bind_Ret_inv.
      apply bind_Ret_inv in H as ([s2 t2] & Hrun & [= <- <-]).
      eapply Hcb in Hrun as (Hstop & Hf2 & Hnr & Hq); [|done|done].
      rewrite Hstop. simpl. split; [done|]. right. eauto.
    + intros [= <- <-]. simpl. split; [done|]. by left.
  - destruct (io_tasks_ s !! task_id) as [self|] eqn:Eio.
    + intros H.
      assert (OnFileReady task_id (fd_watcher_ self).1 s = Ret (s', t)) as Hfire
        by (by destruct (fd_watcher_ self).2).
      clear H. unfold OnFileReady in Hfire. rewrite Eio in Hfire.
      apply bind_Ret_inv in Hfire as ([s2 t2] & Hrun & [= <- <-]).
      destruct (closure_ self) as [c|]; [|by destruct (persistent_ self)].
      assert (exists s0, run_once_ s0 = false /\ base_loop_ s0 = base_loop_ s /\
                run_closure c s0 = Ret (s2, t2)) as (s0 & Hf0 & Hb0 & Hrun').
      { destruct (persistent_ self); simpl in Hrun; eexists;
          (split; [|split; [|exact Hrun]]); done. }
      eapply Hcb in Hrun' as (Hstop & Hf2 & Hnr & Hq); [|done|done].
      rewrite Hstop. split; [done|]. right. eauto.
    + intros [= <- <-]. split; [done|]. by left.
Qed.

(** X13: this class asks the underlying loop to stop in two cases only: a
    callback has called BreakLoop, or a callback has run while the run-once
    flag was set.  After OnRanPostedTask or OnFileReady the underlying loop
    has been told to stop exactly if it had been told before, or the callback
    that ran called BreakLoop, or a callback ran with the flag set; the timer
    of a cancelled task asks for nothing.  BreakLoop itself tells the loop to
    stop and leaves the stores, the id counter and the flag alone. *)
Theorem X13_stop_requests (s s' : BaseMessageLoop) (t : list Event) :
  (forall task_id,
     OnRanPostedTask task_id s = Ret (s', t) ->
     quit_called (base_loop_ s')
     = quit_called (base_loop_ s) || existsb is_break t
       || (run_once_ s && existsb is_run t)) /\
  (forall this fd,
     OnFileReady this fd s = Ret (s', t) ->
     quit_called (base_loop_ s')
     = quit_called (base_loop_ s) || existsb is_break t
       || (run_once_ s && existsb is_run t)) /\
  quit_called (base_loop_ (BreakLoop s)) = true /\
  delayed_tasks_ (BreakLoop s) = delayed_tasks_ s /\
  io_tasks_ (BreakLoop s) = io_tasks_ s /\
  last_id_ (BreakLoop s) = last_id_ s /\
  run_once_ (BreakLoop s) = run_once_ s.
Proof.
  assert (forall c s0 s2 t2 i,
            run_once_ s0 = run_once_ s -> base_loop_ s0 = base_loop_ s ->
            run_closure c s0 = Ret (s2, t2) ->
            quit_called (base_loop_ (stop_if_run_once s2))
            = quit_called (base_loop_ s) || existsb is_break (EvRun i :: t2)
              || (run_once_ s && existsb is_run (EvRun i :: t2))) as Hcb.
  { intros c s0 s2 t2 i Hf0 Hb0 Hrun.
    pose proof (run_closure_run_once _ _ _ _ Hrun) as [Hf2 _].
    pose proof (run_closure_quit _ _ _ _ Hrun) as Hq.
    rewrite Hf0 in Hf2. rewrite Hb0 in Hq. unfold stop_if_run_once.
    rewrite Hf2. simpl. destruct (run_once_ s); simpl.
    - by rewrite orb_true_r.
    - by rewrite Hq, orb_false_r. }
  split; [|split; [|done]].
  - intros task_id Hfire.
    destruct (delayed_tasks_ s !! task_id) as [[i [c|]]|] eqn:E.
    + rewrite (OnRanPostedTask_bound _ _ _ _ E) in Hfire.
      apply bind_Ret_inv in Hfire as ([s2 t2] & Hrun & [= <- <-]).
      by apply (Hcb c _ s2 t2 task_id) in Hrun.
    + rewrite (OnRanPostedTask_null _ _ _ E) in Hfire. injection Hfire as <- <-.
      simpl. by rewrite andb_false_r, !orb_false_r.
    + unfold OnRanPostedTask in Hfire. by rewrite E in Hfire.
  - intros this fd. unfold OnFileReady.
    destruct (io_tasks_ s !! this) as [self|]; [|done].
    intros H. apply bind_Ret_inv in H as ([s2 t2] & Hrun & [= <- <-]).
    destruct (persistent_ self), (closure_ self) as [c|]; simpl in Hrun; try done.
    + by apply (Hcb c _ s2 t2 (task_id_ self)) in Hrun.
    + by apply (Hcb c _ s2 t2 (task_id_ self)) in Hrun.
Qed.

(** *** Timers of cancelled tasks *)

Lemma drive_cancelled_timer blocking pending task_id i s :
  delayed_tasks_ s !! task_id = Some (mkDelayedTask i None) ->
  quit_called (base_loop_ s) = false ->
  drive blocking (TimerFired task_id :: pending) s
  = drive blocking pending (set_delayed_tasks (delete task_id (delayed_tasks_ s)) s).
Proof.
  intros Hrec Hq. simpl. rewrite (OnRanPostedTask_null _ _ _ Hrec). simpl.
  rewrite Hq. by destruct (drive blocking pending _) as [[s2 t2]|].
Qed.

(** X14: the timer notification of a cancelled delayed task does not count
    as the unit of work of RunOnce, and does not stop Run: it only erases
    the record, and the loop goes on with what is waiting next, as if the
    record had been gone from the start. *)
Theorem X14_cancelled_timer_is_skipped
    (may_block : bool) (pending : list Notification) (s : BaseMessageLoop)
    (task_id i : Z) :
  delayed_tasks_ s !! task_id = Some (mkDelayedTask i None) ->
  let s' := set_delayed_tasks (delete task_id (delayed_tasks_ s)) s in
  RunOnce may_block (TimerFired task_id :: pending) s = RunOnce may_block pending s' /\
  Run (TimerFired task_id :: pending) s = Run pending s'.
Proof.
  intros Hrec s'. split.
  - unfold RunOnce, base_RunUntilIdle, base_Run.
    destruct may_block; simpl negb; cbv iota;
      rewrite (drive_cancelled_timer _ _ task_id i) by done; done.
  - unfold Run, base_Run. by rewrite (drive_cancelled_timer _ _ task_id i).
Qed.

(** *** Ids while callbacks run *)

(** The record of a delayed task stays in the store while its callback
    runs, so no registration made meanwhile is handed its id. *)
Lemma reserved_while_running task_id i c s s' t :
  task_id <> kTaskIdNull ->
  delayed_tasks_ s !! task_id = Some (mkDelayedTask i None) ->
  run_closure c s = Ret (s', t) ->
  Forall (fun e => registers task_id e = false) t.
Proof.
  intros Hnz Hrec Hrun.
  refine (proj1 (run_closure_invariant
            (fun s => delayed_tasks_ s !! task_id = Some (mkDelayedTask i None))
            (fun e => registers task_id e = false) _ _ _ _ c s s' t Hrec Hrun)).
  - intros k s0 H0. split; [done|].
    destruct (decide (k = task_id)) as [->|Hk].
    + rewrite CancelTask_spec, H0. by case_decide.
    + destruct (CancelTask_other k s0 task_id) as [-> _]; [done|done].
  - intros task delay s0 tid s1 H0 (fresh & (Hr & Hd & Hio) & Hc)%PostDelayedTask_spec.
    assert (fresh <> task_id) as Hne by (intros ->; congruence).
    destruct (accepts_tasks _); destruct Hc as [-> ->].
    + split; [by apply Z.eqb_neq|]. simpl. by rewrite lookup_insert_ne.
    + split; [unfold registers; apply Z.eqb_neq; auto|done].
  - intros fd mode pers task s0 tid s1 H0 Hw.
    apply WatchFileDescriptor_spec in Hw
      as [(-> & -> & _)|(fresh & bm & _ & _ & (Hr & Hd & Hio) & Hc)].
    + split; [unfold registers; apply Z.eqb_neq; auto|done].
    + assert (fresh <> task_id) as Hne by (intros ->; congruence).
      destruct (can_watch _ _); destruct Hc as [-> ->].
      * split; [by apply Z.eqb_neq|done].
      * split; [unfold registers; apply Z.eqb_neq; auto|done].
  - intros s0 H0. by split.
Qed.

(** X15: while the callback of a delayed task runs, the id of the task is
    still reserved: the record stays in the store until the callback has
    returned, so whatever the callback schedules or watches is given an id
    other than that of the running task. *)
Theorem X15_running_task_keeps_its_id
    (s s' : BaseMessageLoop) (task_id : Z) (t : list Event) :
  wf s ->
  OnRanPostedTask task_id s = Ret (s', t) ->
  never (registers task_id) t /\
  forall j, In (EvPost j) t \/ In (EvWatch j) t -> j <> task_id.
Proof.
  intros Hwf Hfire.
  assert (Forall (fun e => registers task_id e = false) t) as Hall.
  { unfold OnRanPostedTask in Hfire.
    destruct (delayed_tasks_ s !! task_id) as [[i [c|]]|] eqn:Ed; [| |done].
    - destruct (wf_delayed s Hwf _ _ Ed) as [Hrange _].
      simpl in Hfire.
      apply bind_Ret_inv in Hfire as ([s3 t3] & H & [= <- <-]).
      apply bind_Ret_inv in H as ([s2 t2] & Hrun & [= <- <-]).
      constructor; [done|].
      eapply (reserved_while_running task_id i c); [| |exact Hrun].
      + unfold kTaskIdNull. lia.
      + simpl. apply lookup_insert_eq.
    - simpl in Hfire. by injection Hfire as <- <-. }
  split.
  - apply never_In. intros e He. rewrite Forall_forall in Hall.
    apply Hall. by apply list_elem_of_In.
  - rewrite Forall_forall in Hall.
    intros j [Hj|Hj] ->; apply list_elem_of_In, Hall in Hj; simpl in Hj;
      by rewrite Z.eqb_refl in Hj.
Qed.

(** As long as the record of a watch is in the store, a cancel of its id
    succeeds. *)
Lemma first_cancel_succeeds task_id self c s s' t :
  task_id <> kTaskIdNull ->
  delayed_tasks_ s !! task_id = None ->
  io_tasks_ s !! task_id = Some self ->
  run_closure c s = Ret (s', t) ->
  Forall (fun e => e <> EvCancel task_id false) (upto (cancel_of task_id) t) /\
  (never (cancel_of task_id) t -> io_tasks_ s' !! task_id = Some self).
Proof.
  intros Hnz Hd Hio Hrun.
  pose proof (run_closure_until
    (fun s => delayed_tasks_ s !! task_id = None /\ io_tasks_ s !! task_id = Some self)
    (fun e => e <> EvCancel task_id false) (cancel_of task_id)) as Huntil.
  destruct (Huntil) with (c := c) (s := s) (s' := s') (t := t) as [HQ HP];
    [| | | |done|done|].
  - intros k s0 [Hd0 Hio0]. destruct (decide (k = task_id)) as [->|Hk].
    + rewrite CancelTask_spec, Hd0, Hio0. case_decide; [done|]. simpl.
      split; [done|]. by rewrite Z.eqb_refl.
    + split; [congruence|]. intros _.
      destruct (CancelTask_other k s0 task_id) as [-> ->]; done.
  - intros task delay s0 tid s1 [Hd0 Hio0]
      (fresh & (Hr & Hdf & Hiof) & Hc)%PostDelayedTask_spec.
    split; [done|]. intros _.
    assert (fresh <> task_id) as Hne by (intros ->; congruence).
    destruct (accepts_tasks _); destruct Hc as [-> ->]; simpl; [|done].
    by rewrite lookup_insert_ne.
  - intros fd mode pers task s0 tid s1 [Hd0 Hio0] Hw.
    split; [done|]. intros _.
    apply WatchFileDescriptor_spec in Hw
      as [(-> & -> & _)|(fresh & bm & _ & _ & (Hr & Hdf & Hiof) & Hc)]; [done|].
    assert (fresh <> task_id) as Hne by (intros ->; congruence).
    destruct (can_watch _ _); destruct Hc as [-> ->]; simpl; [|done].
    by rewrite lookup_insert_ne.
  - intros s0 H0. by split.
  - split; [done|]. intros Hn. by apply HP.
Qed.

(** X16: the callback of a persistent watch can cancel its own watch: the
    record is still in the store while the callback runs, so the first
    cancel of its id that the callback makes reports success; a callback
    that makes none leaves the record in place. *)
Theorem X16_persistent_watch_cancels_itself
    (s s' : BaseMessageLoop) (task_id fd : Z) (self : IOTask) (t : list Event) :
  wf s ->
  io_tasks_ s !! task_id = Some self ->
  persistent_ self = true ->
  OnFileReady task_id fd s = Ret (s', t) ->
  Forall (fun e => e <> EvCancel task_id false) (upto (cancel_of task_id) t) /\
  (never (cancel_of task_id) t -> io_tasks_ s' !! task_id = Some self).
Proof.
  intros Hwf Hrec Hp Hfire.
  destruct (wf_io s Hwf _ _ Hrec) as [Hrange Hid].
  assert (delayed_tasks_ s !! task_id = None) as Hd
    by (destruct (wf_unique s Hwf task_id); [done|congruence]).
  unfold OnFileReady in Hfire. rewrite Hrec, Hp in Hfire.
  apply bind_Ret_inv in Hfire as ([s2 t2] & Hrun & [= <- <-]).
  destruct (closure_ self) as [c|]; [|done]. simpl in Hrun.
  destruct (first_cancel_succeeds task_id self c s s2 t2) as [HQ HP]; try done.
  { unfold kTaskIdNull. lia. }
  split.
  - simpl. by constructor.
  - intros Hn. destruct (stop_if_run_once_stores s2) as [_ ->].
    apply HP. unfold never in *. by simpl in Hn.
Qed.

(** *** What every reachable loop satisfies *)

Lemma drive_flag_clear blocking pending : forall s s' t,
  run_once_ s = false -> drive blocking pending s = Ret (s', t) ->
  run_once_ s' = false.
Proof.
  intros s s' t Hflag Hdrive.
  induction pending as [|n rest IH] in s, s', t, Hflag, Hdrive |- *; simpl in Hdrive.
  - destruct blocking; [done|]. by injection Hdrive as <- <-.
  - apply bind_Ret_inv in Hdrive as ([sa ta] & Hd & H).
    assert (run_once_ sa = false) as Ha
      by (by destruct (deliver_break _ _ _ _ Hflag Hd)).
    destruct (quit_called (base_loop_ sa)); [by injection H as <- <-|].
    apply bind_Ret_inv in H as ([sb tb] & Hrest & [= <- <-]). eauto.
Qed.

Lemma reachable_run_once s : reachable s -> run_once_ s = false.
Proof.
  induction 1 as [base|c s s' Hreach IH Hcall]; [done|].
  destruct c as [task delay|fd mode pers task|task_id|may_block pending|pending| |base];
    simpl in Hcall.
  - apply bind_Ret_inv in Hcall as ([tid s1] & Hp & [= <-]).
    apply PostDelayedTask_spec in Hp as (fresh & _ & Hc).
    by destruct (accepts_tasks _); destruct Hc as [_ ->].
  - apply bind_Ret_inv in Hcall as ([tid s1] & Hw & [= <-]).
    apply WatchFileDescriptor_spec in Hw
      as [(_ & -> & _)|(fresh & bm & _ & _ & _ & Hc)]; [done|].
    by destruct (can_watch _ _); destruct Hc as [_ ->].
  - injection Hcall as <-. by destruct (CancelTask_frame task_id s) as (_ & -> & _).
  - apply bind_Ret_inv in Hcall as ([[b s1] t] & Hr & [= <-]).
    unfold RunOnce in Hr.
    apply bind_Ret_inv in Hr as ([s2 t2] & _ & Hr).
    destruct (run_once_ s2) eqn:E; simpl in Hr; by injection Hr as <- <- <-.
  - apply bind_Ret_inv in Hcall as ([s1 t] & Hr & [= <-]).
    by apply drive_flag_clear in Hr.
  - by injection Hcall as <-.
  - by injection Hcall as <-.
Qed.

(** X17: in every state a loop can reach, each record is stored under its
    own id (the id a one-shot watch erases when it fires is that of its own
    record), every id in use lies between 1 and 2^64 - 1, the counter lies
    between 0 and 2^64 - 1, and outside RunOnce the run-once flag is
    clear. *)
Theorem X17_reachable_invariant (s : BaseMessageLoop) :
  reachable s ->
  (forall k task, delayed_tasks_ s !! k = Some task ->
     0 < k < TaskId_modulus /\ dt_task_id task = k) /\
  (forall k task, io_tasks_ s !! k = Some task ->
     0 < k < TaskId_modulus /\ task_id_ task = k) /\
  0 <= last_id_ s < TaskId_modulus /\
  run_once_ s = false.
Proof.
  intros Hreach. pose proof (reachable_wf s Hreach) as [Hd Hio _ Hl].
  split; [done|]. split; [done|]. split; [done|]. by apply reachable_run_once.
Qed.

(** *** Registering and cancelling *)

(** X18: a registration that is cancelled leaves the stores as they were
    before it: cancelling a watch that has just been registered succeeds
    and erases the record at once; cancelling a delayed task that has just
    been scheduled succeeds, and its timer notification then runs nothing
    and erases the record.  A delayed task scheduled with a null callback
    cannot be cancelled: the cancel reports failure. *)
Theorem X18_register_then_cancel (s : BaseMessageLoop) :
  (forall c delay id s1,
     PostDelayedTask (Some c) delay s = Ret (id, s1) -> id <> kTaskIdNull ->
     exists s2 s3,
       CancelTask id s1 = (true, s2) /\
       OnRanPostedTask id s2 = Ret (s3, []) /\
       delayed_tasks_ s3 = delayed_tasks_ s /\ io_tasks_ s3 = io_tasks_ s /\
       last_id_ s3 = id) /\
  (forall delay id s1,
     PostDelayedTask None delay s = Ret (id, s1) ->
     CancelTask id s1 = (false, s1)) /\
  (forall fd mode persistent task id s1,
     WatchFileDescriptor fd mode persistent task s = Ret (id, s1) ->
     id <> kTaskIdNull ->
     exists s2,
       CancelTask id s1 = (true, s2) /\
       delayed_tasks_ s2 = delayed_tasks_ s /\ io_tasks_ s2 = io_tasks_ s /\
       last_id_ s2 = id).
Proof.
  split; [|split].
  - intros c delay id s1 (fresh & (Hr & Hd & Hio) & Hc)%PostDelayedTask_spec Hnz.
    destruct (accepts_tasks _); destruct Hc as [-> ->]; [|done].
    eexists _, _. split; [|split].
    + rewrite CancelTask_spec. case_decide; [done|]. simpl.
      by rewrite lookup_insert_eq.
    + apply (OnRanPostedTask_null _ fresh). simpl. apply lookup_insert_eq.
    + simpl. rewrite insert_insert_eq, delete_insert_id by done. done.
  - intros delay id s1 (fresh & (Hr & Hd & Hio) & Hc)%PostDelayedTask_spec.
    destruct (accepts_tasks _); destruct Hc as [-> ->];
      rewrite CancelTask_spec; case_decide; try done; simpl.
    by rewrite lookup_insert_eq.
  - intros fd mode pers task id s1 Hw Hnz.
    apply WatchFileDescriptor_spec in Hw
      as [(-> & _)|(fresh & bm & _ & _ & (Hr & Hd & Hio) & Hc)]; [done|].
    destruct (can_watch _ _); destruct Hc as [-> ->]; [|done].
    eexists. split.
    + rewrite CancelTask_spec. case_decide; [done|]. simpl.
      by rewrite Hd, lookup_insert_eq.
    + simpl. by rewrite delete_insert_id.
Qed.

(** *** The theorems at sample loops *)

#[local] Transparent TaskId_modulus.

Lemma X11_witness :
  has_room loop_about_to_wrap /\
  NextTaskId loop_about_to_wrap = Ret (2, set_last_id 2 loop_about_to_wrap) /\
  taken ∅ (io_tasks_ loop_about_to_wrap) 0 /\
  taken ∅ (io_tasks_ loop_about_to_wrap) 1 /\
  absent 2 loop_about_to_wrap.
Proof.
  assert (has_room loop_about_to_wrap) as Hroom
    by (unfold has_room; vm_compute; discriminate).
  assert (NextTaskId loop_about_to_wrap = Ret (2, set_last_id 2 loop_about_to_wrap))
    as H by (vm_compute; reflexivity).
  split; [exact Hroom|]. split; [exact H|].
  destruct (X11_NextTaskId_first_free loop_about_to_wrap) as (_ & Hspec).
  destruct (Hspec 2 _ H) as (_ & _ & _ & Habs & _ & (n & Hn & Hid & Hskip) & _).
  assert (n = 3) as ->.
  { change (Z.of_nat (NextTaskId_fuel loop_about_to_wrap)) with 3 in Hn.
    assert (n = 1 \/ n = 2 \/ n = 3) as [-> | [-> | ->]] by lia;
      [discriminate Hid|discriminate Hid|reflexivity]. }
  split; [exact (Hskip 1 ltac:(lia))|]. split; [exact (Hskip 2 ltac:(lia))|].
  exact Habs.
Defined.

Lemma X12_witness :
  (CancelTask 1 loop_with_delayed).1 = true /\
  CancelTask 1 (CancelTask 1 loop_with_delayed).2
  = (false, (CancelTask 1 loop_with_delayed).2) /\
  delayed_tasks_ (CancelTask 1 loop_with_delayed).2 !! 1 = Some (mkDelayedTask 1 None).
Proof.
  destruct (X12_CancelTask_once 1 loop_with_delayed) as (_ & Hagain & _ & _ & _ & _ & Hok).
  assert ((CancelTask 1 loop_with_delayed).1 = true) as Ht by reflexivity.
  split; [exact Ht|]. split; [exact Hagain|].
  destruct (Hok Ht) as [(i & c & Hs & Hr & _)|(Hnone & _)].
  - injection Hs as <- _. exact Hr.
  - discriminate Hnone.
Defined.

Lemma X13_witness :
  OnRanPostedTask 1 loop_with_breaker
  = Ret (mkLoop ∅ (io_tasks_ loop_with_breaker) 2 false
           (mkBase true (can_watch accepting_base) true),
         [EvRun 1; EvBreak]) /\
  forall s' t,
    OnRanPostedTask 1 loop_with_breaker = Ret (s', t) ->
    quit_called (base_loop_ s') = existsb is_break t || false.
Proof.
  split; [vm_compute; reflexivity|].
  intros s' t Hfire.
  destruct (X13_stop_requests loop_with_breaker s' t) as (Hposted & _).
  exact (Hposted 1 Hfire).
Defined.

Lemma X14_witness :
  RunOnce false [TimerFired 1; TimerFired 2] loop_with_cancelled
  = Ret (true,
         mkLoop ∅ ∅ 2 false (mkBase true (can_watch accepting_base) true),
         [EvRun 2]).
Proof.
  destruct (X14_cancelled_timer_is_skipped false [TimerFired 2] loop_with_cancelled
              1 1 eq_refl) as (Hskip & _).
  rewrite Hskip. vm_compute. reflexivity.
Defined.

Lemma reachable_loop_with_reposter : reachable loop_with_reposter.
Proof.
  apply (reachable_call (CallPostDelayedTask (Some repost) 0)
           (new_loop accepting_base)); [apply reachable_new|].
  vm_compute. reflexivity.
Qed.

Lemma reachable_loop_with_self_cancelling : reachable loop_with_self_cancelling.
Proof.
  apply (reachable_call (CallWatchFileDescriptor 3 kWatchRead true (Some cancel_1_twice))
           (new_loop accepting_base)); [apply reachable_new|].
  vm_compute. reflexivity.
Qed.

Lemma X15_witness :
  OnRanPostedTask 1 loop_with_reposter
  = Ret (mkLoop (<[2 := mkDelayedTask 2 (Some Return)]> ∅) ∅ 2 false accepting_base,
         [EvRun 1; EvPost 2]) /\
  never (registers 1) [EvRun 1; EvPost 2].
Proof.
  assert (OnRanPostedTask 1 loop_with_reposter
          = Ret (mkLoop (<[2 := mkDelayedTask 2 (Some Return)]> ∅) ∅ 2 false
                   accepting_base,
                 [EvRun 1; EvPost 2])) as Hfire by (vm_compute; reflexivity).
  split; [exact Hfire|].
  apply (X15_running_task_keeps_its_id loop_with_reposter _ 1 _
           (reachable_wf _ reachable_loop_with_reposter) Hfire).
Defined.

Lemma X16_witness :
  OnFileReady 1 3 loop_with_self_cancelling
  = Ret (mkLoop ∅ ∅ 1 false accepting_base,
         [EvRun 1; EvCancel 1 true; EvCancel 1 false]) /\
  Forall (fun e => e <> EvCancel 1 false) [EvRun 1; EvCancel 1 true].
Proof.
  assert (OnFileReady 1 3 loop_with_self_cancelling
          = Ret (mkLoop ∅ ∅ 1 false accepting_base,
                 [EvRun 1; EvCancel 1 true; EvCancel 1 false])) as Hfire
    by (vm_compute; reflexivity).
  split; [exact Hfire|].
  apply (X16_persistent_watch_cancels_itself loop_with_self_cancelling _ 1 3
           (mkIOTask 1 true (Some cancel_1_twice) (3, WATCH_READ)) _
           (reachable_wf _ reachable_loop_with_self_cancelling) eq_refl eq_refl Hfire).
Defined.

Lemma X17_witness :
  reachable loop_with_delayed /\
  run_once_ loop_with_delayed = false /\
  forall k task, delayed_tasks_ loop_with_delayed !! k = Some task ->
    0 < k < TaskId_modulus /\ dt_task_id task = k.
Proof.
  split; [exact reachable_loop_with_delayed|].
  destruct (X17_reachable_invariant loop_with_delayed reachable_loop_with_delayed)
    as (Hd & _ & _ & Hflag).
  split; [exact Hflag | exact Hd].
Defined.

Lemma X18_witness :
  PostDelayedTask (Some cancel_1) 0 (new_loop accepting_base)
  = Ret (1, loop_with_delayed) /\
  exists s2 s3,
    CancelTask 1 loop_with_delayed = (true, s2) /\
    OnRanPostedTask 1 s2 = Ret (s3, []) /\
    delayed_tasks_ s3 = ∅ /\ io_tasks_ s3 = ∅.
Proof.
  assert (PostDelayedTask (Some cancel_1) 0 (new_loop accepting_base)
          = Ret (1, loop_with_delayed)) as Hpost by (vm_compute; reflexivity).
  split; [exact Hpost|].
  destruct (X18_register_then_cancel (new_loop accepting_base)) as (Hround & _).
  destruct (Hround cancel_1 0 1 loop_with_delayed Hpost ltac:(discriminate))
    as (s2 & s3 & Hc & Hf & Hd & Hio & _).
  exists s2, s3. split; [exact Hc|]. split; [exact Hf|].
  split; [exact Hd | exact Hio].
Defined.

End MessageLoopLaws.
